(** * dash0 API client: request pipeline, pagination iterator, error values

    A shallow embedding of the hand-written core of the Go package [dash0]:
    - [iterator.go]: the cursor-pagination iterator [Iter];
    - [context.go], [transport.go]: the idempotency marker, the retrying
      transport and the concurrency-limiting transport;
    - [errors.go]: [APIError] and the classification predicates;
    - the client: the options, [NewClient], the wrappers of check rules
      and of spans around the generated bindings, and the pointer helpers.

    Go values are modelled as follows.  [int], [int64] and [time.Duration]
    are [Z] with the 64-bit two's-complement wrap-around written out where
    the code multiplies or adds; a pointer [*T] is [option T] with [nil] as
    [None]; an [error] is [option error]; a pair of results [(resp, err)] is
    a Rocq pair.  Everything the code reaches through an interface or a
    closure (the base [http.RoundTripper], a request's [GetBody], the fetch
    function of an iterator, the global random source, the timer raced
    against the context) is a function on an explicit world state. *)

From Stdlib Require Import ZArith List String Ascii Bool Lia.
Import ListNotations.
Open Scope string_scope.
Open Scope list_scope.
Open Scope Z_scope.

(** Go [error] values are compared by identity; a message stands for one. *)
Definition error := string.

Definition isNil {A : Type} (o : option A) : bool :=
  match o with None => true | Some _ => false end.

Definition notNil {A : Type} (o : option A) : bool := negb (isNil o).

(** [len(s)] as a Go [int]. *)
Definition len {A : Type} (l : list A) : Z := Z.of_nat (List.length l).

(** 64-bit signed integers ([int] on a 64-bit platform, [int64],
    [time.Duration]). *)
Module Int64.

Definition MaxInt64 : Z := 2 ^ 63 - 1.
Definition MinInt64 : Z := - 2 ^ 63.

Definition in_range (z : Z) : Prop := MinInt64 <= z <= MaxInt64.

Definition in_rangeb (z : Z) : bool := (MinInt64 <=? z) && (z <=? MaxInt64).

(** Two's-complement wrap-around of an arithmetic result. *)
Definition wrap (z : Z) : Z := (z + 2 ^ 63) mod 2 ^ 64 - 2 ^ 63.

Definition mul (a b : Z) : Z := wrap (a * b).
Definition add (a b : Z) : Z := wrap (a + b).

(** [1 << n] on [int]: a negative count panics ([None]); a count of 64 or
    more shifts every bit out. *)
Definition shl1 (n : Z) : option Z :=
  if n <? 0 then None else Some (wrap (Z.shiftl 1 n)).

End Int64.

(* ===================================================================== *)
(** * iterator.go *)
(* ===================================================================== *)

Module Iterator.

(** [fetch func(cursor *string) ([]*T, *string, error)].  The closure may
    keep state of its own (the tests count calls), so it acts on a world
    state [W]. *)
Definition fetchFn (T W : Type) : Type :=
  option string -> W -> (list (option T) * option string * option error) * W.

(** [type Iter[T any] struct].  [fetch] is [None] for a nil func. *)
Record Iter (T W : Type) : Type := mkIter {
  cur     : option T;
  err     : option error;
  items   : list (option T);
  idx     : Z;
  hasMore : bool;
  fetch   : option (fetchFn T W);
  cursor  : option string
}.

Arguments mkIter {T W}.
Arguments cur {T W}.
Arguments err {T W}.
Arguments items {T W}.
Arguments idx {T W}.
Arguments hasMore {T W}.
Arguments fetch {T W}.
Arguments cursor {T W}.

Section Ops.
Context {T W : Type}.

Definition set_cur (it : Iter T W) (c : option T) : Iter T W :=
  mkIter c (err it) (items it) (idx it) (hasMore it) (fetch it) (cursor it).

Definition set_err (it : Iter T W) (e : option error) : Iter T W :=
  mkIter (cur it) e (items it) (idx it) (hasMore it) (fetch it) (cursor it).

Definition set_idx (it : Iter T W) (i : Z) : Iter T W :=
  mkIter (cur it) (err it) (items it) i (hasMore it) (fetch it) (cursor it).

(** The four assignments after a successful fetch. *)
Definition set_page (it : Iter T W) (its : list (option T))
    (next : option string) : Iter T W :=
  mkIter (cur it) (err it) its 0 (notNil next) (fetch it) next.

(** [s[i]]: a run-time panic outside [0 <= i < len(s)], rendered as
    [None]; inside, the element (itself a possibly nil pointer). *)
Definition index (s : list (option T)) (i : Z) : option (option T) :=
  if (0 <=? i) && (i <? len s) then nth_error s (Z.to_nat i) else None.

(** [func (it *Iter[T]) Next() bool].  The result is the returned
    boolean, the receiver after the call and the world after the call;
    [None] stands for an index-out-of-range panic.  [it.idx++] wraps
    around like any addition on [int]. *)
Definition Next (it : Iter T W) (w : W) : option (bool * Iter T W * W) :=
  if notNil (err it) then Some (false, it, w)
  else
    let it1 := set_idx it (Int64.add (idx it) 1) in
    if idx it1 <? len (items it1) then
      match index (items it1) (idx it1) with
      | Some p => Some (true, set_cur it1 p, w)
      | None => None
      end
    else if negb (hasMore it1) || isNil (fetch it1) then
      Some (false, it1, w)
    else
      match fetch it1 with
      | None => Some (false, it1, w)
      | Some f =>
        let '(its, nextCursor, e, w') := f (cursor it1) w in
        if notNil e then Some (false, set_err it1 e, w')
        else
          let it2 := set_page it1 its nextCursor in
          if 0 <? len (items it2) then
            match index (items it2) 0 with
            | Some p => Some (true, set_cur it2 p, w')
            | None => None
            end
          else Some (false, it2, w')
      end.

(** [func (it *Iter[T]) Current() *T] *)
Definition Current (it : Iter T W) : option T := cur it.

(** [func (it *Iter[T]) Err() error] *)
Definition Err (it : Iter T W) : option error := err it.

(** [func newIter[T any](items, hasMore, cursor, fetch) *Iter[T]] *)
Definition newIter (its : list (option T)) (more : bool)
    (c : option string) (f : option (fetchFn T W)) : Iter T W :=
  mkIter None None its (-1) more f c.

(** [func newIterWithError[T any](err error) *Iter[T]]; the fields not
    named in the literal take their zero values. *)
Definition newIterWithError (e : option error) : Iter T W :=
  mkIter None e [] (-1) false None None.

(** [n] successive calls of [Next] on the same iterator.  The first
    component is what the most recent call returned, [None] when no
    call has been made. *)
Fixpoint calls (n : nat) (it : Iter T W) (w : W)
    : option (option bool * Iter T W * W) :=
  match n with
  | O => Some (None, it, w)
  | S k =>
    match calls k it w with
    | Some (_, it', w') =>
      match Next it' w' with
      | Some (b, it'', w'') => Some (Some b, it'', w'')
      | None => None
      end
    | None => None
    end
  end.

(** The loop of the callers,
    [for iter.Next() { result = append(result, iter.Current()) }],
    with a bound on its iterations; [None] when the bound is reached
    or [Next] panics. *)
Fixpoint collect (fuel : nat) (it : Iter T W) (w : W)
    (result : list (option T)) : option (list (option T) * Iter T W * W) :=
  match fuel with
  | O => None
  | S k =>
    match Next it w with
    | Some (true, it', w') => collect k it' w' (result ++ [Current it'])
    | Some (false, it', w') => Some (result, it', w')
    | None => None
    end
  end.

(** The two terminal states of the iterator.  Errored: an error is
    stored.  Exhausted: the most recent [Next] returned false and no
    further fetch can happen ([hasMore] is false or there is no fetch
    function). *)
Definition terminal (last : option bool) (it : Iter T W) : bool :=
  notNil (err it) ||
  match last with
  | Some false => negb (hasMore it) || isNil (fetch it)
  | _ => false
  end.

(** What is known about the position marker after a call that returned
    [last], as long as no error is stored. *)
Definition position_ok (last : option bool) (it : Iter T W) : Prop :=
  err it = None ->
  idx it <= Int64.MaxInt64 /\
  match last with
  | None => idx it = -1
  | Some true => 0 <= idx it < len (items it)
  | Some false =>
    if negb (hasMore it) || isNil (fetch it)
    then len (items it) <= idx it
    else idx it = 0 /\ len (items it) = 0
  end.

End Ops.

(** The iterators used as concrete inputs: items are strings, the world
    counts the calls of the fetch function. *)
Definition one_item : list (option string) := [Some "a"].

(** A fetch function that answers with an empty page and a new cursor. *)
Definition fetch_empty_more : fetchFn string nat :=
  fun _ calls => (([], Some "cursor2", None), S calls).

(** A fetch function in the style of the test "fetches multiple pages". *)
Definition fetch_two_pages : fetchFn string nat :=
  fun _ calls =>
    match calls with
    | O => (([Some "b"], Some "cursor2", None), 1%nat)
    | _ => (([Some "c"], None, None), S calls)
    end.

(** The fetch function of the test "fetches next page when hasMore is
    true": one more page, no further cursor. *)
Definition fetch_last_page : fetchFn string nat :=
  fun _ calls => (([Some "c"; Some "d"], None, None), S calls).

Definition fetch_failing : fetchFn string nat :=
  fun _ calls => ((([] : list (option string)), None, Some "fetch failed"), S calls).

End Iterator.

(** A server of pages for running the iterator: the world is the list of
    the replies still to come and the cursors the fetch function has been
    called with, in order. *)
Module Paging.
Import Iterator.

Inductive Reply (T : Type) : Type :=
| PageReply (its : list (option T)) (next : option string)
| ErrorReply (e : error).

Arguments PageReply {T}.
Arguments ErrorReply {T}.

Record Pager (T : Type) : Type := mkPager {
  replies : list (Reply T);
  asked   : list (option string)
}.

Arguments mkPager {T}.
Arguments replies {T}.
Arguments asked {T}.

(** The fetch function: it notes the cursor it is called with and
    answers with the next reply (an empty last page when none is left). *)
Definition fetchPage {T : Type} : fetchFn T (Pager T) :=
  fun c w =>
    let w' := mkPager (tl (replies w)) (asked w ++ [c]) in
    match replies w with
    | [] => (([], None, None), w')
    | PageReply its next :: _ => ((its, next, None), w')
    | ErrorReply e :: _ => (([], None, Some e), w')
    end.

(** Pages that the loop of a caller walks through and leaves by a fetch:
    each has an item and comes with a cursor to the next page. *)
Definition continuing {T : Type}
    (pages : list (list (option T) * option string)) : Prop :=
  Forall (fun p => fst p <> [] /\ snd p <> None /\ len (fst p) <= Int64.MaxInt64)
         pages.

(** The fetch function [f], called with the cursor [c] in the world [w]
    and then with the cursor of each page it returned, returns [pages]
    one after the other without an error and leaves the world [w']. *)
Fixpoint walk {T W : Type} (f : fetchFn T W) (c : option string) (w : W)
    (pages : list (list (option T) * option string)) (w' : W) : Prop :=
  match pages with
  | [] => w' = w
  | (its, next) :: rest =>
    exists w1, f c w = ((its, next, None), w1) /\ walk f next w1 rest w'
  end.

(** The cursors the fetch function is called with along such pages: the
    cursor of the iterator, then the cursor of each page but the last. *)
Fixpoint cursorsAsked {T : Type} (c : option string)
    (pages : list (list (option T) * option string)) : list (option string) :=
  match pages with
  | [] => []
  | (_, next) :: rest => c :: cursorsAsked next rest
  end.

(** The cursor that came with the last of the pages ([c] when there is
    no page). *)
Fixpoint lastCursor {T : Type} (c : option string)
    (pages : list (list (option T) * option string)) : option string :=
  match pages with
  | [] => c
  | (_, next) :: rest => lastCursor next rest
  end.

(** The iterator stands in a page of which it has yielded the items
    [pre] and not yet the items [post]. *)
Definition inPage {T W : Type} (it : Iter T W) (pre post : list (option T)) : Prop :=
  items it = pre ++ post
  /\ idx it = len pre - 1
  /\ err it = None
  /\ len (pre ++ post) <= Int64.MaxInt64.

(** The iterator has yielded every item of its page. *)
Definition atEnd {T W : Type} (it : Iter T W) : Prop :=
  err it = None
  /\ len (items it) <= idx it + 1
  /\ -1 <= idx it < Int64.MaxInt64.

Definition toReplies {T : Type}
    (pages : list (list (option T) * option string)) : list (Reply T) :=
  map (fun p => PageReply (fst p) (snd p)) pages.

Definition itemsOf {T : Type}
    (pages : list (list (option T) * option string)) : list (option T) :=
  List.concat (map fst pages).

End Paging.

(* ===================================================================== *)
(** * Go values used by the transports *)
(* ===================================================================== *)

(** [time.Duration] constants, in nanoseconds. *)
Module Time.
Definition Nanosecond : Z := 1.
Definition Millisecond : Z := 1000000.
Definition Second : Z := 1000000000.
End Time.

(** [strconv.Atoi]: an optional sign, then one or more decimal digits; an
    error ([None]) on anything else and on a value outside [int]. *)
Module Strconv.

Definition digit (c : ascii) : option Z :=
  let n := Z.of_nat (nat_of_ascii c) in
  if (48 <=? n) && (n <=? 57) then Some (n - 48) else None.

Fixpoint digits (s : string) (acc : Z) : option Z :=
  match s with
  | EmptyString => Some acc
  | String c r =>
    match digit c with
    | Some d => digits r (acc * 10 + d)
    | None => None
    end
  end.

Definition unsigned (s : string) : option Z :=
  match s with
  | EmptyString => None
  | _ => digits s 0
  end.

Definition Atoi (s : string) : option Z :=
  let signed :=
    match s with
    | String "-" r => option_map Z.opp (unsigned r)
    | String "+" r => unsigned r
    | _ => unsigned s
    end in
  match signed with
  | Some v => if Int64.in_rangeb v then Some v else None
  | None => None
  end.

End Strconv.

(** [net/http]: headers, responses, requests. *)
Module Http.

Definition MethodGet := "GET".
Definition MethodHead := "HEAD".
Definition MethodPost := "POST".
Definition MethodPut := "PUT".
Definition MethodPatch := "PATCH".
Definition MethodDelete := "DELETE".
Definition MethodOptions := "OPTIONS".

Definition StatusOK : Z := 200.
Definition StatusBadRequest : Z := 400.
Definition StatusUnauthorized : Z := 401.
Definition StatusForbidden : Z := 403.
Definition StatusNotFound : Z := 404.
Definition StatusConflict : Z := 409.
Definition StatusTooManyRequests : Z := 429.
Definition StatusInternalServerError : Z := 500.

(** [type Header map[string][]string]; the keys of a map are distinct, so
    the first binding of an association list is the binding. *)
Definition Header := list (string * list string).

Definition code (c : ascii) : nat := nat_of_ascii c.

Definition is_lower (c : ascii) : bool := (97 <=? code c)%nat && (code c <=? 122)%nat.
Definition is_upper (c : ascii) : bool := (65 <=? code c)%nat && (code c <=? 90)%nat.
Definition is_digit (c : ascii) : bool := (48 <=? code c)%nat && (code c <=? 57)%nat.

Definition to_upper (c : ascii) : ascii :=
  if is_lower c then ascii_of_nat (code c - 32) else c.
Definition to_lower (c : ascii) : ascii :=
  if is_upper c then ascii_of_nat (code c + 32) else c.

(** The token characters of RFC 7230 ([validHeaderFieldByte]). *)
Definition validHeaderFieldByte (c : ascii) : bool :=
  is_lower c || is_upper c || is_digit c ||
  existsb (Ascii.eqb c)
    ["!"; "#"; "$"; "%"; "&"; "'"; "*"; "+"; "-"; "."; "^"; "_"; "`"; "|"; "~"]%char.

Fixpoint all_valid (s : string) : bool :=
  match s with
  | EmptyString => true
  | String c r => validHeaderFieldByte c && all_valid r
  end.

Fixpoint canonical (upper : bool) (s : string) : string :=
  match s with
  | EmptyString => EmptyString
  | String c r =>
    let c' := if upper then to_upper c else to_lower c in
    String c' (canonical (Ascii.eqb c' "-") r)
  end.

(** [textproto.CanonicalMIMEHeaderKey]: the first letter and every letter
    after a hyphen in upper case, the others in lower case; a key with a
    byte that is not a token character is returned as it is. *)
Definition CanonicalMIMEHeaderKey (s : string) : string :=
  if all_valid s then canonical true s else s.

Fixpoint lookup (h : Header) (k : string) : option (list string) :=
  match h with
  | [] => None
  | (k', v) :: r => if String.eqb k' k then Some v else lookup r k
  end.

(** [func (h Header) Get(key string) string]: the first value stored
    under the canonical form of the key, the empty string if none. *)
Definition Get (h : Header) (key : string) : string :=
  match lookup h (CanonicalMIMEHeaderKey key) with
  | Some (v :: _) => v
  | _ => ""
  end.

(** A body is a handle to a reader that lives in the world: reading it
    consumes it there, and two uses of one handle are uses of one
    reader. *)
Definition BodyRef := nat.

(** The fields of [http.Response] that the package reads. *)
Record Response : Type := mkResponse {
  StatusCode : Z;
  Status     : string;
  RespHeader : Header;
  RespBody   : option BodyRef
}.

End Http.

(** [context.Context], as far as values are concerned; cancellation is an
    event of the world (see [Transport.Env]). *)
Module Ctx.

(** A value of interface type [any], by dynamic type. *)
Inductive any : Type :=
| VBool (b : bool)
| VString (s : string)
| VInt (z : Z).

(** Context keys are compared with their dynamic type: a [contextKey] of
    this package differs from any key of another type with the same
    text. *)
Inductive key : Type :=
| contextKey (s : string)
| otherKey (typ : string) (s : string).

Definition key_eqb (a b : key) : bool :=
  match a, b with
  | contextKey s, contextKey s' => String.eqb s s'
  | otherKey t s, otherKey t' s' => String.eqb t t' && String.eqb s s'
  | _, _ => false
  end.

Inductive GoContext : Type :=
| Background
| WithValue (parent : GoContext) (k : key) (v : any).

(** [ctx.Value(k)]; [None] is the nil interface. *)
Fixpoint Value (ctx : GoContext) (k : key) : option any :=
  match ctx with
  | Background => None
  | WithValue parent k' v => if key_eqb k' k then Some v else Value parent k
  end.

(** [const idempotentKey contextKey = "dash0_idempotent"] *)
Definition idempotentKey : key := contextKey "dash0_idempotent".

(** [func withIdempotent(ctx context.Context) context.Context] *)
Definition withIdempotent (ctx : GoContext) : GoContext :=
  WithValue ctx idempotentKey (VBool true).

(** [func isIdempotent(ctx context.Context) bool]:
    [v, ok := ctx.Value(idempotentKey).(bool); return ok && v]. *)
Definition isIdempotent (ctx : GoContext) : bool :=
  match Value ctx idempotentKey with
  | Some (VBool v) => v
  | _ => false
  end.

End Ctx.
(* ===================================================================== *)
(** * transport.go: the retrying transport *)
(* ===================================================================== *)

Module Transport.
Import Http.

(** What a [RoundTrip] returns: [(resp *http.Response, err error)]. *)
Definition result : Type := option Response * option error.

(** The fields of [http.Request] that the package reads.  [GetBody]
    makes a new reader, so it acts on the world. *)
Record Request (W : Type) : Type := mkRequest {
  Method  : string;
  Context : Ctx.GoContext;
  Body    : option BodyRef;
  GetBody : option (W -> (option BodyRef * option error) * W)
}.

Arguments mkRequest {W}.
Arguments Method {W}.
Arguments Context {W}.
Arguments Body {W}.
Arguments GetBody {W}.

Definition setBody {W : Type} (req : Request W) (b : option BodyRef) : Request W :=
  mkRequest (Method req) (Context req) b (GetBody req).

(** [http.RoundTripper], an interface with the one method [RoundTrip]. *)
Definition RoundTripper (W : Type) : Type := Request W -> W -> result * W.

(** The rest of the world the transport touches. *)
Record Env (W : Type) : Type := mkEnv {
(** [http.DefaultTransport] *)
DefaultTransport : RoundTripper W;
(** [rand.Int63n(n)] for [n > 0] (for [n <= 0] it panics, see [Int63n]) *)
randomBelow : Z -> W -> Z * W;
(** the [select] between [req.Context().Done()] and [time.After(wait)]:
    [Some e] when the context is done first, with [e] its [Err()] *)
waitOrDone : Ctx.GoContext -> Z -> W -> option error * W;
(** [io.Copy(io.Discard, body)] followed by [body.Close()] *)
drainAndClose : BodyRef -> W -> W
}.

Arguments DefaultTransport {W}.
Arguments randomBelow {W}.
Arguments waitOrDone {W}.
Arguments drainAndClose {W}.

(** What the transport does to the world, in order. *)
Inductive Event : Type :=
| EvRoundTrip (method : string) (body : option BodyRef) (res : result)
| EvGetBody (res : option BodyRef * option error)
| EvDrain (body : BodyRef)
| EvWait (wait : Z) (done : option error).

(** A call returns a value or panics; either way it leaves a world and
    the events so far. *)
Inductive Outcome (W A : Type) : Type :=
| Returned (a : A) (w : W) (tr : list Event)
| Panicked (msg : string) (w : W) (tr : list Event).

Arguments Returned {W A}.
Arguments Panicked {W A}.

Definition M (W A : Type) : Type := W -> list Event -> Outcome W A.

Definition ret {W A : Type} (a : A) : M W A := fun w tr => Returned a w tr.

Definition panic {W A : Type} (msg : string) : M W A := fun w tr => Panicked msg w tr.

Definition bind {W A B : Type} (m : M W A) (k : A -> M W B) : M W B :=
  fun w tr =>
    match m w tr with
    | Returned a w' tr' => k a w' tr'
    | Panicked msg w' tr' => Panicked msg w' tr'
    end.

Declare Scope go_scope.
Delimit Scope go_scope with go.
Notation "x <- m ;; k" := (bind m (fun x => k))
  (at level 61, m at next level, right associativity) : go_scope.
Notation "' p <- m ;; k" := (bind m (fun x => let 'p := x in k))
  (at level 61, p pattern, m at next level, right associativity) : go_scope.
Notation "m ;;; k" := (bind m (fun _ => k))
  (at level 61, right associativity) : go_scope.
Open Scope go_scope.

(** [type retryTransport struct] *)
Record retryTransport (W : Type) : Type := mkRetryTransport {
  base       : RoundTripper W;
  maxRetries : Z;
  waitMin    : Z;
  waitMax    : Z
}.

Arguments mkRetryTransport {W}.
Arguments base {W}.
Arguments maxRetries {W}.
Arguments waitMin {W}.
Arguments waitMax {W}.

Section Calls.
Context {W : Type} (E : Env W).

(** [t.base.RoundTrip(req)] *)
Definition callRoundTrip (base : RoundTripper W) (req : Request W) : M W result :=
  fun w tr =>
    let (r, w') := base req w in
    Returned r w' (tr ++ [EvRoundTrip (Method req) (Body req) r]).

(** [req.GetBody()] *)
Definition callGetBody (g : W -> (option BodyRef * option error) * W)
    : M W (option BodyRef * option error) :=
  fun w tr => let (r, w') := g w in Returned r w' (tr ++ [EvGetBody r]).

Definition callDrain (b : BodyRef) : M W unit :=
  fun w tr => Returned tt (drainAndClose E b w) (tr ++ [EvDrain b]).

Definition callWait (ctx : Ctx.GoContext) (wait : Z) : M W (option error) :=
  fun w tr =>
    let (d, w') := waitOrDone E ctx wait w in
    Returned d w' (tr ++ [EvWait wait d]).

(** [rand.Int63n(n)]: "It panics if n <= 0." *)
Definition Int63n (n : Z) : M W Z :=
  fun w tr =>
    if n <=? 0 then Panicked "invalid argument to Int63n" w tr
    else let (v, w') := randomBelow E n w in Returned v w' tr.

(** [func newRetryTransport(base, maxRetries, waitMin, waitMax)] *)
Definition newRetryTransport (base : option (RoundTripper W))
    (maxRetries waitMin waitMax : Z) : retryTransport W :=
  let base := match base with None => DefaultTransport E | Some b => b end in
  let maxRetries := if maxRetries <? 0 then 0 else maxRetries in
  let maxRetries := if 5 <? maxRetries then 5 else maxRetries in
  let waitMin := if waitMin <=? 0 then Int64.mul 500 Time.Millisecond else waitMin in
  let waitMax := if waitMax <=? 0 then Int64.mul 30 Time.Second else waitMax in
  mkRetryTransport base maxRetries waitMin waitMax.

(** [func (t *retryTransport) isIdempotent(req *http.Request) bool] *)
Definition isIdempotent (t : retryTransport W) (req : Request W) : bool :=
  if String.eqb (Method req) MethodGet
     || String.eqb (Method req) MethodPut
     || String.eqb (Method req) MethodDelete
     || String.eqb (Method req) MethodHead
     || String.eqb (Method req) MethodOptions
  then true
  else Ctx.isIdempotent (Context req).

(** [func (t *retryTransport) shouldRetry(resp *http.Response) bool] *)
Definition shouldRetry (t : retryTransport W) (resp : option Response) : bool :=
  match resp with
  | None => true
  | Some r => (StatusCode r =? StatusTooManyRequests) || (500 <=? StatusCode r)
  end.

(** The first half of [backoff]: the wait read from [Retry-After], if
    the header gives one. *)
Definition retryAfter (t : retryTransport W) (resp : option Response) : option Z :=
  match resp with
  | None => None
  | Some r =>
    let ra := Get (RespHeader r) "Retry-After" in
    if String.eqb ra "" then None
    else
      match Strconv.Atoi ra with
      | Some secs =>
        if 0 <? secs then
          let wait := Int64.mul secs Time.Second in
          Some (if waitMax t <? wait then waitMax t else wait)
        else None
      | None => None
      end
  end.

(** [wait := t.waitMin * time.Duration(1<<attempt)], then the cap. *)
Definition exponential (t : retryTransport W) (attempt : Z) : option Z :=
  match Int64.shl1 attempt with
  | None => None
  | Some p =>
    let wait := Int64.mul (waitMin t) p in
    Some (if waitMax t <? wait then waitMax t else wait)
  end.

(** [func (t *retryTransport) backoff(attempt int, resp *http.Response)
    time.Duration] *)
Definition backoff (t : retryTransport W) (attempt : Z) (resp : option Response)
    : M W Z :=
  match retryAfter t resp with
  | Some wait => ret wait
  | None =>
    match exponential t attempt with
    | None => panic "negative shift amount"
    | Some wait =>
      if 0 <? wait then
        jitter <- Int63n (Z.quot wait 4) ;;
        ret (Int64.add wait jitter)
      else ret wait
    end
  end.

(** The head of the loop body: for a retry, a new body from [GetBody]
    when the request has both a body and a [GetBody]. *)
Definition resetBody (attempt : Z) (req : Request W)
    : M W (Request W * option error) :=
  if (0 <? attempt) && notNil (Body req) && notNil (GetBody req) then
    match GetBody req with
    | None => ret (req, None)
    | Some g =>
      ' (body, bodyErr) <- callGetBody g ;;
      if notNil bodyErr then ret (req, bodyErr)
      else ret (setBody req body, None)
    end
  else ret (req, None).

(** The loop body after [resp, err = t.base.RoundTrip(req)]: return on
    a result that is not to be retried, leave the loop on the last
    attempt, otherwise drain the response, wait, and go on with the
    next attempt ([next]) unless the context is done first. *)
Definition afterRoundTrip (t : retryTransport W)
    (next : Z -> Request W -> result -> M W result)
    (attempt : Z) (req : Request W) (r : result) : M W result :=
  let (resp, err) := r in
  if isNil err && negb (shouldRetry t resp) then ret (resp, None)
  else if maxRetries t <=? attempt then ret (resp, err)
  else
    match resp with
    | Some r =>
      match RespBody r with
      | Some b => callDrain b
      | None => ret tt
      end
    | None => ret tt
    end ;;;
    wait <- backoff t attempt resp ;;
    done <- callWait (Context req) wait ;;
    if notNil done then ret (None, done)
    else next (attempt + 1) req (resp, err).

(** [for attempt := 0; attempt <= t.maxRetries; attempt++ { ... }]
    followed by [return resp, err].  [last] holds [resp, err]; [fuel]
    bounds the number of iterations. *)
Fixpoint attempts (t : retryTransport W) (fuel : nat) (attempt : Z)
    (req : Request W) (last : result) : M W result :=
  match fuel with
  | O => ret last
  | S fuel' =>
    if attempt <=? maxRetries t then
      ' (req, bodyErr) <- resetBody attempt req ;;
      if notNil bodyErr then ret (None, bodyErr)
      else
        r <- callRoundTrip (base t) req ;;
        afterRoundTrip t (attempts t fuel') attempt req r
    else ret last
  end.

(** [func (t *retryTransport) RoundTrip(req *http.Request)
    (resp *http.Response, err error)].  The loop runs at most
    [maxRetries + 1] times. *)
Definition RoundTrip (t : retryTransport W) (req : Request W) : M W result :=
  if maxRetries t =? 0 then callRoundTrip (base t) req
  else if negb (isIdempotent t req) then callRoundTrip (base t) req
  else attempts t (Z.to_nat (maxRetries t + 1)) 0 req (None, None).

End Calls.

(** The calls of the base transport in a trace. *)
Definition isRoundTrip (e : Event) : bool :=
  match e with EvRoundTrip _ _ _ => true | _ => false end.

Definition roundTrips (tr : list Event) : list Event := filter isRoundTrip tr.

Definition attemptsMade (tr : list Event) : nat := List.length (roundTrips tr).

(** The result of the most recent call of the base transport. *)
Definition lastResult (tr : list Event) : option result :=
  match rev (roundTrips tr) with
  | EvRoundTrip _ _ r :: _ => Some r
  | _ => None
  end.

(** The events an outcome leaves. *)
Definition trace {W A : Type} (o : Outcome W A) : list Event :=
  match o with
  | Returned _ _ tr => tr
  | Panicked _ _ tr => tr
  end.

(** The waits of a trace, in order. *)
Fixpoint waits (tr : list Event) : list Z :=
  match tr with
  | [] => []
  | EvWait d _ :: r => d :: waits r
  | _ :: r => waits r
  end.

(** An attempt fails retryably: a transport error, or a response with
    status 429 or at least 500. *)
Definition retryable (r : result) : bool :=
  match r with
  | (_, Some _) => true
  | (None, None) => true
  | (Some resp, None) =>
    (StatusCode resp =? StatusTooManyRequests) || (500 <=? StatusCode resp)
  end.

(** An outcome that is a panic. *)
Definition panics {W A : Type} (o : Outcome W A) : Prop :=
  match o with
  | Panicked _ _ _ => True
  | Returned _ _ _ => False
  end.

(** The random source keeps its contract: a value in [[0, n)]. *)
Definition randomInRange {W : Type} (E : Env W) : Prop :=
  forall n w, 0 < n -> 0 <= fst (randomBelow E n w) < n.

(** The world and the events after the response of a failed attempt has
    been drained and closed. *)
Definition drained {W : Type} (E : Env W) (resp : option Response) (w : W)
    (tr : list Event) : W * list Event :=
  match resp with
  | Some r =>
    match RespBody r with
    | Some b => (drainAndClose E b w, tr ++ [EvDrain b])
    | None => (w, tr)
    end
  | None => (w, tr)
  end.

(** The eligibility rule as the specification words it: the method is
    one of the five idempotent verbs, or the context carries the marker
    with the value true. *)
Definition retryEligible {W : Type} (req : Request W) : Prop :=
  In (Method req) [MethodGet; MethodPut; MethodDelete; MethodHead; MethodOptions]
  \/ Ctx.Value (Context req) Ctx.idempotentKey = Some (Ctx.VBool true).

End Transport.
(** A concrete world for running the transport: a server that answers from
    a script and reads request bodies, a supply of random numbers, and a
    context that is done during a chosen wait (or never). *)
Module Scripted.
Import Http Transport.

Record World : Type := mkWorld {
  script   : list result;              (* answers of the server, in order *)
  readers  : list (BodyRef * string);  (* what is left to read of each body *)
  nextRef  : BodyRef;                  (* the next unused handle *)
  received : list string;              (* the request bodies the server read *)
  random   : list Z;                   (* the random source *)
  doneAt   : option nat;               (* the wait during which the context is done *)
  waited   : nat                       (* the waits so far *)
}.

Fixpoint remaining (rs : list (BodyRef * string)) (b : BodyRef) : string :=
  match rs with
  | [] => ""
  | (b', s) :: r => if Nat.eqb b' b then s else remaining r b
  end.

Fixpoint consume (rs : list (BodyRef * string)) (b : BodyRef)
    : list (BodyRef * string) :=
  match rs with
  | [] => []
  | (b', s) :: r => if Nat.eqb b' b then (b', "") :: r else (b', s) :: consume r b
  end.

Definition ok200 : result := (Some (mkResponse StatusOK "200 OK" [] None), None).

(** The server reads the request body to its end and answers with the
    next entry of the script (200 when the script is over). *)
Definition server : RoundTripper World :=
  fun req w =>
    let sent := match Body req with Some b => remaining (readers w) b | None => "" end in
    let rs := match Body req with Some b => consume (readers w) b | None => readers w end in
    (hd ok200 (script w),
     mkWorld (tl (script w)) rs (nextRef w) (received w ++ [sent])
             (random w) (doneAt w) (waited w)).

(** A [GetBody] that hands out a new reader over [content]. *)
Definition freshBody (content : string)
    : World -> (option BodyRef * option error) * World :=
  fun w =>
    ((Some (nextRef w), None),
     mkWorld (script w) ((nextRef w, content) :: readers w) (S (nextRef w))
             (received w) (random w) (doneAt w) (waited w)).

(** A [GetBody] that fails. *)
Definition brokenBody : World -> (option BodyRef * option error) * World :=
  fun w => ((None, Some "cannot rewind body"), w).

Definition env : Env World :=
  mkEnv World
    server
    (fun n w =>
       (hd 0 (random w) mod n,
        mkWorld (script w) (readers w) (nextRef w) (received w)
                (tl (random w)) (doneAt w) (waited w)))
    (fun _ _ w =>
       ((match doneAt w with
         | Some k => if Nat.eqb k (waited w) then Some "context canceled" else None
         | None => None
         end),
        mkWorld (script w) (readers w) (nextRef w) (received w)
                (random w) (doneAt w) (S (waited w))))
    (fun b w =>
       mkWorld (script w) (consume (readers w) b) (nextRef w) (received w)
               (random w) (doneAt w) (waited w)).

(** The same world with a context that is never done. *)
Definition patient : Env World :=
  mkEnv World
    server
    (randomBelow env)
    (fun _ _ w =>
       (None,
        mkWorld (script w) (readers w) (nextRef w) (received w)
                (random w) (doneAt w) (S (waited w))))
    (drainAndClose env).

Definition response (status : Z) (h : Header) : Response :=
  mkResponse status "" h None.

Definition failure (status : Z) (h : Header) : result := (Some (response status h), None).

(** A server that reads the request and answers 503, always. *)
Definition down : RoundTripper World :=
  fun req w => (failure 503 [], snd (server req w)).

(** A world whose server answers [answers] and then 200, with one request
    body "payload" under handle 0. *)
Definition world (answers : list result) (rnd : list Z) : World :=
  mkWorld answers [(0%nat, "payload")] 1%nat [] rnd None 0%nat.

Definition get : Request World :=
  mkRequest MethodGet Ctx.Background None None.

Definition post : Request World :=
  mkRequest MethodPost Ctx.Background (Some 0%nat) (Some (freshBody "payload")).

(** A PUT whose body has no [GetBody]: it cannot be replayed. *)
Definition putOnce : Request World :=
  mkRequest MethodPut Ctx.Background (Some 0%nat) None.

(** A PUT whose body can be replayed. *)
Definition putReplay : Request World :=
  mkRequest MethodPut Ctx.Background (Some 0%nat) (Some (freshBody "payload")).

(** A PUT whose [GetBody] fails. *)
Definition putBroken : Request World :=
  mkRequest MethodPut Ctx.Background (Some 0%nat) (Some brokenBody).

(** The transport of a client with the default waits (500ms, 30s). *)
Definition transport (maxRetries : Z) : retryTransport World :=
  newRetryTransport env None maxRetries 0 0.

(** What a test looks at: the status, the error and the number of
    attempts. *)
Definition outcome_of (o : Outcome World result)
    : option (option Z * option error * nat) :=
  match o with
  | Returned (resp, err) _ tr =>
    Some (option_map StatusCode resp, err, attemptsMade tr)
  | Panicked _ _ _ => None
  end.

End Scripted.
(* ===================================================================== *)
(** * transport.go: the concurrency-limiting transport *)
(* ===================================================================== *)

(** [rateLimitedTransport.RoundTrip] is three statements:
    [t.semaphore.Acquire(ctx, 1)] with an early return on error,
    [defer t.semaphore.Release(1)], and [t.base.RoundTrip(req)].  Callers
    run as goroutines; a state of the system is the semaphore and the
    place each caller has reached, and a run is a schedule of atomic
    steps.  [semaphore.Weighted] (golang.org/x/sync) is taken by its
    contract: the weight of a caller is added to the held total only while
    the total stays within the size; [Acquire] then returns nil, or, when
    the context of the caller is done, returns [ctx.Err()] with the
    semaphore as it was before the call, which includes putting back a
    weight that was granted while the caller was being cancelled;
    [Release] subtracts the weight. *)
Module Limiter.

(** [const MaxConcurrentRequests = 10], declared with the options of the
    client: "the maximum allowed value for concurrent requests". *)
Definition MaxConcurrentRequests : Z := 10.

(** The clamp of [cfg.maxConcurrent] in [NewClient]. *)
Definition clampMaxConcurrent (maxConcurrent : Z) : Z :=
  let maxConcurrent := if maxConcurrent <? 1 then 1 else maxConcurrent in
  if MaxConcurrentRequests <? maxConcurrent then MaxConcurrentRequests
  else maxConcurrent.

(** [semaphore.Weighted]: its size and the weight currently held. *)
Record Weighted : Type := mkWeighted {
  size : Z;
  cur  : Z
}.

(** [semaphore.NewWeighted(n)] *)
Definition NewWeighted (n : Z) : Weighted := mkWeighted n 0.

(** How a call of [RoundTrip] ended. *)
Inductive ending : Type :=
| Answered          (* the result of the base transport was returned *)
| Cancelled         (* [Acquire] returned [ctx.Err()] *)
| BasePanicked.     (* the base transport panicked *)

(** Where a caller is in [RoundTrip]. *)
Inductive place : Type :=
| Acquiring                     (* in [Acquire], not yet granted *)
| Granted                       (* in [Acquire], weight added, not yet
                                   returned *)
| InFlight                      (* in [t.base.RoundTrip(req)] *)
| Releasing (panicked : bool)   (* the base call is over, the deferred
                                   [Release] has not run yet *)
| Finished (e : ending).

Record System : Type := mkSystem {
  semaphore : Weighted;
  callers   : list place
}.

(** [newRateLimitedTransport(base, maxConcurrent)] with no caller yet. *)
Definition newRateLimitedTransport (maxConcurrent : Z) : System :=
  mkSystem (NewWeighted maxConcurrent) [].

(** The atomic steps. *)
Inductive step : Type :=
| Call                            (* a new caller enters [RoundTrip] *)
| Grant (i : nat)                 (* the weight of caller [i] is added *)
| Enter (i : nat)                 (* [Acquire] of caller [i] returns nil
                                     and the base call starts *)
| Cancel (i : nat)                (* the context of caller [i] is done
                                     while it waits in [Acquire] *)
| GiveBack (i : nat)              (* the context of caller [i] is done
                                     when its weight has just been
                                     added: the weight is put back *)
| Return (i : nat) (panicked : bool)
                                  (* the base call of caller [i] ends *)
| Release (i : nat).              (* the deferred [Release] of caller [i] *)

Fixpoint update (l : list place) (i : nat) (p : place) : list place :=
  match l, i with
  | [], _ => []
  | _ :: r, O => p :: r
  | x :: r, S j => x :: update r j p
  end.

(** One step, when it can be taken. *)
Definition exec (s : System) (a : step) : option System :=
  let sem := semaphore s in
  match a with
  | Call => Some (mkSystem sem (callers s ++ [Acquiring]))
  | Grant i =>
    match nth_error (callers s) i with
    | Some Acquiring =>
      if cur sem + 1 <=? size sem
      then Some (mkSystem (mkWeighted (size sem) (cur sem + 1))
                          (update (callers s) i Granted))
      else None
    | _ => None
    end
  | Enter i =>
    match nth_error (callers s) i with
    | Some Granted => Some (mkSystem sem (update (callers s) i InFlight))
    | _ => None
    end
  | GiveBack i =>
    match nth_error (callers s) i with
    | Some Granted =>
      Some (mkSystem (mkWeighted (size sem) (cur sem - 1))
                     (update (callers s) i (Finished Cancelled)))
    | _ => None
    end
  | Cancel i =>
    match nth_error (callers s) i with
    | Some Acquiring => Some (mkSystem sem (update (callers s) i (Finished Cancelled)))
    | _ => None
    end
  | Return i panicked =>
    match nth_error (callers s) i with
    | Some InFlight => Some (mkSystem sem (update (callers s) i (Releasing panicked)))
    | _ => None
    end
  | Release i =>
    match nth_error (callers s) i with
    | Some (Releasing panicked) =>
      Some (mkSystem (mkWeighted (size sem) (cur sem - 1))
                     (update (callers s) i
                        (Finished (if panicked then BasePanicked else Answered))))
    | _ => None
    end
  end.

(** A schedule, step after step; [None] when a step cannot be taken. *)
Fixpoint run (s : System) (sched : list step) : option System :=
  match sched with
  | [] => Some s
  | a :: rest =>
    match exec s a with
    | Some s' => run s' rest
    | None => None
    end
  end.

Definition isInFlight (p : place) : bool :=
  match p with InFlight => true | _ => false end.

(** A caller holds a permit from the grant to the release (or to the
    moment it gives the permit back). *)
Definition holdsPermit (p : place) : bool :=
  match p with Granted | InFlight | Releasing _ => true | _ => false end.

Definition count (f : place -> bool) (l : list place) : Z :=
  Z.of_nat (List.length (filter f l)).

(** The calls that are in the base transport at this moment. *)
Definition inFlight (s : System) : Z := count isInFlight (callers s).

Definition permitsHeld (s : System) : Z := count holdsPermit (callers s).

Definition b2z (b : bool) : Z := if b then 1 else 0.

(** The semaphore counts the callers between grant and release, and
    never holds more than its size. *)
Definition balanced (N : Z) (s : System) : Prop :=
  size (semaphore s) = N
  /\ cur (semaphore s) = permitsHeld s
  /\ cur (semaphore s) <= N.

Definition isFinished (p : place) : bool :=
  match p with Finished _ => true | _ => false end.

(** The steps that are taken because a context is done. *)
Definition isCancellation (a : step) : bool :=
  match a with Cancel _ | GiveBack _ => true | _ => false end.

(** The steps a caller still has to take to the end of its call when its
    context is never done. *)
Definition stepsLeft (p : place) : nat :=
  match p with
  | Acquiring => 4
  | Granted => 3
  | InFlight => 2
  | Releasing _ => 1
  | Finished _ => 0
  end.

Definition workLeft (l : list place) : nat := list_sum (map stepsLeft l).

(** A caller that has not been let in: it waits in [Acquire] or has
    ended with the cancellation error. *)
Definition keptOut (p : place) : bool :=
  match p with Acquiring | Finished Cancelled => true | _ => false end.

End Limiter.
(** The order of the events of one [RoundTrip] of the retrying transport. *)
Module Protocol.
Import Http Transport.

Definition sameBody (a b : option BodyRef) : bool :=
  match a, b with
  | Some x, Some y => Nat.eqb x y
  | None, None => true
  | _, _ => false
  end.

(** The body of the response of a result, if it has one. *)
Definition bodyOf (r : result) : option BodyRef :=
  match fst r with
  | Some resp => RespBody resp
  | None => None
  end.

(** Whether the event [e] may come after the event [prev] ([None] at the
    start of the call):
    - the base transport is called first, after a wait that the context
      did not cut short, or after a [GetBody] without an error, then
      with the body that [GetBody] returned;
    - [GetBody] is called after a wait that the context did not cut
      short;
    - a body is drained after the call of the base transport that
      returned it, when the result of that call is to be retried;
    - a wait comes after the draining of a body, or after a call of the
      base transport whose result is to be retried and has no body. *)
Definition follows (prev : option Event) (e : Event) : bool :=
  match e, prev with
  | EvRoundTrip _ _ _, None => true
  | EvRoundTrip _ _ _, Some (EvWait _ None) => true
  | EvRoundTrip _ body _, Some (EvGetBody (body', None)) => sameBody body body'
  | EvGetBody _, Some (EvWait _ None) => true
  | EvDrain b, Some (EvRoundTrip _ _ r) => retryable r && sameBody (bodyOf r) (Some b)
  | EvWait _ _, Some (EvDrain _) => true
  | EvWait _ _, Some (EvRoundTrip _ _ r) => retryable r && isNil (bodyOf r)
  | _, _ => false
  end.

Fixpoint ordered (prev : option Event) (tr : list Event) : bool :=
  match tr with
  | [] => true
  | e :: r => follows prev e && ordered (Some e) r
  end.

(** The last event of [tr], [prev] when there is none. *)
Definition lastOf (prev : option Event) (tr : list Event) : option Event :=
  fold_left (fun _ e => Some e) tr prev.

(** The loop may start its pass number [attempt] after the event
    [prev]: the first pass at the start of the call, a later one after a
    wait that the context did not cut short. *)
Definition ready (prev : option Event) (attempt : Z) : Prop :=
  (prev = None /\ attempt <= 0) \/ exists d, prev = Some (EvWait d None).

(** What a call may return after the last event of its trace: the
    result of the base transport as it is, or a nil response with the
    error of the context or of [GetBody]. *)
Definition explains (last : option Event) (r : result) : Prop :=
  match last with
  | Some (EvRoundTrip _ _ r') => r = r'
  | Some (EvWait _ (Some e)) => r = (None, Some e)
  | Some (EvGetBody (_, Some e)) => r = (None, Some e)
  | _ => False
  end.

End Protocol.

(** A server that fails a number of times and then answers: the world is
    the number of failures still to come. *)
Module Flaky.
Import Http Transport.

Definition server : RoundTripper nat :=
  fun _ n =>
    (match n with O => Scripted.ok200 | S _ => Scripted.failure 503 [] end, pred n).

Definition env : Env nat :=
  mkEnv nat server (fun _ n => (0, n)) (fun _ _ n => (None, n)) (fun _ n => n).

Definition get : Request nat := mkRequest MethodGet Ctx.Background None None.

End Flaky.

(** The scripted world with a context that has been cancelled: it is done
    whenever the transport waits. *)
Module Cancelled.
Import Http Transport.

Definition env : Env Scripted.World :=
  mkEnv Scripted.World
    Scripted.server
    (randomBelow Scripted.env)
    (fun _ _ w => (Some "context canceled", w))
    (drainAndClose Scripted.env).

End Cancelled.
(* ===================================================================== *)
(** * errors.go *)
(* ===================================================================== *)

Module Errors.
Import Http.

(** [type APIError struct] *)
Record APIError : Type := mkAPIError {
  StatusCode : Z;
  Status     : string;
  Body       : string;
  Message    : string;
  TraceID    : string
}.

(** The anonymous struct the body is decoded into,
    [struct { Message string `json:"message"`; Error string `json:"error"` }]. *)
Record errResp : Type := mkErrResp {
  jsonMessage : string;
  jsonError   : string
}.

(** [json.Unmarshal(body, &errResp)] on a zero [errResp]: the struct
    after the call, and the error.  [encoding/json] is the standard
    library; the decoder is a parameter of the functions that use it. *)
Definition Unmarshal : Type := string -> errResp * option error.

Definition nonEmpty (s : string) : bool := negb (String.eqb s "").

(** [func newAPIErrorWithBody(resp *http.Response, body []byte) *APIError];
    [resp] is not nil. *)
Definition newAPIErrorWithBody (unmarshal : Unmarshal)
    (resp : Response) (body : string) : APIError :=
  let apiErr :=
    mkAPIError (Http.StatusCode resp) (Http.Status resp) body ""
               (Get (RespHeader resp) "x-trace-id") in
  let withMessage (m : string) :=
    mkAPIError (StatusCode apiErr) (Status apiErr) (Body apiErr) m (TraceID apiErr) in
  if (0 <? Z.of_nat (String.length body)) then
    let (decoded, err) := unmarshal body in
    if isNil err then
      if nonEmpty (jsonMessage decoded) then withMessage (jsonMessage decoded)
      else if nonEmpty (jsonError decoded) then withMessage (jsonError decoded)
      else apiErr
    else apiErr
  else apiErr.

(** A value of the interface type [error]: an [*APIError] or anything
    else. *)
Inductive goError : Type :=
| AnAPIError (e : APIError)
| OtherError (msg : string).

(** [func IsNotFound(err error) bool] and its siblings. *)
Definition statusIs (code : Z) (err : goError) : bool :=
  match err with
  | AnAPIError apiErr => StatusCode apiErr =? code
  | OtherError _ => false
  end.

Definition IsNotFound : goError -> bool := statusIs StatusNotFound.
Definition IsUnauthorized : goError -> bool := statusIs StatusUnauthorized.
Definition IsForbidden : goError -> bool := statusIs StatusForbidden.
Definition IsRateLimited : goError -> bool := statusIs StatusTooManyRequests.
Definition IsBadRequest : goError -> bool := statusIs StatusBadRequest.
Definition IsConflict : goError -> bool := statusIs StatusConflict.

Definition IsServerError (err : goError) : bool :=
  match err with
  | AnAPIError apiErr => (500 <=? StatusCode apiErr) && (StatusCode apiErr <? 600)
  | OtherError _ => false
  end.

(** The message as the specification words it: the [message] field of
    the decoded body if the body decodes and that field is not empty,
    else the [error] field if that is not empty, else nothing. *)
Definition extractedMessage (unmarshal : Unmarshal) (body : string) : string :=
  match unmarshal body with
  | (decoded, None) =>
    if nonEmpty (jsonMessage decoded) then jsonMessage decoded
    else if nonEmpty (jsonError decoded) then jsonError decoded
    else ""
  | (_, Some _) => ""
  end.

(** ** A decoder to run examples with *)

(** It accepts one flat JSON object whose values are strings without
    escapes, with optional blanks between the tokens, and matches the
    keys without regard to case, as [encoding/json] does for struct
    fields; everything else is a syntax error.  It is enough for the
    bodies of [errors_test.go]. *)
Module Flat.

Definition quote : ascii := "034"%char.

Inductive state : Type :=
| BeforeObject
| BeforeKey (first : bool)   (* after the brace ([first]) or a comma *)
| InKey (key : string)
| AfterKey (key : string)
| BeforeValue (key : string)
| InValue (key value : string)
| AfterValue
| AfterObject.

Definition blank (c : ascii) : bool :=
  existsb (Ascii.eqb c) [" "; "009"; "010"; "013"]%char.

Fixpoint lower (s : string) : string :=
  match s with
  | EmptyString => EmptyString
  | String c r => String (to_lower c) (lower r)
  end.

Definition assign (key value : string) (r : errResp) : errResp :=
  if String.eqb (lower key) "message" then mkErrResp value (jsonError r)
  else if String.eqb (lower key) "error" then mkErrResp (jsonMessage r) value
  else r.

Definition plain (c : ascii) : bool :=
  (32 <=? nat_of_ascii c)%nat && negb (Ascii.eqb c "\").

Fixpoint scan (s : string) (q : state) (r : errResp) : option errResp :=
  match s with
  | EmptyString =>
    match q with AfterObject => Some r | _ => None end
  | String c rest =>
    match q with
    | BeforeObject =>
      if blank c then scan rest BeforeObject r
      else if Ascii.eqb c "{" then scan rest (BeforeKey true) r
      else None
    | BeforeKey first =>
      if blank c then scan rest (BeforeKey first) r
      else if Ascii.eqb c quote then scan rest (InKey "") r
      else if first && Ascii.eqb c "}" then scan rest AfterObject r
      else None
    | InKey key =>
      if Ascii.eqb c quote then scan rest (AfterKey key) r
      else if plain c then scan rest (InKey (key ++ String c "")) r
      else None
    | AfterKey key =>
      if blank c then scan rest (AfterKey key) r
      else if Ascii.eqb c ":" then scan rest (BeforeValue key) r
      else None
    | BeforeValue key =>
      if blank c then scan rest (BeforeValue key) r
      else if Ascii.eqb c quote then scan rest (InValue key "") r
      else None
    | InValue key value =>
      if Ascii.eqb c quote then scan rest AfterValue (assign key value r)
      else if plain c then scan rest (InValue key (value ++ String c "")) r
      else None
    | AfterValue =>
      if blank c then scan rest AfterValue r
      else if Ascii.eqb c "," then scan rest (BeforeKey false) r
      else if Ascii.eqb c "}" then scan rest AfterObject r
      else None
    | AfterObject =>
      if blank c then scan rest AfterObject r else None
    end
  end.

Definition unmarshal : Unmarshal :=
  fun body =>
    match scan body BeforeObject (mkErrResp "" "") with
    | Some r => (r, None)
    | None => (mkErrResp "" "", Some "invalid character")
    end.

(** [q s] is [s] between double quotes. *)
Definition q (s : string) : string := String quote (s ++ String quote "").

(** The body [{"message": m}] and its like. *)
Definition object1 (k v : string) : string := "{" ++ q k ++ ": " ++ q v ++ "}".
Definition object2 (k v k' v' : string) : string :=
  "{" ++ q k ++ ": " ++ q v ++ ", " ++ q k' ++ ": " ++ q v' ++ "}".

End Flat.

End Errors.

(* ===================================================================== *)
(** * errors.go: the text of an error; the pointer helpers *)
(* ===================================================================== *)

From Stdlib Require Import DecimalString.

Module ErrorText.
Import Errors.

(** The verb [%d] of [fmt] on an [int]: decimal digits, with a minus sign
    for a negative number. *)
Definition formatInt (z : Z) : string := NilZero.string_of_int (Z.to_int z).

(** [func (e *APIError) Error() string] *)
Definition Error (e : APIError) : string :=
  if nonEmpty (Message e) then
    if nonEmpty (TraceID e) then
      "dash0 api error: " ++ Message e ++ " (status: " ++ formatInt (StatusCode e)
        ++ ", trace_id: " ++ TraceID e ++ ")"
    else
      "dash0 api error: " ++ Message e ++ " (status: " ++ formatInt (StatusCode e) ++ ")"
  else if nonEmpty (TraceID e) then
    "dash0 api error: " ++ Status e ++ " (trace_id: " ++ TraceID e ++ ")"
  else "dash0 api error: " ++ Status e.

End ErrorText.

(** The helpers for pointers.  A pointer [*T] is [option T]; a slice of
    pointers [[]*T] is a list of them. *)
Module Helpers.

(** [func StringValue(p *string) string] *)
Definition StringValue (p : option string) : string :=
  match p with None => "" | Some s => s end.

(** [func Int64Value(p *int64) int64] *)
Definition Int64Value (p : option Z) : Z :=
  match p with None => 0 | Some v => v end.

(** [func BoolValue(p *bool) bool] *)
Definition BoolValue (p : option bool) : bool :=
  match p with None => false | Some v => v end.

(** [result[i] = x]; the index is within the slice where the code
    assigns. *)
Fixpoint assign {A : Type} (result : list A) (i : nat) (x : A) : list A :=
  match result, i with
  | [], _ => []
  | _ :: r, O => x :: r
  | y :: r, S j => y :: assign r j x
  end.

(** [func toPointerSlice[T any](slice []T) []*T]:
    [result := make([]*T, len(slice))], then
    [for i := range slice { result[i] = &slice[i] }]. *)
Definition toPointerSlice {T : Type} (slice : list T) : list (option T) :=
  fold_left (fun result i => assign result i (nth_error slice i))
            (seq 0 (List.length slice))
            (repeat None (List.length slice)).

End Helpers.

(* ===================================================================== *)
(** * The client: the wrappers around the generated bindings *)
(* ===================================================================== *)

(** The generated bindings ([ClientWithResponses] and the types of the
    requests and responses) are not hand-written; they are the parameters
    of this part.  Of a generated response the wrappers read
    [StatusCode()], which is the status of [HTTPResponse], [Body] and
    [JSON200]; the generated parser sets [HTTPResponse] on every response
    it returns. *)
Module Client.
Import Http.

Definition StatusNoContent : Z := 204.

(** The errors a wrapper returns: [fmt.Errorf("...: %w", err)] around the
    error of the binding, an [*APIError], or [fmt.Errorf] of a text. *)
Inductive clientError : Type :=
| Wrapped (text : string) (cause : error)
| Api (e : Errors.APIError)
| Plain (text : string).

(** [err.Error()] *)
Definition errorText (e : clientError) : string :=
  match e with
  | Wrapped text cause => text ++ ": " ++ cause
  | Api e => ErrorText.Error e
  | Plain text => text
  end.

(** The error as the predicates of [errors.go] see it: they assert the
    type [*APIError] on the error itself and do not unwrap. *)
Definition asGoError (e : clientError) : Errors.goError :=
  match e with
  | Api a => Errors.AnAPIError a
  | _ => Errors.OtherError (errorText e)
  end.

Record apiResponse (J : Type) : Type := mkApiResponse {
  Body         : string;
  HTTPResponse : Response;
  JSON200      : option J
}.

Arguments mkApiResponse {J}.
Arguments Body {J}.
Arguments HTTPResponse {J}.
Arguments JSON200 {J}.

(** What a binding returns: [(resp *XxxResponse, err error)]. *)
Definition callResult (J : Type) : Type := (option (apiResponse J) * option error)%type.

(** [CursorPagination]: the cursor, and the other fields ([Limit]). *)
Record CursorPagination (P : Type) : Type := mkCursorPagination {
  Cursor         : option string;
  paginationRest : P
}.

Arguments mkCursorPagination {P}.
Arguments Cursor {P}.
Arguments paginationRest {P}.

(** [GetSpansRequest] and [GetLogRecordsRequest]: the pagination, and
    the other fields. *)
Record pagedRequest (P R : Type) : Type := mkPagedRequest {
  Pagination  : option (CursorPagination P);
  requestRest : R
}.

Arguments mkPagedRequest {P R}.
Arguments Pagination {P R}.
Arguments requestRest {P R}.

Record pageCursors : Type := mkPageCursors {
  After : option string
}.

(** [GetSpansResponse] and [GetLogRecordsResponse]: the items
    ([ResourceSpans], [ResourceLogs]) and the cursors. *)
Record pagedResponse (S : Type) : Type := mkPagedResponse {
  Resources : list S;
  Cursors   : option pageCursors
}.

Arguments mkPagedResponse {S}.
Arguments Resources {S}.
Arguments Cursors {S}.

(** [resp.Cursors != nil && resp.Cursors.After != nil], then
    [resp.Cursors.After]. *)
Definition afterCursor {S : Type} (resp : pagedResponse S) : option string :=
  match Cursors resp with
  | Some c => After c
  | None => None
  end.

Section Wrappers.
Context {W Item Rule Span P R : Type}.
Variable unmarshal : Errors.Unmarshal.
(** The zero value of the other fields of [CursorPagination]. *)
Variable zeroPagination : P.

(** The methods of [*ClientWithResponses] that the wrappers of check
    rules and spans call. *)
Record ClientWithResponses : Type := mkClientWithResponses {
  GetApiAlertingCheckRulesWithResponse :
    Ctx.GoContext -> option string -> W -> callResult (list Item) * W;
  GetApiAlertingCheckRulesOriginOrIdWithResponse :
    Ctx.GoContext -> string -> option string -> W -> callResult Rule * W;
  PostApiAlertingCheckRulesWithResponse :
    Ctx.GoContext -> option string -> Rule -> W -> callResult Rule * W;
  PutApiAlertingCheckRulesOriginOrIdWithResponse :
    Ctx.GoContext -> string -> option string -> Rule -> W -> callResult Rule * W;
  DeleteApiAlertingCheckRulesOriginOrIdWithResponse :
    Ctx.GoContext -> string -> option string -> W -> callResult unit * W;
  PostApiSpansWithResponse :
    Ctx.GoContext -> pagedRequest P R -> W -> callResult (pagedResponse Span) * W
}.

(** The statements after the call that [GetCheckRule],
    [CreateCheckRule], [UpdateCheckRule], the [Import] functions,
    [GetSpans] and [GetLogRecords] share; [text] is the text of the
    error around the error of the binding.  [None] is the panic of
    [resp.StatusCode()] on a nil response. *)
Definition checked {J : Type} (text : string) (r : callResult J)
    : option (option J * option clientError) :=
  match r with
  | (_, Some err) => Some (None, Some (Wrapped text err))
  | (None, None) => None
  | (Some resp, None) =>
    if negb (StatusCode (HTTPResponse resp) =? StatusOK) then
      Some (None,
            Some (Api (Errors.newAPIErrorWithBody unmarshal (HTTPResponse resp)
                         (Body resp))))
    else Some (JSON200 resp, None)
  end.

(** [func (c *client) ListCheckRules(ctx, dataset)
    ([]*PrometheusAlertRuleApiListItem, error)]; a nil slice is the
    empty list. *)
Definition ListCheckRules (c : ClientWithResponses) (ctx : Ctx.GoContext)
    (dataset : option string) (w : W)
    : option (list (option Item) * option clientError) * W :=
  let (r, w') := GetApiAlertingCheckRulesWithResponse c ctx dataset w in
  (match r with
   | (_, Some err) => Some ([], Some (Wrapped "dash0: list check rules failed" err))
   | (None, None) => None
   | (Some resp, None) =>
     if negb (StatusCode (HTTPResponse resp) =? StatusOK) then
       Some ([],
             Some (Api (Errors.newAPIErrorWithBody unmarshal (HTTPResponse resp)
                          (Body resp))))
     else
       match JSON200 resp with
       | None => Some ([], Some (Plain "dash0: unexpected nil response"))
       | Some l => Some (Helpers.toPointerSlice l, None)
       end
   end, w').

(** [func (c *client) GetCheckRule(ctx, originOrID, dataset)] *)
Definition GetCheckRule (c : ClientWithResponses) (ctx : Ctx.GoContext)
    (originOrID : string) (dataset : option string) (w : W)
    : option (option Rule * option clientError) * W :=
  let (r, w') := GetApiAlertingCheckRulesOriginOrIdWithResponse c ctx originOrID dataset w in
  (checked "dash0: get check rule failed" r, w').

(** [func (c *client) CreateCheckRule(ctx, rule, dataset)]; [*rule]
    panics on a nil rule, before the call. *)
Definition CreateCheckRule (c : ClientWithResponses) (ctx : Ctx.GoContext)
    (rule : option Rule) (dataset : option string) (w : W)
    : option (option Rule * option clientError) * W :=
  match rule with
  | None => (None, w)
  | Some rule =>
    let (r, w') := PostApiAlertingCheckRulesWithResponse c ctx dataset rule w in
    (checked "dash0: create check rule failed" r, w')
  end.

(** [func (c *client) UpdateCheckRule(ctx, originOrID, rule, dataset)] *)
Definition UpdateCheckRule (c : ClientWithResponses) (ctx : Ctx.GoContext)
    (originOrID : string) (rule : option Rule) (dataset : option string) (w : W)
    : option (option Rule * option clientError) * W :=
  match rule with
  | None => (None, w)
  | Some rule =>
    let (r, w') :=
      PutApiAlertingCheckRulesOriginOrIdWithResponse c ctx originOrID dataset rule w in
    (checked "dash0: update check rule failed" r, w')
  end.

(** [func (c *client) DeleteCheckRule(ctx, originOrID, dataset) error] *)
Definition DeleteCheckRule (c : ClientWithResponses) (ctx : Ctx.GoContext)
    (originOrID : string) (dataset : option string) (w : W)
    : option (option clientError) * W :=
  let (r, w') :=
    DeleteApiAlertingCheckRulesOriginOrIdWithResponse c ctx originOrID dataset w in
  (match r with
   | (_, Some err) => Some (Some (Wrapped "dash0: delete check rule failed" err))
   | (None, None) => None
   | (Some resp, None) =>
     if negb (StatusCode (HTTPResponse resp) =? StatusOK)
        && negb (StatusCode (HTTPResponse resp) =? StatusNoContent)
     then Some (Some (Api (Errors.newAPIErrorWithBody unmarshal (HTTPResponse resp)
                             (Body resp))))
     else Some None
   end, w').

(** [func (c *client) ListCheckRulesIter(ctx, dataset)
    *Iter[PrometheusAlertRuleApiListItem]]; the error is stored by its
    text. *)
Definition ListCheckRulesIter (c : ClientWithResponses) (ctx : Ctx.GoContext)
    (dataset : option string) (w : W) : option (Iterator.Iter Item W) * W :=
  match ListCheckRules c ctx dataset w with
  | (None, w') => (None, w')
  | (Some (_, Some err), w') =>
    (Some (Iterator.newIterWithError (Some (errorText err))), w')
  | (Some (items, None), w') => (Some (Iterator.newIter items false None None), w')
  end.

(** [func (c *client) GetSpans(ctx, request)], which returns a response and an error;
    [*request] panics on a nil request, before the call. *)
Definition GetSpans (c : ClientWithResponses) (ctx : Ctx.GoContext)
    (request : option (pagedRequest P R)) (w : W)
    : option (option (pagedResponse Span) * option clientError) * W :=
  let ctx := Ctx.withIdempotent ctx in
  match request with
  | None => (None, w)
  | Some request =>
    let (r, w') := PostApiSpansWithResponse c ctx request w in
    (checked "dash0: get spans failed" r, w')
  end.

(** The request of a further page: a copy of the request of the
    caller, with a copy of its pagination (a new one if it has none)
    in which the cursor is replaced. *)
Definition nextRequest (request : pagedRequest P R) (cur : option string)
    : pagedRequest P R :=
  mkPagedRequest
    (Some (mkCursorPagination cur
             (match Pagination request with
              | None => zeroPagination
              | Some p => paginationRest p
              end)))
    (requestRest request).

(** The fetch function that [GetSpansIter] gives to the iterator.  The
    closure reads the request of the caller through the pointer each
    time it runs; here it has the request as it was when the iterator
    was made, which is what it reads as long as the caller does not
    change the request while iterating.  It can panic, which the type of a fetch function does not say: it
    runs in worlds [option W], where [None] is the world after a panic
    ([resp.ResourceSpans] on the nil response that [GetSpans] returns
    without an error for a 200 without [JSON200]); what is computed
    from such a world on is not observed by anyone. *)
Definition spansFetch (c : ClientWithResponses) (ctx : Ctx.GoContext)
    (request : pagedRequest P R) : Iterator.fetchFn Span (option W) :=
  fun cur ow =>
    match ow with
    | None => (([], None, None), None)
    | Some w =>
      match GetSpans c ctx (Some (nextRequest request cur)) w with
      | (Some (_, Some err), w') => (([], None, Some (errorText err)), Some w')
      | (Some (Some resp, None), w') =>
        ((Helpers.toPointerSlice (Resources resp), afterCursor resp, None), Some w')
      | (_, _) => (([], None, None), None)
      end
    end.

(** [func (c *client) GetSpansIter(ctx, request) *Iter[ResourceSpans]];
    [None] is a panic. *)
Definition GetSpansIter (c : ClientWithResponses) (ctx : Ctx.GoContext)
    (request : option (pagedRequest P R)) (w : W)
    : option (Iterator.Iter Span (option W)) * W :=
  match GetSpans c ctx request w, request with
  | (Some (_, Some err), w'), _ =>
    (Some (Iterator.newIterWithError (Some (errorText err))), w')
  | (Some (Some resp, None), w'), Some req =>
    (Some (Iterator.newIter (Helpers.toPointerSlice (Resources resp))
             (notNil (afterCursor resp)) (afterCursor resp)
             (Some (spansFetch c ctx req))), w')
  | (_, w'), _ => (None, w')
  end.

(** The binding answers the requests for the pages after the first,
    one after the other: asked with the marked context and the request
    of the caller in which the cursor is the one of the page before,
    it answers 200 with the items and the cursor of the page. *)
Fixpoint served (c : ClientWithResponses) (ctx : Ctx.GoContext)
    (request : pagedRequest P R) (cur : option string) (w : W)
    (pages : list (list Span * option string)) (w' : W) : Prop :=
  match pages with
  | [] => w' = w
  | (spans, next) :: rest =>
    exists resp body w1,
      PostApiSpansWithResponse c (Ctx.withIdempotent ctx)
        (nextRequest request cur) w = ((Some resp, None), w1)
      /\ StatusCode (HTTPResponse resp) = StatusOK
      /\ JSON200 resp = Some body
      /\ Resources body = spans /\ afterCursor body = next
      /\ served c ctx request next w1 rest w'
  end.

End Wrappers.

(** Pages of items as the iterator holds them: pages of pointers. *)
Definition pointerPages {S : Type} (pages : list (list S * option string))
    : list (list (option S) * option string) :=
  map (fun p => (Helpers.toPointerSlice (fst p), snd p)) pages.

(** The seven predicates of [errors.go]. *)
Definition predicates : list (Errors.goError -> bool) :=
  [Errors.IsNotFound; Errors.IsUnauthorized; Errors.IsForbidden;
   Errors.IsRateLimited; Errors.IsServerError; Errors.IsBadRequest;
   Errors.IsConflict].

(** A binding to run examples with: it answers every request for check
    rules with [rules], and the requests for spans with the answers of
    the world, one after the other, noting the context and the request
    of each. *)
Module Stub.

Record World : Type := mkWorld {
  answers : list (callResult (pagedResponse string));
  asked   : list (Ctx.GoContext * pagedRequest Z unit)
}.

Definition unused {J : Type} : callResult J := (None, Some "not used").

Definition inner (rules : callResult (list string)) (rule : callResult string)
    (deleted : callResult unit)
    : @ClientWithResponses World string string string Z unit :=
  mkClientWithResponses
    (fun _ _ w => (rules, w))
    (fun _ _ _ w => (rule, w))
    (fun _ _ _ w => (rule, w))
    (fun _ _ _ _ w => (rule, w))
    (fun _ _ _ w => (deleted, w))
    (fun ctx req w =>
       (hd unused (answers w), mkWorld (tl (answers w)) (asked w ++ [(ctx, req)]))).

Definition ok {J : Type} (status : Z) (json : option J) : callResult J :=
  (Some (mkApiResponse "" (mkResponse status "" [] None) json), None).

Definition page (spans : list string) (after : option string)
    : callResult (pagedResponse string) :=
  ok 200 (Some (mkPagedResponse spans (Some (mkPageCursors after)))).

End Stub.

End Client.
(* ===================================================================== *)
(** * The client: the options and [NewClient] *)
(* ===================================================================== *)

(** The constants, [clientConfig], [defaultConfig] and the options are
    those declared with [ClientOption]; [NewClient] is the constructor of
    the client.  The generated constructor [NewClientWithResponses] is a
    parameter. *)
Module Config.
Import Http.

(** [const DefaultMaxConcurrentRequests = 3] *)
Definition DefaultMaxConcurrentRequests : Z := 3.

(** [const DefaultTimeout = 30 * time.Second] *)
Definition DefaultTimeout : Z := 30 * Time.Second.

(** [const DefaultUserAgent = "dash0-api-client-go/1.0.0"] *)
Definition DefaultUserAgent : string := "dash0-api-client-go/1.0.0".

(** [const DefaultRetryWaitMin = 500 * time.Millisecond] *)
Definition DefaultRetryWaitMin : Z := 500 * Time.Millisecond.

(** [const DefaultRetryWaitMax = 30 * time.Second] *)
Definition DefaultRetryWaitMax : Z := 30 * Time.Second.

(** [const MaxRetries = 5]: "the maximum allowed number of retries". *)
Definition MaxRetries : Z := 5.

(** The clamp of [cfg.maxRetries] in [NewClient]. *)
Definition clampMaxRetries (maxRetries : Z) : Z :=
  let maxRetries := if maxRetries <? 0 then 0 else maxRetries in
  if MaxRetries <? maxRetries then MaxRetries else maxRetries.

(** The fields of [http.Client]; [T] is what its [Transport] can be. *)
Record HttpClient (T CheckRedirectFn CookieJar : Type) : Type := mkHttpClient {
  Transport'    : T;
  Timeout       : Z;
  CheckRedirect : option CheckRedirectFn;
  Jar           : option CookieJar
}.

Arguments mkHttpClient {T CheckRedirectFn CookieJar}.
Arguments Transport' {T CheckRedirectFn CookieJar}.
Arguments Timeout {T CheckRedirectFn CookieJar}.
Arguments CheckRedirect {T CheckRedirectFn CookieJar}.
Arguments Jar {T CheckRedirectFn CookieJar}.

(** [func (h Header) Set(key, value string)]: the values under the
    canonical form of the key are replaced by the one value.  What is
    stored under another key, also under another spelling of the same
    name, stays. *)
Definition SetHeader (h : Header) (key value : string) : Header :=
  let k := CanonicalMIMEHeaderKey key in
  (k, [value]) :: filter (fun kv => negb (String.eqb (fst kv) k)) h.

Section NewClient.
Context {W Inner CheckRedirectFn CookieJar : Type} (E : Transport.Env W).
(** [newRateLimitedTransport(base, maxConcurrent)] as an
    [http.RoundTripper]; what it does with callers that run at the
    same time is the subject of [Limiter]. *)
Variable newRateLimitedTransport :
  Transport.RoundTripper W -> Z -> Transport.RoundTripper W.

(** [type clientConfig struct] *)
Record clientConfig : Type := mkClientConfig {
  httpClient    : option (HttpClient (option (Transport.RoundTripper W))
                            CheckRedirectFn CookieJar);
  apiUrl        : string;
  authToken     : string;
  maxConcurrent : Z;
  timeout       : Z;
  userAgent     : string;
  maxRetries    : Z;
  retryWaitMin  : Z;
  retryWaitMax  : Z
}.

(** [func defaultConfig() *clientConfig]; the fields not named in the
    literal take their zero values. *)
Definition defaultConfig : clientConfig :=
  mkClientConfig None "" "" DefaultMaxConcurrentRequests DefaultTimeout
    DefaultUserAgent 1 DefaultRetryWaitMin DefaultRetryWaitMax.

(** [type ClientOption], a function on a pointer to the configuration,
    as the change it makes. *)
Definition ClientOption : Type := clientConfig -> clientConfig.

(** [func WithApiUrl(url string) ClientOption] *)
Definition WithApiUrl (url : string) : ClientOption :=
  fun c =>
    mkClientConfig (httpClient c) url (authToken c) (maxConcurrent c) (timeout c)
      (userAgent c) (maxRetries c) (retryWaitMin c) (retryWaitMax c).

(** [func WithAuthToken(authToken string) ClientOption] *)
Definition WithAuthToken (token : string) : ClientOption :=
  fun c =>
    mkClientConfig (httpClient c) (apiUrl c) token (maxConcurrent c) (timeout c)
      (userAgent c) (maxRetries c) (retryWaitMin c) (retryWaitMax c).

(** [func WithHTTPClient(client *http.Client) ClientOption] *)
Definition WithHTTPClient
    (client : option (HttpClient (option (Transport.RoundTripper W))
                        CheckRedirectFn CookieJar)) : ClientOption :=
  fun c =>
    mkClientConfig client (apiUrl c) (authToken c) (maxConcurrent c) (timeout c)
      (userAgent c) (maxRetries c) (retryWaitMin c) (retryWaitMax c).

(** [func WithMaxConcurrentRequests(n int64) ClientOption] *)
Definition WithMaxConcurrentRequests (n : Z) : ClientOption :=
  fun c =>
    mkClientConfig (httpClient c) (apiUrl c) (authToken c) n (timeout c)
      (userAgent c) (maxRetries c) (retryWaitMin c) (retryWaitMax c).

(** [func WithTimeout(d time.Duration) ClientOption] *)
Definition WithTimeout (d : Z) : ClientOption :=
  fun c =>
    mkClientConfig (httpClient c) (apiUrl c) (authToken c) (maxConcurrent c) d
      (userAgent c) (maxRetries c) (retryWaitMin c) (retryWaitMax c).

(** [func WithUserAgent(ua string) ClientOption] *)
Definition WithUserAgent (ua : string) : ClientOption :=
  fun c =>
    mkClientConfig (httpClient c) (apiUrl c) (authToken c) (maxConcurrent c)
      (timeout c) ua (maxRetries c) (retryWaitMin c) (retryWaitMax c).

(** [func WithMaxRetries(n int) ClientOption] *)
Definition WithMaxRetries (n : Z) : ClientOption :=
  fun c =>
    mkClientConfig (httpClient c) (apiUrl c) (authToken c) (maxConcurrent c)
      (timeout c) (userAgent c) n (retryWaitMin c) (retryWaitMax c).

(** [func WithRetryWaitMin(d time.Duration) ClientOption] *)
Definition WithRetryWaitMin (d : Z) : ClientOption :=
  fun c =>
    mkClientConfig (httpClient c) (apiUrl c) (authToken c) (maxConcurrent c)
      (timeout c) (userAgent c) (maxRetries c) d (retryWaitMax c).

(** [func WithRetryWaitMax(d time.Duration) ClientOption] *)
Definition WithRetryWaitMax (d : Z) : ClientOption :=
  fun c =>
    mkClientConfig (httpClient c) (apiUrl c) (authToken c) (maxConcurrent c)
      (timeout c) (userAgent c) (maxRetries c) (retryWaitMin c) d.

(** [cfg.maxConcurrent = n] and [cfg.maxRetries = n] in [NewClient]. *)
Definition set_maxConcurrent (cfg : clientConfig) (n : Z) : clientConfig :=
  WithMaxConcurrentRequests n cfg.

Definition set_maxRetries (cfg : clientConfig) (n : Z) : clientConfig :=
  WithMaxRetries n cfg.

(** [type client struct] *)
Record client : Type := mkClient {
  inner  : option Inner;
  config : clientConfig
}.

(** The request editor of [NewClient], on the header of the request
    (which is not nil for a request made by [http.NewRequest]). *)
Definition authEditor (cfg : clientConfig) (h : Header) : Header * option error :=
  let h := SetHeader h "Authorization" ("Bearer " ++ authToken cfg) in
  let h := SetHeader h "User-Agent" (userAgent cfg) in
  (h, None).

Variable NewClientWithResponses :
  string -> HttpClient (Transport.retryTransport W) CheckRedirectFn CookieJar ->
  (Header -> Header * option error) -> option Inner * option error.

(** The base transport [NewClient] takes: the one of the custom client
    if there is one and it has one, else the default transport. *)
Definition baseTransport (cfg : clientConfig) : Transport.RoundTripper W :=
  match httpClient cfg with
  | Some hc =>
    match Transport' hc with
    | Some t => t
    | None => Transport.DefaultTransport E
    end
  | None => Transport.DefaultTransport E
  end.

(** [cfg := defaultConfig()], then [opt(cfg)] for each option in
    order. *)
Definition configured (opts : list ClientOption) : clientConfig :=
  fold_left (fun cfg opt => opt cfg) opts defaultConfig.

(** [func NewClient(opts ...ClientOption) (Client, error)] *)
Definition NewClient (opts : list ClientOption)
    : option client * option Client.clientError :=
  let cfg := configured opts in
  if String.eqb (apiUrl cfg) "" then
    (None, Some (Client.Plain "dash0: API URL is required (use WithApiUrl)"))
  else if String.eqb (authToken cfg) "" then
    (None, Some (Client.Plain "dash0: auth token is required (use WithAuthToken)"))
  else if negb (String.prefix "auth_" (authToken cfg)) then
    (None, Some (Client.Plain "dash0: auth token must start with 'auth_'"))
  else
    let cfg := set_maxConcurrent cfg (Limiter.clampMaxConcurrent (maxConcurrent cfg)) in
    let cfg := set_maxRetries cfg (clampMaxRetries (maxRetries cfg)) in
    let transport := baseTransport cfg in
    let rateLimitedTransport := newRateLimitedTransport transport (maxConcurrent cfg) in
    let retryingTransport :=
      Transport.newRetryTransport E (Some rateLimitedTransport) (maxRetries cfg)
        (retryWaitMin cfg) (retryWaitMax cfg) in
    let httpClient' :=
      mkHttpClient retryingTransport (timeout cfg)
        (match httpClient cfg with Some hc => CheckRedirect hc | None => None end)
        (match httpClient cfg with Some hc => Jar hc | None => None end) in
    match NewClientWithResponses (apiUrl cfg) httpClient' (authEditor cfg) with
    | (_, Some err) =>
      (None, Some (Client.Wrapped "dash0: failed to create client" err))
    | (inner, None) => (Some (mkClient inner cfg), None)
    end.

End NewClient.

(** A client to run examples with: the limiting transport is passed
    through, and the generated constructor returns the URL it was
    given. *)
Module Stub.

Definition Cfg : Type := @clientConfig Scripted.World unit unit.

Definition NewClient (opts : list (Cfg -> Cfg))
    : option (@client Scripted.World string unit unit) * option Client.clientError :=
  Config.NewClient Scripted.env (fun base _ => base)
    (fun url _ _ => (Some url, None)) opts.

End Stub.

End Config.
(* ===================================================================== *)
(** * Properties of the 64-bit arithmetic *)
(* ===================================================================== *)

Module Int64Facts.

Lemma wrap_in_range z : Int64.in_range z -> Int64.wrap z = z.
Proof.
  unfold Int64.in_range, Int64.wrap, Int64.MinInt64, Int64.MaxInt64.
  intros H. rewrite Z.mod_small; lia.
Qed.

Lemma wrap_range z : Int64.in_range (Int64.wrap z).
Proof.
  unfold Int64.in_range, Int64.wrap, Int64.MinInt64, Int64.MaxInt64.
  pose proof (Z.mod_pos_bound (z + 2 ^ 63) (2 ^ 64) ltac:(lia)).
  change (2 ^ 64) with (2 * 2 ^ 63) in *. lia.
Qed.

(** [i++] below the largest value. *)
Lemma add1_in_range i :
  Int64.MinInt64 <= i < Int64.MaxInt64 -> Int64.add i 1 = i + 1.
Proof.
  intros H. unfold Int64.add. apply wrap_in_range.
  unfold Int64.in_range. lia.
Qed.

(** [i++] at the largest value wraps to the smallest. *)
Lemma add1_wraps : Int64.add Int64.MaxInt64 1 = Int64.MinInt64.
Proof. reflexivity. Qed.

End Int64Facts.

(* ===================================================================== *)
(** * Properties of the iterator *)
(* ===================================================================== *)

Module IteratorFacts.
Import Iterator Int64Facts.

Section Invariant.
Context {T W : Type}.
Implicit Types (it : Iter T W) (w : W) (last : option bool).

Lemma len_nonneg {A : Type} (l : list A) : 0 <= len l.
Proof. unfold len. lia. Qed.

Lemma index_in_range (s : list (option T)) (i : Z) :
  0 <= i < len s -> exists p, index s i = Some p.
Proof.
  intros Hi. unfold index.
  replace (0 <=? i) with true by (symmetry; apply Z.leb_le; lia).
  replace (i <? len s) with true by (symmetry; apply Z.ltb_lt; lia).
  simpl. destruct (nth_error s (Z.to_nat i)) as [p|] eqn:E.
  - now exists p.
  - apply nth_error_None in E. unfold len in Hi. lia.
Qed.

Lemma index_negative (s : list (option T)) (i : Z) :
  i < 0 -> index s i = None.
Proof.
  intros Hi. unfold index.
  now replace (0 <=? i) with false by (symmetry; apply Z.leb_gt; lia).
Qed.

Lemma position_range last it :
  position_ok last it -> err it = None -> -1 <= idx it <= Int64.MaxInt64.
Proof.
  intros H He. destruct (H He) as [Hmax Hpos].
  split; [|exact Hmax].
  destruct last as [[|]|]; try lia.
  pose proof (len_nonneg (items it)).
  destruct (negb (hasMore it) || isNil (fetch it)); lia.
Qed.

(** When the position marker has reached the largest [int], the next
    increment wraps to a negative index and the slice access panics. *)
Lemma Next_panics_at_MaxInt64 it w :
  err it = None -> idx it = Int64.MaxInt64 -> Next it w = None.
Proof.
  intros He Hi. unfold Next. rewrite He, Hi. simpl.
  rewrite add1_wraps.
  pose proof (len_nonneg (items it)) as Hl.
  now replace (Int64.MinInt64 <? len (items it)) with true
    by (symmetry; apply Z.ltb_lt; unfold Int64.MinInt64; lia).
Qed.

(** What [Next] does below that point, with the increment written as
    a sum. *)
Lemma Next_below_MaxInt64 it w :
  err it = None -> -1 <= idx it < Int64.MaxInt64 ->
  Next it w =
    let it1 := set_idx it (idx it + 1) in
    if idx it1 <? len (items it1) then
      match index (items it1) (idx it1) with
      | Some p => Some (true, set_cur it1 p, w)
      | None => None
      end
    else if negb (hasMore it1) || isNil (fetch it1) then Some (false, it1, w)
    else
      match fetch it1 with
      | None => Some (false, it1, w)
      | Some f =>
        let '(its, nextCursor, e, w') := f (cursor it1) w in
        if notNil e then Some (false, set_err it1 e, w')
        else
          let it2 := set_page it1 its nextCursor in
          if 0 <? len (items it2) then
            match index (items it2) 0 with
            | Some p => Some (true, set_cur it2 p, w')
            | None => None
            end
          else Some (false, it2, w')
      end.
Proof.
  intros He Hi. unfold Next. rewrite He. simpl.
  rewrite add1_in_range by (unfold Int64.MinInt64; lia).
  reflexivity.
Qed.

(** The steps of [Next] from a state that satisfies [position_ok],
    below the wrap-around. *)
Lemma Next_steps last it w :
  position_ok last it ->
  err it = None -> idx it < Int64.MaxInt64 ->
  exists b it' w',
    Next it w = Some (b, it', w')
    /\ position_ok (Some b) it'
    /\ idx it' <= Z.max (idx it + 1) 0.
Proof.
  intros Hinv He Hmax.
  pose proof (position_range _ _ Hinv He) as [Hlow _].
  rewrite (Next_below_MaxInt64 it w He) by lia. simpl.
  destruct (idx it + 1 <? len (items it)) eqn:Hlt.
  - apply Z.ltb_lt in Hlt.
    destruct (index_in_range (items it) (idx it + 1)) as [p Hp]; [lia|].
    rewrite Hp. eexists _, _, _. split; [reflexivity|]. split.
    + intros _. simpl. lia.
    + simpl. lia.
  - apply Z.ltb_ge in Hlt.
    destruct (negb (hasMore it) || isNil (fetch it)) eqn:Hstop.
    + eexists _, _, _. split; [reflexivity|]. split.
      * intros _. simpl. rewrite Hstop. lia.
      * simpl. lia.
    + destruct (fetch it) as [f|] eqn:Hf.
      2:{ rewrite orb_true_r in Hstop. discriminate. }
      destruct (f (cursor it) w) as [[[its next] e] w'] eqn:Hfetch.
      destruct e as [e|]; simpl.
      { eexists _, _, _. split; [reflexivity|]. split.
        - intros Habs. simpl in Habs. congruence.
        - simpl. lia. }
      destruct (0 <? len its) eqn:Hne.
      { apply Z.ltb_lt in Hne.
        destruct (index_in_range its 0) as [p Hp]; [lia|].
        rewrite Hp. eexists _, _, _. split; [reflexivity|]. split.
        - intros _. simpl. unfold Int64.MaxInt64. lia.
        - simpl. lia. }
      { apply Z.ltb_ge in Hne. pose proof (len_nonneg its).
        eexists _, _, _. split; [reflexivity|]. split.
        - intros _. simpl. rewrite Hf. simpl.
          unfold Int64.MaxInt64.
          destruct (negb (notNil next) || false); lia.
        - simpl. lia. }
Qed.

(** [Next] keeps [position_ok] whenever it returns. *)
Lemma Next_position last it w b it' w' :
  position_ok last it ->
  Next it w = Some (b, it', w') ->
  position_ok (Some b) it' /\ idx it' <= Z.max (idx it + 1) 0.
Proof.
  intros Hinv Hn.
  destruct (err it) as [e|] eqn:He.
  - unfold Next in Hn. rewrite He in Hn. simpl in Hn.
    inversion Hn; subst b it' w'. split; [|lia].
    intros Habs. congruence.
  - pose proof (position_range _ _ Hinv He) as [_ Hup].
    destruct (Z.eq_dec (idx it) Int64.MaxInt64) as [Heq|Hne].
    + rewrite (Next_panics_at_MaxInt64 it w He Heq) in Hn. discriminate.
    + destruct (Next_steps last it w Hinv He ltac:(lia))
        as (b0 & it0 & w0 & Hn0 & Hp & Hb).
      rewrite Hn in Hn0. inversion Hn0; subst b0 it0 w0. now split.
Qed.

Lemma newIter_position its more c f :
  position_ok None (newIter (T:=T) (W:=W) its more c f).
Proof. intros _. simpl. unfold Int64.MaxInt64. lia. Qed.

Lemma newIterWithError_position e :
  position_ok None (newIterWithError (T:=T) (W:=W) e).
Proof. intros _. simpl. unfold Int64.MaxInt64. lia. Qed.

Lemma calls_position n : forall it w last it' w',
  position_ok None it ->
  calls n it w = Some (last, it', w') ->
  position_ok last it' /\ idx it' <= Z.max (idx it) (-1) + Z.of_nat n.
Proof.
  induction n as [|n IH]; intros it w last it' w' H0 Hc.
  - simpl in Hc. inversion Hc; subst last it' w'. split; [exact H0 | lia].
  - simpl in Hc.
    destruct (calls n it w) as [[[last1 it1] w1]|] eqn:Hc1; [|discriminate].
    destruct (Next it1 w1) as [[[b it2] w2]|] eqn:Hn; [|discriminate].
    inversion Hc; subst last it' w'.
    destruct (IH it w last1 it1 w1 H0 Hc1) as [Hp1 Hb1].
    destruct (Next_position last1 it1 w1 b it2 w2 Hp1 Hn) as [Hp2 Hb2].
    split; [exact Hp2 | lia].
Qed.

(** A sequence of [Next] calls on a constructed iterator does not
    panic, as long as it is no longer than the largest [int]. *)
Lemma calls_newIter_total (its : list (option T)) more c
    (f : option (fetchFn T W)) n w :
  Z.of_nat n <= Int64.MaxInt64 ->
  exists r, calls n (newIter its more c f) w = Some r.
Proof.
  induction n as [|n IH]; intros Hn.
  - eexists. reflexivity.
  - destruct IH as [[[last it] w'] Hc]; [lia|].
    destruct (calls_position n _ w last it w' (newIter_position its more c f) Hc)
      as [Hp Hb].
    change (idx (newIter its more c f)) with (-1) in Hb.
    simpl. rewrite Hc.
    destruct (err it) as [e|] eqn:He.
    + unfold Next. rewrite He. simpl. eexists. reflexivity.
    + destruct (Next_steps last it w' Hp He ltac:(lia)) as (b & it' & w'' & Hnx & _).
      rewrite Hnx. eexists. reflexivity.
Qed.

(** A call that returns false leaves [cur] as it was: nothing in [Next]
    ever sets it back to nil. *)
Lemma Next_false_keeps_cur it w it' w' :
  Next it w = Some (false, it', w') -> cur it' = cur it.
Proof.
  unfold Next. intros H.
  destruct (notNil (err it)).
  - now inversion H.
  - simpl in H.
    destruct (Int64.add (idx it) 1 <? len (items it)).
    + destruct (index (items it) (Int64.add (idx it) 1)); discriminate.
    + destruct (negb (hasMore it) || isNil (fetch it)).
      * now inversion H.
      * destruct (fetch it) as [f|]; [|now inversion H].
        destruct (f (cursor it) w) as [[[its next] e] w0].
        destruct (notNil e); [now inversion H|].
        simpl in H. destruct (0 <? len its).
        { destruct (index its 0); discriminate. }
        { now inversion H. }
Qed.

(** Before the first call, [Current] is nil for both constructors. *)
Lemma Current_newIter its more c f :
  Current (newIter (T:=T) (W:=W) its more c f) = None.
Proof. reflexivity. Qed.

Lemma Current_newIterWithError e :
  Current (newIterWithError (T:=T) (W:=W) e) = None.
Proof. reflexivity. Qed.

(** An iterator in the middle of its only page yields the rest of the
    page, in order, and stops without an error and without a fetch. *)
Lemma collect_rest (post : list (option T)) : forall pre it w acc,
  items it = pre ++ post -> idx it = len pre - 1 ->
  len (pre ++ post) <= Int64.MaxInt64 ->
  err it = None -> hasMore it = false ->
  exists it',
    collect (S (List.length post)) it w acc = Some (acc ++ post, it', w)
    /\ Err it' = None.
Proof.
  induction post as [|x post IH]; intros pre it w acc Hit Hidx Hfit Herr Hmore.
  - pose proof (len_nonneg pre) as Hpre. rewrite app_nil_r in Hfit.
    cbn [collect List.length].
    rewrite (Next_below_MaxInt64 it w Herr) by lia. simpl.
    rewrite Hit, Hidx, app_nil_r.
    replace (len pre - 1 + 1 <? len pre) with false by (symmetry; apply Z.ltb_ge; lia).
    rewrite Hmore. simpl. eexists. now rewrite app_nil_r.
  - assert (Hlen : len (pre ++ x :: post) = len pre + 1 + len post).
    { unfold len. rewrite length_app. simpl. lia. }
    pose proof (len_nonneg pre) as Hpre. pose proof (len_nonneg post) as Hpost.
    cbn [collect List.length].
    rewrite (Next_below_MaxInt64 it w Herr) by lia. simpl.
    rewrite Hit, Hidx.
    replace (len pre - 1 + 1 <? len (pre ++ x :: post)) with true
      by (symmetry; apply Z.ltb_lt; lia).
    unfold index.
    replace (0 <=? len pre - 1 + 1) with true by (symmetry; apply Z.leb_le; lia).
    replace (len pre - 1 + 1 <? len (pre ++ x :: post)) with true
      by (symmetry; apply Z.ltb_lt; lia).
    simpl. replace (Z.to_nat (len pre - 1 + 1)) with (List.length pre)
      by (unfold len; lia).
    rewrite nth_error_app2 by lia. rewrite Nat.sub_diag. simpl.
    destruct (IH (pre ++ [x]) (set_cur (set_idx it (len pre - 1 + 1)) x) w (acc ++ [x]))
      as (it' & Hc & He).
    + simpl. rewrite Hit. now rewrite <- app_assoc.
    + simpl. unfold len. rewrite length_app. simpl. lia.
    + rewrite <- app_assoc. exact Hfit.
    + simpl. exact Herr.
    + simpl. exact Hmore.
    + exists it'. split; [|exact He].
      cbn [collect] in Hc. rewrite Hc. now rewrite <- app_assoc.
Qed.

(** With no further page, iterating yields exactly the initial items,
    in order, then stops; no error is stored. *)
Lemma collect_single_page (its : list (option T)) c
    (f : option (fetchFn T W)) w :
  len its <= Int64.MaxInt64 ->
  exists it',
    collect (S (List.length its)) (newIter its false c f) w [] = Some (its, it', w)
    /\ Err it' = None.
Proof.
  intros Hfit.
  destruct (collect_rest its [] (newIter its false c f) w [])
    as (it' & Hc & He); try reflexivity; [exact Hfit|].
  now exists it'.
Qed.

End Invariant.

(** C1 (evaluation at the failing input).  One item, no further page:
    the first [Next] returns true, the second returns false and leaves
    the iterator exhausted, yet [Current] still returns the item "a"
    instead of nil.  The same happens when the second call stores a fetch
    error. *)
Theorem Current_stale_after_false :
  (exists it w,
     calls 2 (newIter one_item false None None) 0%nat = Some (Some false, it, w)
     /\ terminal (Some false) it = true
     /\ Err it = None
     /\ Current it = Some "a")
  /\
  (exists it w,
     calls 2 (newIter one_item true (Some "cursor1") (Some fetch_failing)) 0%nat
       = Some (Some false, it, w)
     /\ Err it = Some "fetch failed"
     /\ Current it = Some "a").
Proof.
  split; eexists _, _; repeat split; reflexivity.
Qed.

(** C4 (counterexample).  Page ["a"], then a fetch that returns an empty
    page together with a new cursor: after the second [Next] no error is
    stored and a further fetch is possible, so the state is not terminal,
    but [idx = 0 = len(items)], which breaks [idx < len(items)]. *)
Lemma idx_bound_fails_after_empty_page :
  exists it w,
    calls 2 (newIter one_item true (Some "cursor1") (Some fetch_empty_more)) 0%nat
      = Some (Some false, it, w)
    /\ terminal (Some false) it = false
    /\ ~ (-1 <= idx it < len (items it)).
Proof.
  eexists _, _. split; [reflexivity|]. split; [reflexivity|].
  simpl. unfold len. simpl. lia.
Qed.

(** C4 (amended).  For an iterator made by [newIter] and any number of
    [Next] calls, before a terminal state the position marker satisfies
    [-1 <= idx <= len(items)]; the strict bound [idx < len(items)] holds
    unless the most recent call returned false, and in that case (an
    empty page was fetched and more may follow) [idx = 0 = len(items)]. *)
Theorem idx_bounds_before_terminal {T W : Type}
    (its : list (option T)) (more : bool) (c : option string)
    (f : option (fetchFn T W)) (n : nat) (w : W)
    (last : option bool) (it : Iter T W) (w' : W) :
  calls n (newIter its more c f) w = Some (last, it, w') ->
  terminal last it = false ->
  -1 <= idx it <= len (items it)
  /\ (last <> Some false -> idx it < len (items it))
  /\ (last = Some false -> idx it = 0 /\ len (items it) = 0).
Proof.
  intros Hc Hterm.
  destruct (calls_position n _ w last it w' (newIter_position its more c f) Hc)
    as [Hp _].
  unfold terminal in Hterm. apply orb_false_iff in Hterm.
  destruct Hterm as [Herr Hex].
  assert (He : err it = None).
  { destruct (err it); [discriminate | reflexivity]. }
  destruct (Hp He) as [_ Hpos]. pose proof (len_nonneg (items it)) as Hlen.
  destruct last as [[|]|].
  - split; [lia|]. split; [intros _; lia | intros Habs; discriminate].
  - rewrite Hex in Hpos. split; [lia|].
    split; [intros Habs; congruence | intros _; lia].
  - split; [lia|]. split; [intros _; lia | intros Habs; discriminate].
Qed.

Lemma idx_bounds_before_terminal_witness :
  exists it w,
    calls 2 (newIter [Some "a"; Some "b"] true (Some "cursor1")
               (Some fetch_two_pages)) 0%nat = Some (Some true, it, w)
    /\ -1 <= idx it <= len (items it)
    /\ (Some true <> Some false -> idx it < len (items it))
    /\ (Some true = Some false -> idx it = 0 /\ len (items it) = 0).
Proof.
  eexists _, _. split; [reflexivity|].
  eapply (idx_bounds_before_terminal [Some "a"; Some "b"] true (Some "cursor1")
            (Some fetch_two_pages) 2 0%nat (Some true));
    reflexivity.
Defined.

End IteratorFacts.

(* ===================================================================== *)
(** * The iterator over several pages *)
(* ===================================================================== *)

Module PagingFacts.
Import Iterator Paging Int64Facts.

Lemma len_app {A : Type} (l l' : list A) : len (l ++ l') = len l + len l'.
Proof. unfold len. rewrite length_app. lia. Qed.

Lemma len_ge_0 {A : Type} (l : list A) : 0 <= len l.
Proof. unfold len. lia. Qed.

Section Walk.
Context {T W : Type}.
Implicit Types (it : Iter T W) (w : W) (pre post acc : list (option T)).

Lemma Next_unfolded it w :
  err it = None -> -1 <= idx it < Int64.MaxInt64 ->
  Next it w =
    if idx it + 1 <? len (items it) then
      match index (items it) (idx it + 1) with
      | Some p => Some (true, set_cur (set_idx it (idx it + 1)) p, w)
      | None => None
      end
    else if negb (hasMore it) || isNil (fetch it)
    then Some (false, set_idx it (idx it + 1), w)
    else
      match fetch it with
      | None => Some (false, set_idx it (idx it + 1), w)
      | Some f =>
        let '(its, nextCursor, e, w') := f (cursor it) w in
        if notNil e then Some (false, set_err (set_idx it (idx it + 1)) e, w')
        else
          if 0 <? len its then
            match index its 0 with
            | Some p =>
              Some (true, set_cur (set_page (set_idx it (idx it + 1)) its nextCursor) p, w')
            | None => None
            end
          else Some (false, set_page (set_idx it (idx it + 1)) its nextCursor, w')
      end.
Proof.
  intros He Hi. unfold Next. rewrite He. simpl.
  rewrite add1_in_range by (unfold Int64.MinInt64; lia).
  reflexivity.
Qed.

Lemma index_middle pre (x : option T) post :
  index (pre ++ x :: post) (len pre) = Some x.
Proof.
  unfold index. pose proof (len_ge_0 pre) as Hp. pose proof (len_ge_0 post) as Hq.
  replace (0 <=? len pre) with true by (symmetry; apply Z.leb_le; lia).
  replace (len pre <? len (pre ++ x :: post)) with true.
  2:{ symmetry. apply Z.ltb_lt. rewrite len_app. unfold len at 3. simpl List.length. lia. }
  simpl. replace (Z.to_nat (len pre)) with (List.length pre) by (unfold len; lia).
  rewrite nth_error_app2 by lia. now rewrite Nat.sub_diag.
Qed.

Lemma inPage_bounds it pre post :
  inPage it pre post -> -1 <= idx it < Int64.MaxInt64 /\ idx it + 1 = len pre.
Proof.
  intros (Hit & Hidx & _ & Hfit). rewrite len_app in Hfit.
  pose proof (len_ge_0 pre). pose proof (len_ge_0 post). lia.
Qed.

(** Inside a page [Next] yields the next item and touches nothing
    else. *)
Lemma Next_in_page it pre x post w :
  inPage it pre (x :: post) ->
  Next it w = Some (true, set_cur (set_idx it (len pre)) x, w)
  /\ inPage (set_cur (set_idx it (len pre)) x) (pre ++ [x]) post.
Proof.
  intros Hin. destruct (inPage_bounds _ _ _ Hin) as [Hb Hnext].
  destruct Hin as (Hit & Hidx & He & Hfit).
  rewrite (Next_unfolded it w He Hb). rewrite Hnext, Hit.
  replace (len pre <? len (pre ++ x :: post)) with true.
  2:{ symmetry. apply Z.ltb_lt. rewrite len_app. unfold len at 3. simpl List.length.
      pose proof (len_ge_0 post). lia. }
  rewrite index_middle. split; [reflexivity|].
  unfold inPage. simpl. rewrite <- app_assoc. simpl.
  repeat split; try assumption.
  rewrite len_app. change (len [x]) with 1. lia.
Qed.

Lemma inPage_atEnd it pre : inPage it pre [] -> atEnd it.
Proof.
  intros Hin. destruct (inPage_bounds _ _ _ Hin) as [Hb Hnext].
  destruct Hin as (Hit & Hidx & He & Hfit).
  unfold atEnd. rewrite Hit, app_nil_r. repeat split; try assumption; lia.
Qed.

(** At the end of a page with nothing more to fetch [Next] returns
    false and calls nothing. *)
Lemma Next_at_end it w :
  atEnd it -> negb (hasMore it) || isNil (fetch it) = true ->
  Next it w = Some (false, set_idx it (idx it + 1), w).
Proof.
  intros (He & Hlen & Hb) Hstop.
  rewrite (Next_unfolded it w He Hb).
  replace (idx it + 1 <? len (items it)) with false by (symmetry; apply Z.ltb_ge; lia).
  now rewrite Hstop.
Qed.

(** At the end of a page with more to fetch [Next] calls the fetch
    function with the stored cursor; what follows depends on its
    answer. *)
Lemma Next_fetches it w f its next e w' :
  atEnd it -> hasMore it = true -> fetch it = Some f ->
  f (cursor it) w = ((its, next, e), w') ->
  Next it w =
    match e with
    | Some _ => Some (false, set_err (set_idx it (idx it + 1)) e, w')
    | None =>
      match its with
      | x :: _ =>
        Some (true, set_cur (set_page (set_idx it (idx it + 1)) its next) x, w')
      | [] => Some (false, set_page (set_idx it (idx it + 1)) its next, w')
      end
    end.
Proof.
  intros (He & Hlen & Hb) Hmore Hf Hfw.
  rewrite (Next_unfolded it w He Hb).
  replace (idx it + 1 <? len (items it)) with false by (symmetry; apply Z.ltb_ge; lia).
  rewrite Hmore, Hf. simpl. rewrite Hfw.
  destruct e as [e|]; [reflexivity|]. simpl.
  destruct its as [|x its']; [reflexivity|].
  replace (0 <? len (x :: its')) with true.
  2:{ symmetry. apply Z.ltb_lt. unfold len. simpl. lia. }
  reflexivity.
Qed.

(** Once an error is stored, [Next] returns false and changes
    nothing, however often it is called. *)
Lemma calls_after_error it w e n :
  err it = Some e -> calls (S n) it w = Some (Some false, it, w).
Proof.
  intros He. induction n as [|n IH].
  - simpl. unfold Next. now rewrite He.
  - change (calls (S (S n)) it w) with
      (match calls (S n) it w with
       | Some (_, it', w') =>
         match Next it' w' with
         | Some (b, it'', w'') => Some (Some b, it'', w'')
         | None => None
         end
       | None => None
       end).
    rewrite IH. unfold Next. now rewrite He.
Qed.

(** More fuel does not change what the loop of a caller returns. *)
Lemma collect_more_fuel fuel : forall extra it w acc r,
  collect fuel it w acc = Some r -> collect (fuel + extra) it w acc = Some r.
Proof.
  induction fuel as [|fuel IH]; intros extra it w acc r H; [discriminate|].
  simpl in *. destruct (Next it w) as [[[b it'] w']|]; [|discriminate].
  destruct b; [now apply IH | exact H].
Qed.

(** The loop walks to the end of the page the iterator stands in. *)
Lemma collect_in_page post : forall it pre w acc fuel,
  inPage it pre post ->
  exists it',
    collect (List.length post + fuel) it w acc = collect fuel it' w (acc ++ post)
    /\ inPage it' (pre ++ post) []
    /\ hasMore it' = hasMore it /\ fetch it' = fetch it /\ cursor it' = cursor it.
Proof.
  induction post as [|x post IH]; intros it pre w acc fuel Hin.
  - exists it. rewrite !app_nil_r.
    split; [reflexivity|]. split; [exact Hin|]. now repeat split.
  - destruct (Next_in_page it pre x post w Hin) as [Hn Hin1].
    destruct (IH _ (pre ++ [x]) w (acc ++ [x]) fuel Hin1)
      as (it' & Hc & Hin' & Hm & Hf & Hcu).
    exists it'. cbn [List.length Nat.add collect]. rewrite Hn.
    unfold Current at 1. cbn [cur set_cur].
    rewrite Hc. rewrite <- !app_assoc. simpl.
    rewrite <- app_assoc in Hin'. simpl in Hin'.
    split; [reflexivity|]. split; [exact Hin'|].
    split; [exact Hm|]. split; [exact Hf | exact Hcu].
Qed.

End Walk.

(** ** Walking through the pages a fetch function returns *)

Section Pages.
Context {T W : Type} (f : fetchFn T W).
Implicit Types (it : Iter T W) (w : W)
  (pages : list (list (option T) * option string)).

(** From the end of a page the loop walks through all the pages that
    have items and a cursor, asking for each with the cursor that came
    with the one before. *)
Lemma collect_through pages : forall it w acc fuel w',
  atEnd it -> fetch it = Some f ->
  (pages <> [] -> hasMore it = true) ->
  walk f (cursor it) w pages w' ->
  continuing pages ->
  exists it',
    collect (List.length (itemsOf pages) + fuel) it w acc
    = collect fuel it' w' (acc ++ itemsOf pages)
    /\ atEnd it' /\ fetch it' = Some f
    /\ cursor it' = lastCursor (cursor it) pages
    /\ hasMore it' = match pages with [] => hasMore it | _ => true end.
Proof.
  induction pages as [|[its next] pages IH]; intros it w acc fuel w' Hend Hf Hmore Hwalk Hcont.
  - exists it. simpl in Hwalk. subst w'. simpl. rewrite !app_nil_r.
    split; [reflexivity|]. split; [exact Hend|]. split; [exact Hf|].
    split; reflexivity.
  - inversion Hcont as [|p ps (Hne & Hnext & Hfit) Hcont']; subst p ps.
    simpl in Hne, Hnext, Hfit.
    destruct its as [|x its']; [congruence|].
    destruct next as [c'|]; [|congruence].
    specialize (Hmore ltac:(discriminate)).
    simpl in Hwalk. destruct Hwalk as (w1 & Hfw & Hwalk).
    pose proof (Next_fetches it w f _ _ _ _ Hend Hmore Hf Hfw) as Hn.
    cbv iota in Hn.
    set (it1 := set_cur (set_page (set_idx it (idx it + 1)) (x :: its') (Some c')) x) in *.
    assert (Hin1 : inPage it1 [x] its').
    { unfold inPage, it1. simpl. destruct Hend as (He & _).
      repeat split; try assumption. }
    destruct (collect_in_page its' it1 [x] w1
                (acc ++ [x]) (List.length (itemsOf pages) + fuel) Hin1)
      as (it2 & Hc2 & Hin2 & Hm2 & Hf2 & Hcu2).
    destruct (IH it2 w1 ((acc ++ [x]) ++ its') fuel w')
      as (it3 & Hc3 & Hend3 & Hf3 & Hcu3 & Hm3).
    + now apply (inPage_atEnd it2 ([x] ++ its')).
    + rewrite Hf2. unfold it1. simpl. exact Hf.
    + intros _. rewrite Hm2. reflexivity.
    + rewrite Hcu2. exact Hwalk.
    + exact Hcont'.
    + exists it3.
      replace (List.length (itemsOf ((x :: its', Some c') :: pages)) + fuel)%nat
        with (S (List.length its' + (List.length (itemsOf pages) + fuel)))%nat.
      2:{ unfold itemsOf. simpl. rewrite length_app. lia. }
      cbn [collect]. rewrite Hn.
      unfold Current at 1. change (cur it1) with x.
      rewrite Hc2, Hc3.
      split.
      { unfold itemsOf. simpl. rewrite <- !app_assoc. reflexivity. }
      split; [exact Hend3|]. split; [exact Hf3|]. split.
      { rewrite Hcu3, Hcu2. reflexivity. }
      destruct pages; [rewrite Hm3, Hm2; reflexivity | exact Hm3].
Qed.

(** From the end of a page, through the pages with a cursor and the
    last page, which has none. *)
Lemma collect_from_end pages : forall it w acc w1 lastp w2,
  atEnd it -> fetch it = Some f -> hasMore it = true ->
  walk f (cursor it) w pages w1 ->
  f (lastCursor (cursor it) pages) w1 = ((lastp, None, None), w2) ->
  continuing pages -> len lastp <= Int64.MaxInt64 ->
  exists it',
    collect (List.length (itemsOf pages) + S (List.length lastp)) it w acc
    = Some (acc ++ itemsOf pages ++ lastp, it', w2)
    /\ Err it' = None /\ hasMore it' = false.
Proof.
  intros it w acc w1 lastp w2 Hend Hf Hmore Hwalk Hlast Hcont Hfit.
  destruct (collect_through pages it w acc (S (List.length lastp)) w1
              Hend Hf (fun _ => Hmore) Hwalk Hcont)
    as (it2 & Hc2 & Hend2 & Hf2 & Hcu2 & Hm2).
  assert (Hm2' : hasMore it2 = true).
  { rewrite Hm2. destruct pages; [exact Hmore | reflexivity]. }
  rewrite Hc2. rewrite <- Hcu2 in Hlast.
  pose proof (Next_fetches it2 w1 f _ _ _ _ Hend2 Hm2' Hf2 Hlast) as Hn.
  cbv iota in Hn.
  assert (He2 : err it2 = None) by (destruct Hend2 as (He & _); exact He).
  destruct lastp as [|x l].
  - eexists. cbn [collect List.length]. rewrite Hn.
    split.
    { rewrite !app_nil_r. reflexivity. }
    split; [exact He2 | reflexivity].
  - set (it3 := set_cur (set_page (set_idx it2 (idx it2 + 1)) (x :: l) None) x) in *.
    assert (Hin3 : inPage it3 [x] l).
    { unfold inPage, it3. simpl. repeat split; try assumption. }
    destruct (collect_in_page l it3 [x] w2 ((acc ++ itemsOf pages) ++ [x]) 1 Hin3)
      as (it4 & Hc4 & Hin4 & Hm4 & Hf4 & Hcu4).
    pose proof (Next_at_end it4 w2 (inPage_atEnd it4 _ Hin4)) as Hn4.
    rewrite Hm4 in Hn4. specialize (Hn4 eq_refl).
    eexists. cbn [List.length].
    replace (S (S (List.length l))) with (S (List.length l + 1)) by lia.
    cbn [collect]. rewrite Hn. unfold Current at 1. change (cur it3) with x.
    rewrite Hc4. cbn [collect]. rewrite Hn4.
    split.
    { rewrite <- !app_assoc. reflexivity. }
    split.
    + unfold Err. simpl. destruct Hin4 as (_ & _ & He4 & _). exact He4.
    + simpl. exact Hm4.
Qed.

End Pages.

(** The fetch function of the server of pages returns the pages at the
    head of its replies, and notes the cursors. *)
Lemma fetchPage_walk {T : Type} (pages : list (list (option T) * option string)) :
  forall c (w : Pager T) rest,
    replies w = toReplies pages ++ rest ->
    walk fetchPage c w pages (mkPager rest (asked w ++ cursorsAsked c pages)).
Proof.
  induction pages as [|[its next] pages IH]; intros c w rest Hrep.
  - simpl in *. destruct w as [rs asks]. simpl in *. subst rs.
    now rewrite app_nil_r.
  - simpl. eexists. split.
    + unfold fetchPage. rewrite Hrep. reflexivity.
    + simpl tl.
      specialize (IH next (mkPager (toReplies pages ++ rest) (asked w ++ [c])) rest eq_refl).
      simpl in IH. rewrite <- app_assoc in IH. exact IH.
Qed.

(** The loop of a caller over an initial page and the pages the fetch
    function returns. *)
Lemma collect_pages {T W : Type} (f : fetchFn T W)
    (its0 : list (option T)) (c : option string)
    (pages : list (list (option T) * option string))
    (lastp : list (option T)) (w w1 w2 : W) (fuel : nat) :
  len its0 <= Int64.MaxInt64 -> continuing pages -> len lastp <= Int64.MaxInt64 ->
  walk f c w pages w1 ->
  f (lastCursor c pages) w1 = ((lastp, None, None), w2) ->
  (List.length (its0 ++ itemsOf pages ++ lastp) < fuel)%nat ->
  exists it',
    collect fuel (newIter its0 true c (Some f)) w []
    = Some (its0 ++ itemsOf pages ++ lastp, it', w2)
    /\ Err it' = None.
Proof.
  intros Hfit0 Hcont Hfit Hwalk Hlast Hfuel.
  assert (Hin0 : inPage (newIter its0 true c (Some f)) [] its0).
  { unfold inPage. simpl. repeat split. exact Hfit0. }
  destruct (collect_in_page its0 _ [] w []
              (List.length (itemsOf pages) + S (List.length lastp)) Hin0)
    as (it1 & Hc1 & Hin1 & Hm1 & Hf1 & Hcu1).
  change (cursor (newIter its0 true c (Some f))) with c in Hcu1.
  rewrite <- Hcu1 in Hwalk, Hlast.
  destruct (collect_from_end f pages it1 w ([] ++ its0) w1 lastp w2
              (inPage_atEnd it1 _ Hin1) Hf1 Hm1 Hwalk Hlast Hcont Hfit)
    as (it' & Hc & He & _).
  exists it'. split; [|exact He].
  cbn [app] in Hc, Hc1. rewrite Hc in Hc1.
  rewrite !length_app in Hfuel.
  replace fuel with
    ((List.length its0 + (List.length (itemsOf pages) + S (List.length lastp)))
     + (fuel - (List.length its0 + (List.length (itemsOf pages) + S (List.length lastp)))))%nat
    by lia.
  apply collect_more_fuel. exact Hc1.
Qed.

(** X3.  An iterator over an initial page and further pages, of which
    each but the last has items and a cursor: when the fetch function,
    called first with the cursor given to [newIter] and then with the
    cursor that came with the page before, returns these pages, the loop
    of a caller yields every item of every page, in order, and ends
    without an error, and the fetch function has been called once per
    further page, in that order. *)
Theorem collect_yields_every_page {T W : Type} (f : fetchFn T W)
    (its0 : list (option T)) (c : option string)
    (pages : list (list (option T) * option string))
    (lastp : list (option T)) (w w1 w2 : W) (fuel : nat) :
  len its0 <= Int64.MaxInt64 -> continuing pages -> len lastp <= Int64.MaxInt64 ->
  walk f c w pages w1 ->
  f (lastCursor c pages) w1 = ((lastp, None, None), w2) ->
  (List.length (its0 ++ itemsOf pages ++ lastp) < fuel)%nat ->
  exists it',
    collect fuel (newIter its0 true c (Some f)) w []
    = Some (its0 ++ itemsOf pages ++ lastp, it', w2)
    /\ Err it' = None.
Proof.
  intros Hfit0 Hcont Hfit Hwalk Hlast Hfuel.
  exact (collect_pages f its0 c pages lastp w w1 w2 fuel Hfit0 Hcont Hfit Hwalk Hlast Hfuel).
Qed.

Lemma collect_yields_every_page_witness :
  exists it',
    collect 10 (newIter [Some "a"] true (Some "c1") (Some fetchPage))
      (mkPager [PageReply [Some "b"; Some "c"] (Some "c2"); PageReply [Some "d"] None] []) []
    = Some ([Some "a"] ++ itemsOf [([Some "b"; Some "c"], Some "c2")] ++ [Some "d"], it',
            mkPager [] [Some "c1"; Some "c2"])
    /\ Err it' = None.
Proof.
  apply (collect_yields_every_page fetchPage [Some "a"] (Some "c1")
           [([Some "b"; Some "c"], Some "c2")] [Some "d"]
           (mkPager [PageReply [Some "b"; Some "c"] (Some "c2"); PageReply [Some "d"] None] [])
           (mkPager [PageReply [Some "d"] None] [Some "c1"])
           (mkPager [] [Some "c1"; Some "c2"]) 10).
  - vm_compute. discriminate.
  - repeat constructor; simpl; try discriminate; vm_compute; discriminate.
  - vm_compute. discriminate.
  - simpl. eexists. split; reflexivity.
  - reflexivity.
  - simpl. lia.
Defined.

(** X4.  When the fetch function fails after some pages, the loop of a
    caller has yielded every item of the pages before, then ends; the
    error is stored, and from then on every [Next] returns false,
    changes nothing and does not call the fetch function again. *)
Theorem collect_stops_at_fetch_error {T W : Type} (f : fetchFn T W)
    (its0 : list (option T)) (c : option string)
    (pages : list (list (option T) * option string))
    (its : list (option T)) (next : option string) (e : error)
    (w w1 w2 : W) (fuel : nat) :
  len its0 <= Int64.MaxInt64 -> continuing pages ->
  walk f c w pages w1 ->
  f (lastCursor c pages) w1 = ((its, next, Some e), w2) ->
  (List.length (its0 ++ itemsOf pages) < fuel)%nat ->
  exists it',
    collect fuel (newIter its0 true c (Some f)) w []
    = Some (its0 ++ itemsOf pages, it', w2)
    /\ Err it' = Some e
    /\ forall n w', calls (S n) it' w' = Some (Some false, it', w').
Proof.
  intros Hfit0 Hcont Hwalk Hlast Hfuel.
  assert (Hin0 : inPage (newIter its0 true c (Some f)) [] its0).
  { unfold inPage. simpl. repeat split. exact Hfit0. }
  destruct (collect_in_page its0 _ [] w [] (List.length (itemsOf pages) + 1) Hin0)
    as (it1 & Hc1 & Hin1 & Hm1 & Hf1 & Hcu1).
  change (cursor (newIter its0 true c (Some f))) with c in Hcu1.
  rewrite <- Hcu1 in Hwalk, Hlast.
  destruct (collect_through f pages it1 w ([] ++ its0) 1 w1
              (inPage_atEnd it1 _ Hin1) Hf1 (fun _ => Hm1) Hwalk Hcont)
    as (it2 & Hc2 & Hend2 & Hf2 & Hcu2 & Hm2).
  assert (Hm2' : hasMore it2 = true).
  { rewrite Hm2. destruct pages; [exact Hm1 | reflexivity]. }
  rewrite <- Hcu2 in Hlast.
  pose proof (Next_fetches it2 w1 f _ _ _ _ Hend2 Hm2' Hf2 Hlast) as Hn.
  cbv iota in Hn.
  exists (set_err (set_idx it2 (idx it2 + 1)) (Some e)).
  split; [|split].
  - rewrite !length_app in Hfuel.
    replace fuel with
      ((List.length its0 + (List.length (itemsOf pages) + 1))
       + (fuel - (List.length its0 + (List.length (itemsOf pages) + 1))))%nat by lia.
    apply collect_more_fuel. rewrite Hc1, Hc2. cbn [collect]. rewrite Hn.
    reflexivity.
  - reflexivity.
  - intros n w'. now apply (calls_after_error _ w' e n).
Qed.

Lemma collect_stops_at_fetch_error_witness :
  exists it',
    collect 10 (newIter [Some "a"] true (Some "c1") (Some fetchPage))
      (mkPager [PageReply [Some "b"] (Some "c2"); ErrorReply "fetch failed"] []) []
    = Some ([Some "a"] ++ itemsOf [([Some "b"], Some "c2")], it',
            mkPager [] [Some "c1"; Some "c2"])
    /\ Err it' = Some "fetch failed"
    /\ forall n w', calls (S n) it' w' = Some (Some false, it', w').
Proof.
  apply (collect_stops_at_fetch_error fetchPage [Some "a"] (Some "c1")
           [([Some "b"], Some "c2")] [] None "fetch failed"
           (mkPager [PageReply [Some "b"] (Some "c2"); ErrorReply "fetch failed"] [])
           (mkPager [ErrorReply "fetch failed"] [Some "c1"])
           (mkPager [] [Some "c1"; Some "c2"]) 10).
  - vm_compute. discriminate.
  - repeat constructor; simpl; try discriminate; vm_compute; discriminate.
  - simpl. eexists. split; reflexivity.
  - reflexivity.
  - simpl. lia.
Defined.

(** X5.  When the fetch function answers with an empty page and a
    cursor, the loop of a caller ends there without an error although
    more pages are to come: it has yielded the items of the pages
    before only.  The iterator is not exhausted: a second loop on it
    asks for the next page with that cursor and yields the items of the
    remaining pages. *)
Theorem collect_stops_at_empty_page {T W : Type} (f : fetchFn T W)
    (its0 : list (option T)) (c : option string)
    (pages : list (list (option T) * option string))
    (c' : string) (pages' : list (list (option T) * option string))
    (lastp : list (option T)) (w w1 w2 w3 w4 : W) (fuel fuel' : nat) :
  len its0 <= Int64.MaxInt64 -> continuing pages ->
  continuing pages' -> len lastp <= Int64.MaxInt64 ->
  walk f c w pages w1 ->
  f (lastCursor c pages) w1 = (([], Some c', None), w2) ->
  walk f (Some c') w2 pages' w3 ->
  f (lastCursor (Some c') pages') w3 = ((lastp, None, None), w4) ->
  (List.length (its0 ++ itemsOf pages) < fuel)%nat ->
  (List.length (itemsOf pages' ++ lastp) < fuel')%nat ->
  exists it' it'',
    collect fuel (newIter its0 true c (Some f)) w []
    = Some (its0 ++ itemsOf pages, it', w2)
    /\ Err it' = None /\ hasMore it' = true
    /\ collect fuel' it' w2 [] = Some (itemsOf pages' ++ lastp, it'', w4)
    /\ Err it'' = None.
Proof.
  intros Hfit0 Hcont Hcont' Hfit Hwalk Hempty Hwalk' Hlast Hfuel Hfuel'.
  assert (Hin0 : inPage (newIter its0 true c (Some f)) [] its0).
  { unfold inPage. simpl. repeat split. exact Hfit0. }
  destruct (collect_in_page its0 _ [] w [] (List.length (itemsOf pages) + 1) Hin0)
    as (it1 & Hc1 & Hin1 & Hm1 & Hf1 & Hcu1).
  change (cursor (newIter its0 true c (Some f))) with c in Hcu1.
  rewrite <- Hcu1 in Hwalk, Hempty.
  destruct (collect_through f pages it1 w ([] ++ its0) 1 w1
              (inPage_atEnd it1 _ Hin1) Hf1 (fun _ => Hm1) Hwalk Hcont)
    as (it2 & Hc2 & Hend2 & Hf2 & Hcu2 & Hm2).
  assert (Hm2' : hasMore it2 = true).
  { rewrite Hm2. destruct pages; [exact Hm1 | reflexivity]. }
  rewrite <- Hcu2 in Hempty.
  pose proof (Next_fetches it2 w1 f _ _ _ _ Hend2 Hm2' Hf2 Hempty) as Hn.
  cbv iota in Hn.
  set (it' := set_page (set_idx it2 (idx it2 + 1)) [] (Some c')) in *.
  assert (Hend' : atEnd it').
  { unfold atEnd, it'. simpl. destruct Hend2 as (He & _).
    repeat split; try assumption; unfold len, Int64.MaxInt64; simpl; lia. }
  destruct (collect_from_end f pages' it' w2 [] w3 lastp w4
              Hend' Hf2 eq_refl Hwalk' Hlast Hcont' Hfit)
    as (it'' & Hc'' & He'' & _).
  exists it', it''.
  split; [|split; [|split; [|split]]].
  - rewrite !length_app in Hfuel.
    replace fuel with
      ((List.length its0 + (List.length (itemsOf pages) + 1))
       + (fuel - (List.length its0 + (List.length (itemsOf pages) + 1))))%nat by lia.
    apply collect_more_fuel. rewrite Hc1, Hc2. cbn [collect]. now rewrite Hn.
  - unfold Err, it'. simpl. destruct Hend2 as (He & _). exact He.
  - reflexivity.
  - rewrite !length_app in Hfuel'.
    replace fuel' with
      ((List.length (itemsOf pages') + S (List.length lastp))
       + (fuel' - (List.length (itemsOf pages') + S (List.length lastp))))%nat by lia.
    apply collect_more_fuel. exact Hc''.
  - exact He''.
Qed.

Lemma collect_stops_at_empty_page_witness :
  exists it' it'',
    collect 10 (newIter [Some "a"] true (Some "c1") (Some fetchPage))
      (mkPager [PageReply [] (Some "c2"); PageReply [Some "b"] None] []) []
    = Some ([Some "a"] ++ itemsOf [], it', mkPager [PageReply [Some "b"] None] [Some "c1"])
    /\ Err it' = None /\ hasMore it' = true
    /\ collect 10 it' (mkPager [PageReply [Some "b"] None] [Some "c1"]) []
       = Some (itemsOf [] ++ [Some "b"], it'', mkPager [] [Some "c1"; Some "c2"])
    /\ Err it'' = None.
Proof.
  apply (collect_stops_at_empty_page fetchPage [Some "a"] (Some "c1") [] "c2" []
           [Some "b"]
           (mkPager [PageReply [] (Some "c2"); PageReply [Some "b"] None] [])
           (mkPager [PageReply [] (Some "c2"); PageReply [Some "b"] None] [])
           (mkPager [PageReply [Some "b"] None] [Some "c1"])
           (mkPager [PageReply [Some "b"] None] [Some "c1"])
           (mkPager [] [Some "c1"; Some "c2"]) 10 10).
  - vm_compute. discriminate.
  - constructor.
  - constructor.
  - vm_compute. discriminate.
  - reflexivity.
  - reflexivity.
  - reflexivity.
  - reflexivity.
  - simpl. lia.
  - simpl. lia.
Defined.

End PagingFacts.

(* ===================================================================== *)
(** * Further properties of the iterator *)
(* ===================================================================== *)

Module IteratorProps.
Import Iterator Paging Int64Facts.

(** X1.  An error is stored only when the fetch function returns it, and
    once stored it stays: every later [Next] returns false, leaves the
    iterator and the world as they are, and so never calls the fetch
    function again. *)
Theorem error_only_from_fetch_and_final {T W : Type} (it : Iter T W) (w : W) :
  (forall b it' w' e,
      err it = None -> Next it w = Some (b, it', w') -> err it' = Some e ->
      b = false /\ hasMore it = true
      /\ exists f, fetch it = Some f /\ snd (fst (f (cursor it) w)) = Some e)
  /\ (forall e n, err it = Some e -> calls (S n) it w = Some (Some false, it, w)).
Proof.
  split.
  - intros b it' w' e He Hn He'. unfold Next in Hn. rewrite He in Hn. simpl in Hn.
    destruct (Int64.add (idx it) 1 <? len (items it)).
    { destruct (index (items it) (Int64.add (idx it) 1)); [|discriminate].
      inversion Hn; subst it'. simpl in He'. congruence. }
    destruct (hasMore it) eqn:Hm; simpl in Hn.
    2:{ inversion Hn; subst it'. simpl in He'. congruence. }
    destruct (fetch it) as [f|] eqn:Hf; simpl in Hn.
    2:{ inversion Hn; subst it'. simpl in He'. congruence. }
    destruct (f (cursor it) w) as [[[its next] e0] w0] eqn:Hfw.
    destruct e0 as [e0|]; simpl in Hn.
    + inversion Hn; subst b it' w'. simpl in He'.
      split; [reflexivity|]. split; [reflexivity|].
      exists f. split; [reflexivity|]. rewrite Hfw. exact He'.
    + destruct (0 <? len its).
      * destruct (index its 0); [|discriminate].
        inversion Hn; subst it'. simpl in He'. congruence.
      * inversion Hn; subst it'. simpl in He'. congruence.
  - intros e n He. now apply PagingFacts.calls_after_error with (e := e).
Qed.

Lemma error_only_from_fetch_and_final_witness :
  calls 3 (newIterWithError (T:=string) (Some "initial error")) 0%nat
  = Some (Some false, newIterWithError (Some "initial error"), 0%nat).
Proof.
  apply (proj2 (error_only_from_fetch_and_final
                  (newIterWithError (T:=string) (Some "initial error")) 0%nat)
           "initial error" 2%nat).
  reflexivity.
Defined.

(** X2.  [Next] returns true only after it has set [Current] to the
    element of the current page at the position marker, which is then
    within the page, and no error is stored. *)
Theorem Next_true_sets_Current {T W : Type} (it it' : Iter T W) (w w' : W) :
  Next it w = Some (true, it', w') ->
  index (items it') (idx it') = Some (Current it')
  /\ 0 <= idx it' < len (items it')
  /\ Err it' = None.
Proof.
  intros Hn.
  assert (Hidx : forall (s : list (option T)) i p,
             index s i = Some p -> 0 <= i < len s).
  { intros s i p H. unfold index in H.
    destruct (0 <=? i) eqn:H0; [|discriminate].
    destruct (i <? len s) eqn:H1; [|discriminate].
    apply Z.leb_le in H0. apply Z.ltb_lt in H1. lia. }
  unfold Next in Hn.
  destruct (err it) as [e|] eqn:He; simpl in Hn; [discriminate|].
  destruct (Int64.add (idx it) 1 <? len (items it)).
  { destruct (index (items it) (Int64.add (idx it) 1)) as [p|] eqn:Hp; [|discriminate].
    inversion Hn; subst it' w'. simpl.
    split; [exact Hp|]. split; [now apply (Hidx _ _ p) | exact He]. }
  destruct (negb (hasMore it) || isNil (fetch it)); [discriminate|].
  destruct (fetch it) as [f|]; [|discriminate].
  destruct (f (cursor it) w) as [[[its next] e0] w0].
  destruct (notNil e0); [discriminate|]. simpl in Hn.
  destruct (0 <? len its); [|discriminate].
  destruct (index its 0) as [p|] eqn:Hp; [|discriminate].
  inversion Hn; subst it' w'. simpl.
  split; [exact Hp|]. split; [now apply (Hidx _ _ p) | exact He].
Qed.

Lemma Next_true_sets_Current_witness :
  exists it' w',
    Next (newIter [Some "a"] false None None) 0%nat = Some (true, it', w')
    /\ index (items it') (idx it') = Some (Current it')
    /\ 0 <= idx it' < len (items it')
    /\ Err it' = None.
Proof.
  eexists _, _. split; [reflexivity|].
  apply (Next_true_sets_Current (newIter [Some "a"] false None None) _ 0%nat 0%nat).
  reflexivity.
Defined.

(** X6.  On an iterator made by [newIter], a sequence of [Next] calls
    never reads outside its page, whatever the fetch function returns:
    no call panics (for sequences of at most [MaxInt64] calls; beyond
    that the position marker would wrap around). *)
Theorem Next_never_out_of_range {T W : Type} (its : list (option T)) (more : bool)
    (c : option string) (f : option (fetchFn T W)) (n : nat) (w : W) :
  Z.of_nat n <= Int64.MaxInt64 ->
  exists last it' w', calls n (newIter its more c f) w = Some (last, it', w').
Proof.
  intros Hn.
  destruct (IteratorFacts.calls_newIter_total its more c f n w Hn) as [[[last it'] w'] H].
  now exists last, it', w'.
Qed.

Lemma Next_never_out_of_range_witness :
  exists last it' w',
    calls 5 (newIter [Some "a"] true (Some "c1") (Some Iterator.fetch_empty_more)) 0%nat
    = Some (last, it', w').
Proof.
  apply (Next_never_out_of_range [Some "a"] true (Some "c1")
           (Some Iterator.fetch_empty_more) 5 0%nat).
  vm_compute. discriminate.
Defined.

(** X7.  An iterator over a single page (no further page announced)
    yields exactly the items it was made with, in order, then stops
    without an error; the fetch function, if there is one, is not
    called. *)
Theorem single_page_yields_its_items {T W : Type} (its : list (option T))
    (c : option string) (f : option (fetchFn T W)) (w : W) :
  len its <= Int64.MaxInt64 ->
  exists it',
    collect (S (List.length its)) (newIter its false c f) w [] = Some (its, it', w)
    /\ Err it' = None.
Proof. apply IteratorFacts.collect_single_page. Qed.

Lemma single_page_yields_its_items_witness :
  exists it',
    collect (S (List.length [Some "a"; Some "b"; Some "c"]))
      (newIter [Some "a"; Some "b"; Some "c"] false None (Some Iterator.fetch_failing))
      0%nat []
    = Some ([Some "a"; Some "b"; Some "c"], it', 0%nat)
    /\ Err it' = None.
Proof.
  apply (single_page_yields_its_items [Some "a"; Some "b"; Some "c"] None
           (Some Iterator.fetch_failing) 0%nat).
  vm_compute. discriminate.
Defined.

End IteratorProps.

(* ===================================================================== *)
(** * Properties of the retrying transport *)
(* ===================================================================== *)

Module TransportFacts.
Import Http Transport.

Import Int64Facts.

(** ** 64-bit arithmetic *)

Lemma shl1_small n : 0 <= n <= 4 -> Int64.shl1 n = Some (2 ^ n).
Proof.
  intros H. unfold Int64.shl1.
  replace (n <? 0) with false by (symmetry; apply Z.ltb_ge; lia).
  assert (Hn : n = 0 \/ n = 1 \/ n = 2 \/ n = 3 \/ n = 4) by lia.
  destruct Hn as [->|[->|[->|[->| ->]]]]; reflexivity.
Qed.

(** A wait of at least 4ns doubled at most four times never wraps to a
    value between 1 and 3. *)
Lemma mul_pow2_not_tiny m n :
  4 <= m <= Int64.MaxInt64 -> 0 <= n <= 4 ->
  ~ (1 <= Int64.mul m (2 ^ n) <= 3).
Proof.
  unfold Int64.MaxInt64, Int64.mul, Int64.wrap. intros Hm Hn.
  assert (Hk : exists k, 2 ^ n = k /\ (k = 1 \/ k = 2 \/ k = 4 \/ k = 8 \/ k = 16)).
  { assert (Hc : n = 0 \/ n = 1 \/ n = 2 \/ n = 3 \/ n = 4) by lia.
    destruct Hc as [->|[->|[->|[->| ->]]]]; eexists; (split; [reflexivity|]); lia. }
  destruct Hk as (k & -> & Hk).
  change (2 ^ 63) with 9223372036854775808 in *.
  change (2 ^ 64) with 18446744073709551616.
  pose proof (Z.div_mod (m * k + 9223372036854775808) 18446744073709551616
                ltac:(lia)) as Hdm.
  pose proof (Z.mod_pos_bound (m * k + 9223372036854775808) 18446744073709551616
                ltac:(lia)) as Hb.
  set (q := (m * k + 9223372036854775808) / 18446744073709551616) in *.
  set (r := (m * k + 9223372036854775808) mod 18446744073709551616) in *.
  clearbody q r.
  destruct Hk as [->|[->|[->|[->| ->]]]]; lia.
Qed.

Section Backoff.
Context {W : Type} (E : Env W).
Implicit Types (t : retryTransport W) (w : W) (tr : list Event).

Lemma backoff_retryAfter t attempt resp w tr wait :
  retryAfter t resp = Some wait ->
  backoff E t attempt resp w tr = Returned wait w tr.
Proof. intros H. unfold backoff. now rewrite H. Qed.

(** Without a usable header and with a capped wait of at least 4ns the
    result is that wait plus a jitter below a quarter of it. *)
Lemma backoff_exponential t attempt resp w tr wait :
  retryAfter t resp = None ->
  exponential t attempt = Some wait ->
  4 <= wait ->
  exists jitter w',
    randomBelow E (Z.quot wait 4) w = (jitter, w')
    /\ backoff E t attempt resp w tr = Returned (Int64.add wait jitter) w' tr.
Proof.
  intros Hra Hex Hw. unfold backoff. rewrite Hra, Hex.
  replace (0 <? wait) with true by (symmetry; apply Z.ltb_lt; lia).
  unfold bind, Int63n.
  assert (Hq : 0 < Z.quot wait 4).
  { rewrite Z.quot_div_nonneg by lia.
    apply Z.div_str_pos. lia. }
  replace (Z.quot wait 4 <=? 0) with false by (symmetry; apply Z.leb_gt; lia).
  destruct (randomBelow E (Z.quot wait 4) w) as [j w'].
  now exists j, w'.
Qed.

Lemma backoff_nonpositive t attempt resp w tr wait :
  retryAfter t resp = None ->
  exponential t attempt = Some wait ->
  wait <= 0 ->
  backoff E t attempt resp w tr = Returned wait w tr.
Proof.
  intros Hra Hex Hw. unfold backoff. rewrite Hra, Hex.
  now replace (0 <? wait) with false by (symmetry; apply Z.ltb_ge; lia).
Qed.

Lemma backoff_tiny t attempt resp w tr wait :
  retryAfter t resp = None ->
  exponential t attempt = Some wait ->
  0 < wait < 4 ->
  backoff E t attempt resp w tr = Panicked "invalid argument to Int63n" w tr.
Proof.
  intros Hra Hex Hw. unfold backoff. rewrite Hra, Hex.
  replace (0 <? wait) with true by (symmetry; apply Z.ltb_lt; lia).
  unfold bind, Int63n.
  assert (Hq : Z.quot wait 4 = 0) by (apply Z.quot_small; lia).
  rewrite Hq. reflexivity.
Qed.

(** The transports the constructor makes have positive waits. *)
Lemma newRetryTransport_waits b k wmin wmax :
  let t := newRetryTransport E b k wmin wmax in
  (0 < wmin -> waitMin t = wmin) /\ (wmin <= 0 -> waitMin t = 500000000)
  /\ (0 < wmax -> waitMax t = wmax) /\ (wmax <= 0 -> waitMax t = 30000000000).
Proof.
  simpl. repeat split; intros H.
  - now replace (wmin <=? 0) with false by (symmetry; apply Z.leb_gt; lia).
  - now replace (wmin <=? 0) with true by (symmetry; apply Z.leb_le; lia).
  - now replace (wmax <=? 0) with false by (symmetry; apply Z.leb_gt; lia).
  - now replace (wmax <=? 0) with true by (symmetry; apply Z.leb_le; lia).
Qed.

Lemma newRetryTransport_maxRetries b k wmin wmax :
  let t := newRetryTransport E b k wmin wmax in
  0 <= maxRetries t <= 5
  /\ (0 <= k <= 5 -> maxRetries t = k).
Proof.
  simpl. destruct (k <? 0) eqn:H0.
  - apply Z.ltb_lt in H0. simpl. lia.
  - apply Z.ltb_ge in H0. destruct (5 <? k) eqn:H5.
    + apply Z.ltb_lt in H5. lia.
    + apply Z.ltb_ge in H5. lia.
Qed.

(** With waits that are not between 1ns and 3ns, [backoff] returns for
    every attempt number the loop can pass, and leaves no event. *)
Lemma backoff_returns t attempt resp w tr :
  4 <= waitMin t <= Int64.MaxInt64 ->
  ~ (1 <= waitMax t <= 3) ->
  0 <= attempt <= 4 ->
  exists wait w', backoff E t attempt resp w tr = Returned wait w' tr.
Proof.
  intros Hmin Hmax Hat.
  destruct (retryAfter t resp) as [d|] eqn:Hra.
  - exists d, w. now apply backoff_retryAfter.
  - assert (Hex : exists wait, exponential t attempt = Some wait
                               /\ ~ (1 <= wait <= 3)).
    { unfold exponential. rewrite (shl1_small _ Hat).
      eexists. split; [reflexivity|].
      pose proof (mul_pow2_not_tiny _ _ Hmin Hat) as Hnt.
      destruct (waitMax t <? Int64.mul (waitMin t) (2 ^ attempt)); assumption. }
    destruct Hex as (wait & Hex & Hnt).
    destruct (Z_le_gt_dec wait 0) as [Hle|Hgt].
    + exists wait, w. now apply (backoff_nonpositive t attempt resp w tr wait).
    + destruct (backoff_exponential t attempt resp w tr wait Hra Hex) as (j & w' & _ & Hb);
        [lia|].
      now exists (Int64.add wait j), w'.
Qed.

End Backoff.

(** ** The exponential wait when nothing overflows *)

Lemma shl1_pow2 n : 0 <= n <= 62 -> Int64.shl1 n = Some (2 ^ n).
Proof.
  intros H. unfold Int64.shl1.
  replace (n <? 0) with false by (symmetry; apply Z.ltb_ge; lia).
  rewrite Z.shiftl_1_l. rewrite wrap_in_range; [reflexivity|].
  unfold Int64.in_range, Int64.MinInt64, Int64.MaxInt64.
  assert (0 < 2 ^ n) by (apply Z.pow_pos_nonneg; lia).
  assert (2 ^ n <= 2 ^ 62) by (apply Z.pow_le_mono_r; lia).
  change (2 ^ 63) with (2 * 2 ^ 62). lia.
Qed.

(** Without a usable header, with a capped wait of at least 4ns and as
    long as neither the product nor the sum leaves the 64-bit range, the
    wait is [min(waitMin * 2^attempt, waitMax)] plus a jitter taken from
    [[0, wait/4)]. *)
Lemma backoff_exponential_value {W : Type} (E : Env W) (t : retryTransport W)
    attempt resp w tr :
  randomInRange E ->
  retryAfter t resp = None ->
  0 <= attempt <= 62 ->
  0 < waitMin t ->
  waitMin t * 2 ^ attempt <= Int64.MaxInt64 ->
  let wait := Z.min (waitMin t * 2 ^ attempt) (waitMax t) in
  4 <= wait ->
  wait + wait / 4 <= Int64.MaxInt64 ->
  exists jitter w',
    backoff E t attempt resp w tr = Returned (wait + jitter) w' tr
    /\ 0 <= jitter < wait / 4.
Proof.
  intros Hrand Hra Hat Hmin Hfit wait Hwait Hsum.
  assert (Hpow : 0 < 2 ^ attempt) by (apply Z.pow_pos_nonneg; lia).
  assert (Hex : exponential t attempt = Some wait).
  { unfold exponential. rewrite (shl1_pow2 _ Hat).
    unfold Int64.mul. rewrite wrap_in_range.
    2:{ unfold Int64.in_range, Int64.MinInt64. nia. }
    f_equal. subst wait.
    destruct (waitMax t <? waitMin t * 2 ^ attempt) eqn:Hc.
    - apply Z.ltb_lt in Hc. lia.
    - apply Z.ltb_ge in Hc. lia. }
  destruct (backoff_exponential E t attempt resp w tr wait Hra Hex Hwait)
    as (j & w' & Hj & Hb).
  assert (Hq : Z.quot wait 4 = wait / 4) by (apply Z.quot_div_nonneg; lia).
  assert (Hqpos : 0 < wait / 4) by (apply Z.div_str_pos; lia).
  pose proof (Hrand (Z.quot wait 4) w ltac:(lia)) as Hr.
  rewrite Hj in Hr. simpl in Hr. rewrite Hq in Hr.
  exists j, w'. split; [|exact Hr].
  rewrite Hb. unfold Int64.add. rewrite wrap_in_range; [reflexivity|].
  unfold Int64.in_range, Int64.MinInt64 in *. lia.
Qed.

Lemma scripted_randomInRange : randomInRange Scripted.env.
Proof.
  intros n w Hn. simpl. apply Z.mod_pos_bound. exact Hn.
Qed.

(** ** Eligibility for retries *)

Lemma ctx_isIdempotent_iff ctx :
  Ctx.isIdempotent ctx = true
  <-> Ctx.Value ctx Ctx.idempotentKey = Some (Ctx.VBool true).
Proof.
  unfold Ctx.isIdempotent.
  destruct (Ctx.Value ctx Ctx.idempotentKey) as [[b|s|z]|]; split; intros H;
    try discriminate; congruence.
Qed.

Lemma withIdempotent_marks ctx : Ctx.isIdempotent (Ctx.withIdempotent ctx) = true.
Proof. reflexivity. Qed.

Lemma isIdempotent_iff {W : Type} (t : retryTransport W) (req : Request W) :
  isIdempotent t req = true <-> retryEligible req.
Proof.
  unfold isIdempotent, retryEligible.
  destruct (String.eqb (Method req) MethodGet) eqn:Hg.
  { apply String.eqb_eq in Hg. simpl. split; [|reflexivity].
    intros _. left. rewrite Hg. simpl. auto. }
  destruct (String.eqb (Method req) MethodPut) eqn:Hp.
  { apply String.eqb_eq in Hp. simpl. split; [|reflexivity].
    intros _. left. rewrite Hp. simpl. auto. }
  destruct (String.eqb (Method req) MethodDelete) eqn:Hd.
  { apply String.eqb_eq in Hd. simpl. split; [|reflexivity].
    intros _. left. rewrite Hd. simpl. auto. }
  destruct (String.eqb (Method req) MethodHead) eqn:Hh.
  { apply String.eqb_eq in Hh. simpl. split; [|reflexivity].
    intros _. left. rewrite Hh. simpl. auto 6. }
  destruct (String.eqb (Method req) MethodOptions) eqn:Ho.
  { apply String.eqb_eq in Ho. simpl. split; [|reflexivity].
    intros _. left. rewrite Ho. simpl. auto 6. }
  simpl. rewrite ctx_isIdempotent_iff.
  apply String.eqb_neq in Hg, Hp, Hd, Hh, Ho.
  split; [now right|].
  intros [Hin|Hm]; [|exact Hm].
  simpl in Hin. intuition congruence.
Qed.

(** C6.  A request is retried exactly when its method is GET, PUT,
    DELETE, HEAD or OPTIONS or its context carries the idempotent marker
    set to true; any other request is handed to the base transport once,
    and whatever that returns is the result. *)
Theorem retry_only_when_eligible {W : Type} (E : Env W)
    (t : retryTransport W) (req : Request W) :
  (isIdempotent t req = true <-> retryEligible req)
  /\ (~ retryEligible req ->
      forall w, exists r w',
        base t req w = (r, w')
        /\ RoundTrip E t req w [] = Returned r w' [EvRoundTrip (Method req) (Body req) r]
        /\ attemptsMade [EvRoundTrip (Method req) (Body req) r] = 1%nat).
Proof.
  split; [apply isIdempotent_iff|].
  intros Hne w.
  assert (Hf : isIdempotent t req = false).
  { destruct (isIdempotent t req) eqn:Hi; [|reflexivity].
    exfalso. apply Hne. now apply isIdempotent_iff in Hi. }
  destruct (base t req w) as [r w'] eqn:Hb.
  exists r, w'. split; [reflexivity|]. split; [|reflexivity].
  unfold RoundTrip. rewrite Hf. simpl.
  destruct (maxRetries t =? 0); unfold callRoundTrip; now rewrite Hb.
Qed.

(** An unmarked POST that the server answers with 500 is sent once, with
    three retries configured. *)
Lemma retry_only_when_eligible_witness :
  exists w',
    RoundTrip Scripted.env (Scripted.transport 3) Scripted.post
      (Scripted.world [Scripted.failure 500 []] []) []
    = Returned (Scripted.failure 500 []) w'
        [EvRoundTrip MethodPost (Some 0%nat) (Scripted.failure 500 [])].
Proof.
  destruct (proj2 (retry_only_when_eligible Scripted.env (Scripted.transport 3)
                     Scripted.post)) with (w := Scripted.world [Scripted.failure 500 []] [])
    as (r & w' & Hb & Hr & _).
  - unfold retryEligible. simpl. intros [H|H]; [|discriminate].
    repeat (destruct H as [H|H]; [discriminate|]). exact H.
  - exists w'. rewrite Hr. vm_compute in Hb. inversion Hb. reflexivity.
Defined.

(** ** One iteration of the attempt loop *)

Section Loop.
Context {W : Type} (E : Env W).
Implicit Types (t : retryTransport W) (w : W) (tr : list Event)
  (req : Request W).

Lemma shouldRetry_retryable t resp err :
  isNil err && negb (shouldRetry t resp) = negb (retryable (resp, err)).
Proof.
  unfold shouldRetry, retryable.
  destruct err, resp; reflexivity.
Qed.

Lemma RoundTrip_disabled t req :
  maxRetries t = 0 -> RoundTrip E t req = callRoundTrip (base t) req.
Proof. intros H. unfold RoundTrip. now rewrite H. Qed.

Lemma RoundTrip_eligible t req :
  maxRetries t <> 0 ->
  isIdempotent t req = true ->
  RoundTrip E t req
    = attempts E t (Z.to_nat (maxRetries t + 1)) 0 req (None, None).
Proof.
  intros Hm Hi. unfold RoundTrip. rewrite Hi.
  now replace (maxRetries t =? 0) with false by (symmetry; now apply Z.eqb_neq).
Qed.

Lemma resetBody_first req w tr :
  resetBody 0 req w tr = Returned (req, None) w tr.
Proof. reflexivity. Qed.

Lemma resetBody_no_GetBody attempt req w tr :
  GetBody req = None ->
  resetBody attempt req w tr = Returned (req, None) w tr.
Proof.
  intros H. unfold resetBody. rewrite H. simpl.
  now rewrite andb_false_r.
Qed.

Lemma resetBody_no_Body attempt req w tr :
  Body req = None ->
  resetBody attempt req w tr = Returned (req, None) w tr.
Proof.
  intros H. unfold resetBody. rewrite H. simpl.
  now rewrite andb_false_r.
Qed.

Lemma resetBody_GetBody attempt req w tr b g body bodyErr w1 :
  0 < attempt -> Body req = Some b -> GetBody req = Some g ->
  g w = ((body, bodyErr), w1) ->
  resetBody attempt req w tr
    = Returned (match bodyErr with
                | Some e => (req, Some e)
                | None => (setBody req body, None)
                end) w1 (tr ++ [EvGetBody (body, bodyErr)]).
Proof.
  intros Ha Hb Hg Hgw. unfold resetBody. rewrite Hb, Hg.
  replace (0 <? attempt) with true by (symmetry; apply Z.ltb_lt; lia).
  simpl. unfold bind, callGetBody. rewrite Hgw.
  destruct bodyErr; reflexivity.
Qed.

Lemma attempts_send t fuel attempt req last w tr req' w1 tr1 r w2 :
  attempt <= maxRetries t ->
  resetBody attempt req w tr = Returned (req', None) w1 tr1 ->
  base t req' w1 = (r, w2) ->
  attempts E t (S fuel) attempt req last w tr
    = afterRoundTrip E t (attempts E t fuel) attempt req' r w2
        (tr1 ++ [EvRoundTrip (Method req') (Body req') r]).
Proof.
  intros Ha Hr Hb. simpl.
  replace (attempt <=? maxRetries t) with true by (symmetry; apply Z.leb_le; lia).
  unfold bind at 1. rewrite Hr. simpl.
  unfold bind at 1. unfold callRoundTrip. now rewrite Hb.
Qed.

Lemma attempts_bodyErr t fuel attempt req last w tr req' e w1 tr1 :
  attempt <= maxRetries t ->
  resetBody attempt req w tr = Returned (req', Some e) w1 tr1 ->
  attempts E t (S fuel) attempt req last w tr = Returned (None, Some e) w1 tr1.
Proof.
  intros Ha Hr. simpl.
  replace (attempt <=? maxRetries t) with true by (symmetry; apply Z.leb_le; lia).
  unfold bind at 1. now rewrite Hr.
Qed.

Lemma afterRoundTrip_final t next attempt req resp err w tr :
  retryable (resp, err) = false ->
  afterRoundTrip E t next attempt req (resp, err) w tr = Returned (resp, None) w tr.
Proof.
  intros H. unfold afterRoundTrip. rewrite shouldRetry_retryable, H. reflexivity.
Qed.

Lemma afterRoundTrip_last t next attempt req resp err w tr :
  retryable (resp, err) = true ->
  maxRetries t <= attempt ->
  afterRoundTrip E t next attempt req (resp, err) w tr = Returned (resp, err) w tr.
Proof.
  intros H Ha. unfold afterRoundTrip. rewrite shouldRetry_retryable, H. simpl.
  now replace (maxRetries t <=? attempt) with true by (symmetry; apply Z.leb_le; lia).
Qed.

Lemma afterRoundTrip_backoff t next attempt req resp err w tr :
  retryable (resp, err) = true ->
  attempt < maxRetries t ->
  afterRoundTrip E t next attempt req (resp, err) w tr
    = match backoff E t attempt resp (fst (drained E resp w tr)) (snd (drained E resp w tr)) with
      | Returned wait w3 tr3 =>
        let (done, w4) := waitOrDone E (Context req) wait w3 in
        if notNil done then Returned (None, done) w4 (tr3 ++ [EvWait wait done])
        else next (attempt + 1) req (resp, err) w4 (tr3 ++ [EvWait wait done])
      | Panicked msg w3 tr3 => Panicked msg w3 tr3
      end.
Proof.
  intros H Ha. unfold afterRoundTrip. rewrite shouldRetry_retryable, H. simpl.
  replace (maxRetries t <=? attempt) with false by (symmetry; apply Z.leb_gt; lia).
  unfold bind at 1.
  assert (Hd : (match resp with
                | Some r => match RespBody r with
                            | Some b => callDrain E b
                            | None => ret tt
                            end
                | None => ret tt
                end) w tr
               = Returned tt (fst (drained E resp w tr)) (snd (drained E resp w tr))).
  { unfold drained. destruct resp as [r|]; [destruct (RespBody r)|]; reflexivity. }
  rewrite Hd. unfold bind at 1.
  destruct (backoff E t attempt resp _ _) as [wait w3 tr3|msg w3 tr3]; [|reflexivity].
  unfold bind at 1. unfold callWait.
  destruct (waitOrDone E (Context req) wait w3) as [done w4].
  destruct (notNil done); reflexivity.
Qed.

End Loop.

(** ** The wait before a retry *)

Section RetryAfter.
Context {W : Type} (E : Env W).
Implicit Types (t : retryTransport W) (w : W) (tr : list Event).

Lemma Atoi_empty : Strconv.Atoi "" = None.
Proof. reflexivity. Qed.

(** A header that parses to a number that is not positive is not
    used. *)
Lemma retryAfter_nonpositive t r secs :
  Strconv.Atoi (Get (RespHeader r) "Retry-After") = Some secs ->
  secs <= 0 ->
  retryAfter t (Some r) = None.
Proof.
  intros Ha Hs. unfold retryAfter. rewrite Ha.
  destruct (String.eqb _ ""); [reflexivity|].
  now replace (0 <? secs) with false by (symmetry; apply Z.ltb_ge; lia).
Qed.

(** A header with a positive number of seconds that fits a duration
    gives that many seconds, capped. *)
Lemma retryAfter_positive t r secs :
  Strconv.Atoi (Get (RespHeader r) "Retry-After") = Some secs ->
  0 < secs ->
  secs * Time.Second <= Int64.MaxInt64 ->
  retryAfter t (Some r) = Some (Z.min (secs * Time.Second) (waitMax t)).
Proof.
  intros Ha Hs Hfit. unfold retryAfter.
  destruct (String.eqb (Get (RespHeader r) "Retry-After") "") eqn:He.
  { apply String.eqb_eq in He. rewrite He in Ha. discriminate. }
  rewrite Ha.
  replace (0 <? secs) with true by (symmetry; apply Z.ltb_lt; lia).
  unfold Int64.mul. rewrite wrap_in_range.
  2:{ unfold Int64.in_range, Int64.MinInt64, Time.Second in *. lia. }
  destruct (waitMax t <? secs * Time.Second) eqn:Hc.
  - apply Z.ltb_lt in Hc. f_equal. lia.
  - apply Z.ltb_ge in Hc. f_equal. lia.
Qed.

Lemma backoff_without_header t attempt r w tr :
  retryAfter t (Some r) = None ->
  backoff E t attempt (Some r) w tr = backoff E t attempt None w tr.
Proof. intros H. unfold backoff. now rewrite H. Qed.

End RetryAfter.

(** C2 (counterexample).  A client with the default waits (500ms, 30s)
    receives a 429 with [Retry-After: 0] on its first attempt.  The
    header is not used: whatever the random source yields, the wait is
    the exponential wait of 500ms or more, not a shorter one; in a whole
    [RoundTrip] the one wait before the retry is 500ms. *)
Lemma retry_after_zero_waits_exponential :
  let t := Scripted.transport 3 in
  let resp := Scripted.response 429 [("Retry-After", ["0"])] in
  exponential t 0 = Some 500000000
  /\ (forall rnd, exists wait w',
        backoff Scripted.env t 0 (Some resp) (Scripted.world [] rnd) []
          = Returned wait w' []
        /\ ~ (wait < 500000000))
  /\ (exists r w' tr,
        RoundTrip Scripted.env t Scripted.get
          (Scripted.world [(Some resp, None)] [0]) [] = Returned r w' tr
        /\ waits tr = [500000000]).
Proof.
  intros t resp. split; [reflexivity|]. split.
  - intros rnd.
    destruct (backoff_exponential Scripted.env t 0 (Some resp)
                (Scripted.world [] rnd) [] 500000000)
      as (j & w' & Hj & Hb); [reflexivity | reflexivity | lia |].
    exists (Int64.add 500000000 j), w'. split; [exact Hb|].
    change (Z.quot 500000000 4) with 125000000 in Hj.
    simpl in Hj. inversion Hj as [[Hj' Hw]]. clear Hj Hw.
    pose proof (Z.mod_pos_bound (hd 0 rnd) 125000000 ltac:(lia)) as Hm.
    unfold Int64.add. rewrite wrap_in_range.
    + lia.
    + unfold Int64.in_range, Int64.MinInt64, Int64.MaxInt64. lia.
  - eexists _, _, _. split; [vm_compute; reflexivity | reflexivity].
Qed.

(** C2 (amended).  When the [Retry-After] header of the failed response
    is 0 (or any number that is not positive) it is ignored: the wait is
    computed as for a response without the header, that is by the
    exponential rule.  When it is a positive number of seconds that fits
    a duration, the wait is that many seconds capped at [waitMax],
    whatever the exponential wait would have been. *)
Theorem retry_after_zero_is_ignored {W : Type} (E : Env W)
    (t : retryTransport W) (attempt : Z) (r : Response) (w : W)
    (tr : list Event) (secs : Z) :
  Strconv.Atoi (Get (RespHeader r) "Retry-After") = Some secs ->
  (secs <= 0 ->
     backoff E t attempt (Some r) w tr = backoff E t attempt None w tr)
  /\ (0 < secs -> secs * Time.Second <= Int64.MaxInt64 ->
      backoff E t attempt (Some r) w tr
        = Returned (Z.min (secs * Time.Second) (waitMax t)) w tr).
Proof.
  intros Ha. split.
  - intros Hs. apply backoff_without_header.
    now apply (retryAfter_nonpositive t r secs).
  - intros Hs Hfit. apply backoff_retryAfter.
    now apply retryAfter_positive.
Qed.

Lemma retry_after_zero_is_ignored_witness :
  let t := Scripted.transport 3 in
  let w := Scripted.world [] [0] in
  backoff Scripted.env t 1 (Some (Scripted.response 429 [("Retry-After", ["0"])])) w []
    = backoff Scripted.env t 1 None w []
  /\ backoff Scripted.env t 1 (Some (Scripted.response 429 [("Retry-After", ["2"])])) w []
    = Returned 2000000000 w [].
Proof.
  intros t w. split.
  - apply (retry_after_zero_is_ignored Scripted.env t 1
             (Scripted.response 429 [("Retry-After", ["0"])]) w [] 0);
      [reflexivity | lia].
  - apply (retry_after_zero_is_ignored Scripted.env t 1
             (Scripted.response 429 [("Retry-After", ["2"])]) w [] 2);
      [reflexivity | lia | vm_compute; discriminate].
Defined.

(** C7 (evaluation at the failing inputs).  On a 64-bit platform
    [Retry-After: 9223372037] parses to a positive number of seconds, but
    the product with [time.Second] wraps to a negative duration, which
    passes the cap unchanged: the wait is negative instead of the 30s of
    [waitMax].  And with a [waitMin] of 1ns and no header no wait is
    returned at all: the jitter draw panics. *)
Theorem backoff_fails_on_overflow_and_tiny_wait :
  let t := Scripted.transport 3 in
  let w := Scripted.world [] [0] in
  Strconv.Atoi "9223372037" = Some 9223372037
  /\ waitMax t = 30000000000
  /\ backoff Scripted.env t 0
       (Some (Scripted.response 429 [("Retry-After", ["9223372037"])])) w []
     = Returned (-9223372036709551616) w []
  /\ backoff Scripted.env (newRetryTransport Scripted.env None 3 1 0) 0 None w []
     = Panicked "invalid argument to Int63n" w [].
Proof. intros t w. repeat split; vm_compute; reflexivity. Qed.

(** C10.  Without a usable [Retry-After] header, [backoff] panics exactly
    when the capped exponential wait is 1ns, 2ns or 3ns: the guard lets a
    positive wait through and [rand.Int63n] is called with [wait / 4 = 0].
    The constructor keeps a positive [waitMin] below 4ns as it is, the
    first backoff of such a transport panics, and so does [RoundTrip] as
    soon as a first attempt of a retried request fails without a usable
    header. *)
Theorem backoff_panics_below_4ns {W : Type} (E : Env W) :
  (forall (t : retryTransport W) attempt resp w tr wait,
     retryAfter t resp = None ->
     exponential t attempt = Some wait ->
     (panics (backoff E t attempt resp w tr) <-> 0 < wait < 4))
  /\ (forall b k wmin wmax w tr,
        0 < wmin < 4 ->
        waitMin (newRetryTransport E b k wmin wmax) = wmin
        /\ backoff E (newRetryTransport E b k wmin wmax) 0 None w tr
           = Panicked "invalid argument to Int63n" w tr)
  /\ (forall b k wmin wmax (req : Request W) w r w1,
        0 < wmin < 4 -> 1 <= k ->
        let t := newRetryTransport E (Some b) k wmin wmax in
        isIdempotent t req = true ->
        b req w = (r, w1) ->
        retryable r = true ->
        retryAfter t (fst r) = None ->
        panics (RoundTrip E t req w [])).
Proof.
  assert (Hfirst : forall b k wmin wmax w tr,
    0 < wmin < 4 ->
    waitMin (newRetryTransport E b k wmin wmax) = wmin
    /\ forall resp, retryAfter (newRetryTransport E b k wmin wmax) resp = None ->
       backoff E (newRetryTransport E b k wmin wmax) 0 resp w tr
       = Panicked "invalid argument to Int63n" w tr).
  { intros b k wmin wmax w tr Hw.
    destruct (newRetryTransport_waits E b k wmin wmax) as (Hmin & _ & Hmax & Hmax0).
    specialize (Hmin ltac:(lia)). split; [exact Hmin|].
    intros resp Hra.
    set (t := newRetryTransport E b k wmin wmax) in *.
    assert (Hex : exists wait, exponential t 0 = Some wait /\ 0 < wait < 4).
    { unfold exponential. change (Int64.shl1 0) with (Some 1). rewrite Hmin.
      unfold Int64.mul. rewrite Z.mul_1_r.
      rewrite wrap_in_range
        by (unfold Int64.in_range, Int64.MinInt64, Int64.MaxInt64; lia).
      eexists. split; [reflexivity|].
      destruct (waitMax t <? wmin) eqn:Hc; [|lia].
      apply Z.ltb_lt in Hc.
      destruct (Z_le_gt_dec wmax 0) as [H0|H0].
      - rewrite (Hmax0 H0) in Hc. lia.
      - rewrite (Hmax ltac:(lia)) in *. lia. }
    destruct Hex as (wait & Hex & Hwait).
    now apply (backoff_tiny E t 0 resp w tr wait). }
  split; [|split].
  - intros t attempt resp w tr wait Hra Hex. split.
    + intros Hp.
      destruct (Z_le_gt_dec wait 0) as [Hle|Hgt].
      * rewrite (backoff_nonpositive E t attempt resp w tr wait Hra Hex Hle) in Hp.
        contradiction.
      * destruct (Z_lt_ge_dec wait 4) as [Hlt|Hge]; [lia|].
        destruct (backoff_exponential E t attempt resp w tr wait Hra Hex)
          as (j & w' & _ & Hb); [lia|].
        rewrite Hb in Hp. contradiction.
    + intros Hw. rewrite (backoff_tiny E t attempt resp w tr wait Hra Hex Hw).
      exact I.
  - intros b k wmin wmax w tr Hw.
    destruct (Hfirst b k wmin wmax w tr Hw) as [Hmin Hp].
    split; [exact Hmin|]. now apply Hp.
  - intros b k wmin wmax req w [resp err] w1 Hw Hk t Hid Hb Hretry Hra.
    simpl in Hra.
    destruct (newRetryTransport_maxRetries E (Some b) k wmin wmax) as [Hr5 Hrk].
    fold t in Hr5, Hrk.
    assert (Hpos : 1 <= maxRetries t).
    { destruct (Z_le_gt_dec k 5) as [H5|H5]; [rewrite Hrk; lia|].
      subst t. simpl. replace (k <? 0) with false by (symmetry; apply Z.ltb_ge; lia).
      now replace (5 <? k) with true by (symmetry; apply Z.ltb_lt; lia). }
    rewrite (RoundTrip_eligible E t req) by (lia || assumption).
    destruct (Z.to_nat (maxRetries t + 1)) as [|fuel] eqn:Hfuel; [lia|].
    rewrite (attempts_send E t fuel 0 req (None, None) w [] req w [] (resp, err) w1);
      [| lia | apply resetBody_first | exact Hb].
    rewrite afterRoundTrip_backoff by (assumption || lia).
    destruct (Hfirst (Some b) k wmin wmax (fst (drained E resp w1 ([] ++ [EvRoundTrip (Method req) (Body req) (resp, err)])))
                (snd (drained E resp w1 ([] ++ [EvRoundTrip (Method req) (Body req) (resp, err)]))) Hw)
      as [_ Hq].
    fold t in Hq. rewrite (Hq resp Hra). exact I.
Qed.

Lemma backoff_panics_below_4ns_witness :
  panics (RoundTrip Scripted.env (newRetryTransport Scripted.env (Some Scripted.server) 1 3 0)
            Scripted.get (Scripted.world [Scripted.failure 500 []] []) []).
Proof.
  apply (proj2 (proj2 (backoff_panics_below_4ns Scripted.env))
           Scripted.server 1 3 0 Scripted.get
           (Scripted.world [Scripted.failure 500 []] [])
           (Scripted.failure 500 [])
           (snd (Scripted.server Scripted.get (Scripted.world [Scripted.failure 500 []] []))));
    try lia; reflexivity.
Defined.

(** ** Traces of the attempt loop *)

Lemma roundTrips_app (a b : list Event) :
  roundTrips (a ++ b) = roundTrips a ++ roundTrips b.
Proof. apply filter_app. Qed.

Lemma attemptsMade_app (a b : list Event) :
  attemptsMade (a ++ b) = (attemptsMade a + attemptsMade b)%nat.
Proof. unfold attemptsMade. now rewrite roundTrips_app, length_app. Qed.

Lemma lastResult_app (a b : list Event) r :
  lastResult b = Some r -> lastResult (a ++ b) = Some r.
Proof.
  unfold lastResult. rewrite roundTrips_app, rev_app_distr.
  destruct (rev (roundTrips b)) as [|e l]; [discriminate|].
  now simpl.
Qed.

Section Traces.
Context {W : Type} (E : Env W).
Implicit Types (t : retryTransport W) (w : W) (tr : list Event)
  (req : Request W).

Lemma backoff_trace t attempt resp w tr :
  trace (backoff E t attempt resp w tr) = tr.
Proof.
  unfold backoff.
  destruct (retryAfter t resp); [reflexivity|].
  destruct (exponential t attempt) as [wait|]; [|reflexivity].
  destruct (0 <? wait); [|reflexivity].
  unfold bind, Int63n.
  destruct (Z.quot wait 4 <=? 0); [reflexivity|].
  now destruct (randomBelow E (Z.quot wait 4) w).
Qed.

Lemma drained_events resp w tr :
  exists dr, snd (drained E resp w tr) = tr ++ dr /\ roundTrips dr = [].
Proof.
  unfold drained. destruct resp as [r|]; [destruct (RespBody r) as [b|]|].
  - now exists [EvDrain b].
  - exists []. now rewrite app_nil_r.
  - exists []. now rewrite app_nil_r.
Qed.

(** [resetBody] returns, adds no call of the base transport, and
    changes nothing of the request but its body. *)
Lemma resetBody_returns attempt req w tr :
  exists req' bodyErr w1 ev,
    resetBody attempt req w tr = Returned (req', bodyErr) w1 (tr ++ ev)
    /\ roundTrips ev = []
    /\ GetBody req' = GetBody req /\ Method req' = Method req
    /\ Context req' = Context req
    /\ (forall e, bodyErr = Some e ->
         exists g w0, GetBody req = Some g /\ snd (fst (g w0)) = Some e).
Proof.
  unfold resetBody.
  destruct ((0 <? attempt) && notNil (Body req) && notNil (GetBody req)).
  2:{ exists req, None, w, []. rewrite app_nil_r.
      do 5 (split; [reflexivity|]). discriminate. }
  destruct (GetBody req) as [g|] eqn:Hg.
  2:{ exists req, None, w, []. rewrite app_nil_r.
      do 5 (split; [reflexivity || assumption|]). discriminate. }
  unfold bind, callGetBody.
  destruct (g w) as [[body bodyErr] w1] eqn:Hgw.
  destruct bodyErr as [e|]; simpl.
  - exists req, (Some e), w1, [EvGetBody (body, Some e)].
    do 5 (split; [reflexivity || assumption|]).
    intros e' He. inversion He; subst e'.
    exists g, w. split; [reflexivity|]. now rewrite Hgw.
  - exists (setBody req body), None, w1, [EvGetBody (body, None)].
    do 5 (split; [reflexivity || assumption|]). discriminate.
Qed.

(** Every outcome of the loop keeps the events it started with. *)
Lemma attempts_extends t fuel : forall attempt req last w tr,
  exists ev, trace (attempts E t fuel attempt req last w tr) = tr ++ ev.
Proof.
  induction fuel as [|fuel IH]; intros attempt req last w tr.
  - exists []. simpl. now rewrite app_nil_r.
  - simpl. destruct (attempt <=? maxRetries t).
    2:{ exists []. simpl. now rewrite app_nil_r. }
    destruct (resetBody_returns attempt req w tr)
      as (req' & bodyErr & w1 & ev & Hr & _).
    unfold bind at 1. rewrite Hr.
    destruct bodyErr as [e|]; simpl.
    { now exists ev. }
    unfold bind at 1. unfold callRoundTrip.
    destruct (base t req' w1) as [[resp err] w2].
    set (tr2 := (tr ++ ev) ++ [EvRoundTrip (Method req') (Body req') (resp, err)]).
    assert (Hgoal : exists ev2,
      trace (afterRoundTrip E t (attempts E t fuel) attempt req' (resp, err) w2 tr2)
      = tr2 ++ ev2).
    { destruct (retryable (resp, err)) eqn:Hretry.
      2:{ rewrite afterRoundTrip_final by assumption.
          exists []. simpl. now rewrite app_nil_r. }
      destruct (Z_lt_ge_dec attempt (maxRetries t)) as [Hlt|Hge].
      2:{ rewrite afterRoundTrip_last by (assumption || lia).
          exists []. simpl. now rewrite app_nil_r. }
      rewrite afterRoundTrip_backoff by assumption.
      destruct (drained_events resp w2 tr2) as (dr & Hdr & _).
      pose proof (backoff_trace t attempt resp (fst (drained E resp w2 tr2))
                    (snd (drained E resp w2 tr2))) as Hbt.
      destruct (backoff E t attempt resp _ _) as [wait w3 tr3|msg w3 tr3];
        simpl in Hbt; subst tr3.
      2:{ exists dr. simpl. exact Hdr. }
      destruct (waitOrDone E (Context req') wait w3) as [done w4].
      destruct (notNil done).
      { exists (dr ++ [EvWait wait done]). simpl. rewrite Hdr.
        now rewrite app_assoc. }
      destruct (IH (attempt + 1) req' (resp, err) w4
                  (snd (drained E resp w2 tr2) ++ [EvWait wait done])) as [ev3 H3].
      exists (dr ++ [EvWait wait done] ++ ev3). rewrite H3, Hdr.
      now rewrite !app_assoc. }
    destruct Hgoal as [ev2 H2].
    exists (ev ++ [EvRoundTrip (Method req') (Body req') (resp, err)] ++ ev2).
    rewrite H2. unfold tr2. now rewrite !app_assoc.
Qed.

End Traces.

(** ** The bound on the iterations *)

Section Fuel.
Context {W : Type} (E : Env W).

Lemma bind_ext {A B : Type} (m : M W A) (k k' : A -> M W B) w tr :
  (forall a w' tr', k a w' tr' = k' a w' tr') ->
  bind m k w tr = bind m k' w tr.
Proof.
  intros H. unfold bind. destruct (m w tr); [apply H | reflexivity].
Qed.

Lemma afterRoundTrip_ext (t : retryTransport W) next next' attempt req r w tr :
  (forall req' r' w' tr',
      next (attempt + 1) req' r' w' tr' = next' (attempt + 1) req' r' w' tr') ->
  afterRoundTrip E t next attempt req r w tr
    = afterRoundTrip E t next' attempt req r w tr.
Proof.
  intros H. unfold afterRoundTrip. destruct r as [resp err].
  destruct (isNil err && negb (shouldRetry t resp)); [reflexivity|].
  destruct (maxRetries t <=? attempt); [reflexivity|].
  apply bind_ext. intros _ w1 tr1.
  apply bind_ext. intros wait w2 tr2.
  apply bind_ext. intros done w3 tr3.
  destruct (notNil done); [reflexivity | apply H].
Qed.

(** The loop leaves by its own condition before the fuel given by
    [RoundTrip] runs out: more fuel changes nothing. *)
Lemma attempts_fuel_enough (t : retryTransport W) (fuel : nat) :
  forall extra attempt req last w tr,
    maxRetries t - attempt < Z.of_nat fuel ->
    attempts E t (fuel + extra) attempt req last w tr
      = attempts E t fuel attempt req last w tr.
Proof.
  induction fuel as [|fuel IH]; intros extra attempt req last w tr Hf.
  - simpl. destruct extra as [|extra]; [reflexivity|]. simpl.
    now replace (attempt <=? maxRetries t) with false
      by (symmetry; apply Z.leb_gt; lia).
  - simpl. destruct (attempt <=? maxRetries t); [|reflexivity].
    apply bind_ext. intros [req' bodyErr] w1 tr1.
    destruct (notNil bodyErr); [reflexivity|].
    apply bind_ext. intros r w2 tr2.
    apply afterRoundTrip_ext. intros req2 r2 w3 tr3.
    apply IH. lia.
Qed.

Lemma RoundTrip_fuel_enough (t : retryTransport W) extra req w tr :
  attempts E t (Z.to_nat (maxRetries t + 1) + extra) 0 req (None, None) w tr
    = attempts E t (Z.to_nat (maxRetries t + 1)) 0 req (None, None) w tr.
Proof. apply attempts_fuel_enough. lia. Qed.

End Fuel.

(** ** Request bodies on retries *)

(** C3 (counterexample).  A PUT whose body has no [GetBody] cannot be
    replayed.  With one retry configured and a first answer of 500, the
    request is sent a second time with the very same body reader, which
    the first attempt has read to its end: the server receives "payload"
    and then the empty string, and [RoundTrip] returns the second answer
    without an error. *)
Lemma unreplayable_body_is_sent_again :
  exists w',
    RoundTrip Scripted.env (Scripted.transport 1) Scripted.putOnce
      (Scripted.world [Scripted.failure 500 []] [0]) []
    = Returned Scripted.ok200 w'
        [EvRoundTrip MethodPut (Some 0%nat) (Scripted.failure 500 []);
         EvWait 500000000 None;
         EvRoundTrip MethodPut (Some 0%nat) Scripted.ok200]
    /\ Scripted.received w' = ["payload"; ""]
    /\ snd Scripted.ok200 = None.
Proof. eexists. repeat split; vm_compute; reflexivity. Qed.

(** C3 (amended).  At a retry ([attempt > 0]) of a request with a body:
    when the request has a [GetBody] and it succeeds, the next call of
    the base transport carries the body [GetBody] returned; when
    [GetBody] fails, the loop returns that error at once, with no further
    call of the base transport; when the request has no [GetBody], the
    next call of the base transport carries the old body. *)
Theorem body_reset_before_retry {W : Type} (E : Env W)
    (t : retryTransport W) (fuel : nat) (attempt : Z) (req : Request W)
    (last : result) (w : W) (tr : list Event) (b : BodyRef) :
  0 < attempt <= maxRetries t ->
  Body req = Some b ->
  match GetBody req with
  | Some g =>
    match g w with
    | ((body, None), w1) =>
      exists rest,
        trace (attempts E t (S fuel) attempt req last w tr)
        = tr ++ EvGetBody (body, None)
             :: EvRoundTrip (Method req) body (fst (base t (setBody req body) w1))
             :: rest
    | ((body, Some e), w1) =>
      attempts E t (S fuel) attempt req last w tr
      = Returned (None, Some e) w1 (tr ++ [EvGetBody (body, Some e)])
    end
  | None =>
    exists rest,
      trace (attempts E t (S fuel) attempt req last w tr)
      = tr ++ EvRoundTrip (Method req) (Some b) (fst (base t req w)) :: rest
  end.
Proof.
  intros Ha Hb.
  assert (Hafter : forall req' r w2 tr2, exists rest,
    trace (afterRoundTrip E t (attempts E t fuel) attempt req' r w2 tr2) = tr2 ++ rest).
  { intros req' [resp err] w2 tr2.
    destruct (retryable (resp, err)) eqn:Hretry.
    2:{ rewrite afterRoundTrip_final by assumption.
        exists []. simpl. now rewrite app_nil_r. }
    destruct (Z_lt_ge_dec attempt (maxRetries t)) as [Hlt|Hge].
    2:{ rewrite afterRoundTrip_last by (assumption || lia).
        exists []. simpl. now rewrite app_nil_r. }
    rewrite afterRoundTrip_backoff by assumption.
    destruct (drained_events E resp w2 tr2) as (dr & Hdr & _).
    pose proof (backoff_trace E t attempt resp (fst (drained E resp w2 tr2))
                  (snd (drained E resp w2 tr2))) as Hbt.
    destruct (backoff E t attempt resp _ _) as [wait w3 tr3|msg w3 tr3];
      simpl in Hbt; subst tr3.
    2:{ exists dr. simpl. exact Hdr. }
    destruct (waitOrDone E (Context req') wait w3) as [done w4].
    destruct (notNil done).
    { exists (dr ++ [EvWait wait done]). simpl. rewrite Hdr.
      now rewrite app_assoc. }
    destruct (attempts_extends E t fuel (attempt + 1) req' (resp, err) w4
                (snd (drained E resp w2 tr2) ++ [EvWait wait done])) as [ev3 H3].
    exists (dr ++ [EvWait wait done] ++ ev3). rewrite H3, Hdr.
    now rewrite !app_assoc. }
  destruct (GetBody req) as [g|] eqn:Hg.
  - destruct (g w) as [[body bodyErr] w1] eqn:Hgw.
    pose proof (resetBody_GetBody attempt req w tr b g body bodyErr w1
                  ltac:(lia) Hb Hg Hgw) as Hr.
    destruct bodyErr as [e|].
    + apply (attempts_bodyErr E t fuel attempt req last w tr req e w1); [lia | exact Hr].
    + destruct (base t (setBody req body) w1) as [r w2] eqn:Hbase.
      rewrite (attempts_send E t fuel attempt req last w tr (setBody req body) w1
                 (tr ++ [EvGetBody (body, None)]) r w2); [| lia | exact Hr | exact Hbase].
      destruct (Hafter (setBody req body) r w2
                  ((tr ++ [EvGetBody (body, None)])
                     ++ [EvRoundTrip (Method (setBody req body))
                           (Body (setBody req body)) r])) as [rest Hrest].
      exists rest. rewrite Hrest. simpl. now rewrite <- !app_assoc.
  - destruct (base t req w) as [r w2] eqn:Hbase.
    rewrite (attempts_send E t fuel attempt req last w tr req w tr r w2);
      [| lia | now apply resetBody_no_GetBody | exact Hbase].
    destruct (Hafter req r w2 (tr ++ [EvRoundTrip (Method req) (Body req) r]))
      as [rest Hrest].
    exists rest. rewrite Hrest, Hb. simpl. now rewrite <- !app_assoc.
Qed.

(** The retry of a PUT with a replayable body, and of one whose
    [GetBody] fails. *)
Lemma body_reset_before_retry_witness :
  let w := Scripted.world [] [] in
  (exists rest,
     trace (attempts Scripted.env (Scripted.transport 1) 1 1 Scripted.putReplay
              (None, None) w [])
     = [] ++ EvGetBody (Some 1%nat, None)
            :: EvRoundTrip MethodPut (Some 1%nat) Scripted.ok200 :: rest)
  /\ attempts Scripted.env (Scripted.transport 1) 1 1 Scripted.putBroken
        (None, None) w []
      = Returned (None, Some "cannot rewind body") w
          ([] ++ [EvGetBody (None, Some "cannot rewind body")]).
Proof.
  intros w. split.
  - exact (body_reset_before_retry Scripted.env (Scripted.transport 1) 0 1
             Scripted.putReplay (None, None) w [] 0%nat
             ltac:(vm_compute; split; [reflexivity | discriminate]) eq_refl).
  - exact (body_reset_before_retry Scripted.env (Scripted.transport 1) 0 1
             Scripted.putBroken (None, None) w [] 0%nat
             ltac:(vm_compute; split; [reflexivity | discriminate]) eq_refl).
Defined.

(** ** Exhausted retries *)

Section Exhaustion.
Context {W : Type} (E : Env W).
Variable t : retryTransport W.

(** Every attempt fails retryably. *)
Hypothesis always_failing : forall req w, retryable (fst (base t req w)) = true.
(** The context is never done during a wait. *)
Hypothesis never_done : forall ctx wait w, fst (waitOrDone E ctx wait w) = None.
(** The waits are such that [backoff] does not panic. *)
Hypothesis waitMin_ok : 4 <= waitMin t <= Int64.MaxInt64.
Hypothesis waitMax_ok : ~ (1 <= waitMax t <= 3).
Hypothesis maxRetries_ok : maxRetries t <= 5.

Lemma attempts_exhaust (fuel : nat) :
  forall attempt (req : Request W) last w tr,
    0 <= attempt ->
    Z.of_nat fuel = maxRetries t - attempt ->
    (forall g w0, GetBody req = Some g -> snd (fst (g w0)) = None) ->
    exists r w' ev,
      attempts E t (S fuel) attempt req last w tr = Returned r w' (tr ++ ev)
      /\ attemptsMade ev = S fuel
      /\ lastResult ev = Some r.
Proof.
  induction fuel as [|fuel IH]; intros attempt req last w tr Ha Hfuel Hbody.
  - destruct (resetBody_returns attempt req w tr)
      as (req' & bodyErr & w1 & ev & Hr & Hev & HG & _ & _ & Herr).
    destruct bodyErr as [e|].
    { destruct (Herr e eq_refl) as (g & w0 & Hg & He).
      rewrite (Hbody g w0 Hg) in He. discriminate. }
    destruct (base t req' w1) as [[resp err] w2] eqn:Hb.
    pose proof (always_failing req' w1) as Hretry. rewrite Hb in Hretry. simpl in Hretry.
    rewrite (attempts_send E t 0 attempt req last w tr req' w1 (tr ++ ev) (resp, err) w2);
      [| lia | exact Hr | exact Hb].
    rewrite afterRoundTrip_last by (assumption || lia).
    exists (resp, err), w2, (ev ++ [EvRoundTrip (Method req') (Body req') (resp, err)]).
    split; [now rewrite app_assoc|]. split.
    + rewrite attemptsMade_app. unfold attemptsMade at 1. now rewrite Hev.
    + now apply lastResult_app.
  - destruct (resetBody_returns attempt req w tr)
      as (req' & bodyErr & w1 & ev & Hr & Hev & HG & _ & _ & Herr).
    destruct bodyErr as [e|].
    { destruct (Herr e eq_refl) as (g & w0 & Hg & He).
      rewrite (Hbody g w0 Hg) in He. discriminate. }
    destruct (base t req' w1) as [[resp err] w2] eqn:Hb.
    pose proof (always_failing req' w1) as Hretry. rewrite Hb in Hretry. simpl in Hretry.
    rewrite (attempts_send E t (S fuel) attempt req last w tr req' w1 (tr ++ ev)
               (resp, err) w2); [| lia | exact Hr | exact Hb].
    rewrite afterRoundTrip_backoff by (assumption || lia).
    set (tr2 := (tr ++ ev) ++ [EvRoundTrip (Method req') (Body req') (resp, err)]).
    destruct (drained_events E resp w2 tr2) as (dr & Hdr & Hdr0).
    destruct (backoff_returns E t attempt resp (fst (drained E resp w2 tr2))
                (snd (drained E resp w2 tr2)) waitMin_ok waitMax_ok ltac:(lia))
      as (wait & w3 & Hbk).
    rewrite Hbk.
    pose proof (never_done (Context req') wait w3) as Hnd.
    destruct (waitOrDone E (Context req') wait w3) as [done w4].
    simpl in Hnd. subst done. simpl notNil. cbv iota.
    destruct (IH (attempt + 1) req' (resp, err) w4
                (snd (drained E resp w2 tr2) ++ [EvWait wait None]))
      as (r & w' & ev' & Hrun & Hn & Hl).
    { lia. }
    { lia. }
    { intros g w0 Hg. apply Hbody. now rewrite <- HG. }
    rewrite Hrun, Hdr. unfold tr2.
    exists r, w',
      (ev ++ [EvRoundTrip (Method req') (Body req') (resp, err)] ++ dr
          ++ [EvWait wait None] ++ ev').
    split; [now rewrite <- !app_assoc|]. split.
    + rewrite !attemptsMade_app. unfold attemptsMade at 1 3. rewrite Hev, Hdr0, Hn.
      reflexivity.
    + rewrite !app_assoc. now apply lastResult_app.
Qed.

End Exhaustion.

(** C5 (counterexample).  A client configured with 2 retries sends a
    retry-eligible request to a server that answers 503 to every
    attempt.  When the context is done during the first wait, when the
    [GetBody] of the request fails, or when the smallest wait is 3ns,
    the base transport is called once, not three times: in the first two
    cases [RoundTrip] returns a nil response with the error of the
    context or of [GetBody], not the answer of the last attempt, and in
    the third it panics. *)
Lemma retries_cut_short :
  let w := Scripted.world [] [5; 6] in
  let cancelled :=
    Scripted.mkWorld [] [(0%nat, "payload")] 1%nat [] [5; 6] (Some 0%nat) 0%nat in
  let t := newRetryTransport Scripted.patient (Some Scripted.down) 2 0 0 in
  let tiny := newRetryTransport Scripted.patient (Some Scripted.down) 2 3 0 in
  (forall req w', retryable (fst (Scripted.down req w')) = true)
  /\ maxRetries t = 2 /\ maxRetries tiny = 2
  /\ isIdempotent t Scripted.get = true /\ isIdempotent t Scripted.putBroken = true
  /\ Scripted.outcome_of
       (RoundTrip Scripted.env (newRetryTransport Scripted.env (Some Scripted.down) 2 0 0)
          Scripted.get cancelled [])
     = Some (None, Some "context canceled", 1%nat)
  /\ Scripted.outcome_of (RoundTrip Scripted.patient t Scripted.putBroken w [])
     = Some (None, Some "cannot rewind body", 1%nat)
  /\ panics (RoundTrip Scripted.patient tiny Scripted.get w [])
  /\ attemptsMade (trace (RoundTrip Scripted.patient tiny Scripted.get w [])) = 1%nat.
Proof.
  intros w cancelled t tiny.
  split; [intros req w'; reflexivity|].
  split; [reflexivity|]. split; [reflexivity|].
  split; [reflexivity|]. split; [reflexivity|].
  split; [vm_compute; reflexivity|].
  split; [vm_compute; reflexivity|].
  split; [vm_compute; exact I | vm_compute; reflexivity].
Qed.

(** C5.  A client configured with [k] retries, [1 <= k <= 5], sends a
    retry-eligible request for which every attempt fails retryably.  When
    no wait is cut short by the context, the body (if any) can be
    replayed and the configured waits are not between 1ns and 3ns,
    [RoundTrip] calls the base transport exactly [k + 1] times and
    returns what the last call returned, as it is. *)
Theorem retries_exhausted {W : Type} (E : Env W) (b : RoundTripper W)
    (k wmin wmax : Z) (req : Request W) (w : W) :
  1 <= k <= 5 ->
  wmin <= Int64.MaxInt64 -> ~ (1 <= wmin <= 3) -> ~ (1 <= wmax <= 3) ->
  isIdempotent (newRetryTransport E (Some b) k wmin wmax) req = true ->
  (forall req' w', retryable (fst (b req' w')) = true) ->
  (forall ctx wait w', fst (waitOrDone E ctx wait w') = None) ->
  (forall g w', GetBody req = Some g -> snd (fst (g w')) = None) ->
  exists r w' tr,
    RoundTrip E (newRetryTransport E (Some b) k wmin wmax) req w [] = Returned r w' tr
    /\ attemptsMade tr = Z.to_nat (k + 1)
    /\ lastResult tr = Some r.
Proof.
  intros Hk Hmin_range Hmin Hmax Hid Hfail Hdone Hbody.
  set (t := newRetryTransport E (Some b) k wmin wmax) in *.
  destruct (newRetryTransport_maxRetries E (Some b) k wmin wmax) as [_ Hrk].
  fold t in Hrk. specialize (Hrk ltac:(lia)).
  destruct (newRetryTransport_waits E (Some b) k wmin wmax)
    as (Hwmin & Hwmin0 & Hwmax & Hwmax0).
  fold t in Hwmin, Hwmin0, Hwmax, Hwmax0.
  assert (Hmin_ok : 4 <= waitMin t <= Int64.MaxInt64).
  { destruct (Z_le_gt_dec wmin 0) as [H0|H0].
    - rewrite (Hwmin0 H0). unfold Int64.MaxInt64. lia.
    - rewrite (Hwmin ltac:(lia)). lia. }
  assert (Hmax_ok : ~ (1 <= waitMax t <= 3)).
  { destruct (Z_le_gt_dec wmax 0) as [H0|H0].
    - rewrite (Hwmax0 H0). lia.
    - now rewrite (Hwmax ltac:(lia)). }
  rewrite (RoundTrip_eligible E t req) by (lia || assumption).
  rewrite Hrk.
  assert (Hfuel : Z.to_nat (k + 1) = S (Z.to_nat k)) by lia.
  rewrite Hfuel.
  destruct (attempts_exhaust E t Hfail Hdone Hmin_ok Hmax_ok ltac:(lia)
              (Z.to_nat k) 0 req (None, None) w []) as (r & w' & ev & Hrun & Hn & Hl).
  { lia. }
  { lia. }
  { exact Hbody. }
  exists r, w', ev. split; [exact Hrun|]. split; assumption.
Qed.

(** Two retries against a server that is down: three calls, the third
    answer is returned. *)
Lemma retries_exhausted_witness :
  exists r w' tr,
    RoundTrip Scripted.patient
      (newRetryTransport Scripted.patient (Some Scripted.down) 2 0 0)
      Scripted.get (Scripted.world [] [5; 6]) [] = Returned r w' tr
    /\ attemptsMade tr = Z.to_nat (2 + 1)
    /\ lastResult tr = Some r.
Proof.
  apply (retries_exhausted Scripted.patient Scripted.down 2 0 0 Scripted.get
           (Scripted.world [] [5; 6])).
  - lia.
  - unfold Int64.MaxInt64. lia.
  - lia.
  - lia.
  - reflexivity.
  - intros req' w'. reflexivity.
  - intros ctx wait w'. reflexivity.
  - intros g w' H. discriminate H.
Defined.

End TransportFacts.
(* ===================================================================== *)
(** * More on the retrying transport *)
(* ===================================================================== *)

Module TransportProps.
Import Http Transport TransportFacts Protocol.
Import Int64Facts.

(** ** What one pass of the loop does to the world and the events *)

Section Steps.
Context {W : Type} (E : Env W).
Implicit Types (t : retryTransport W) (w : W) (tr : list Event)
  (req : Request W).

(** [resetBody] leaves the request alone, or (on a retry) calls
    [GetBody] once. *)
Lemma resetBody_cases attempt req w tr :
  resetBody attempt req w tr = Returned (req, None) w tr
  \/ (0 < attempt
      /\ exists g body bodyErr w1,
           GetBody req = Some g /\ g w = ((body, bodyErr), w1)
           /\ resetBody attempt req w tr
              = Returned (match bodyErr with
                          | Some e => (req, Some e)
                          | None => (setBody req body, None)
                          end) w1 (tr ++ [EvGetBody (body, bodyErr)])).
Proof.
  unfold resetBody.
  destruct (0 <? attempt) eqn:Ha; [|now left].
  apply Z.ltb_lt in Ha.
  destruct (Body req) as [b|]; [|now left].
  destruct (GetBody req) as [g|] eqn:Hg; [|now left].
  right. split; [exact Ha|]. simpl.
  destruct (g w) as [[body bodyErr] w1] eqn:Hgw.
  exists g, body, bodyErr, w1.
  split; [reflexivity|]. split; [exact Hgw|].
  unfold bind, callGetBody. rewrite Hgw.
  destruct bodyErr; reflexivity.
Qed.

(** [backoff] touches the world through the random source only. *)
Lemma backoff_world t attempt resp w tr :
  match backoff E t attempt resp w tr with
  | Returned _ w' _ => w' = w \/ exists n, w' = snd (randomBelow E n w)
  | Panicked _ w' _ => w' = w
  end.
Proof.
  unfold backoff.
  destruct (retryAfter t resp); [now left|].
  destruct (exponential t attempt) as [wait|]; [|reflexivity].
  destruct (0 <? wait); [|now left].
  unfold bind, Int63n.
  destruct (Z.quot wait 4 <=? 0); [reflexivity|].
  destruct (randomBelow E (Z.quot wait 4) w) as [j w'] eqn:Hr.
  right. exists (Z.quot wait 4). now rewrite Hr.
Qed.

Lemma drained_world resp w tr :
  fst (drained E resp w tr) = w
  \/ exists b, fst (drained E resp w tr) = drainAndClose E b w.
Proof.
  unfold drained. destruct resp as [r|]; [destruct (RespBody r) as [b|]|].
  - right. now exists b.
  - now left.
  - now left.
Qed.

End Steps.

(** ** The number of attempts *)

Section Count.
Context {W : Type} (E : Env W).
Implicit Types (t : retryTransport W) (w : W) (tr : list Event)
  (req : Request W).

(** After a call of the base transport the loop makes at most as many
    further calls as it has iterations left, whatever happens. *)
Lemma afterRoundTrip_bounded t fuel attempt req r w tr :
  (forall attempt' req' last' w' tr',
      exists ev, trace (attempts E t fuel attempt' req' last' w' tr') = tr' ++ ev
                 /\ (attemptsMade ev <= fuel)%nat) ->
  exists ev,
    trace (afterRoundTrip E t (attempts E t fuel) attempt req r w tr) = tr ++ ev
    /\ (attemptsMade ev <= fuel)%nat.
Proof.
  intros IH. destruct r as [resp err].
  destruct (retryable (resp, err)) eqn:Hretry.
  2:{ rewrite afterRoundTrip_final by assumption.
      exists []. simpl. rewrite app_nil_r. split; [reflexivity | apply Nat.le_0_l]. }
  destruct (Z_lt_ge_dec attempt (maxRetries t)) as [Hlt|Hge].
  2:{ rewrite afterRoundTrip_last by (assumption || lia).
      exists []. simpl. rewrite app_nil_r. split; [reflexivity | apply Nat.le_0_l]. }
  rewrite afterRoundTrip_backoff by assumption.
  destruct (drained_events E resp w tr) as (dr & Hdr & Hdr0).
  pose proof (backoff_trace E t attempt resp (fst (drained E resp w tr))
                (snd (drained E resp w tr))) as Hbt.
  destruct (backoff E t attempt resp _ _) as [wait w3 tr3|msg w3 tr3];
    simpl in Hbt; subst tr3.
  2:{ exists dr. simpl. split; [exact Hdr|].
      unfold attemptsMade. rewrite Hdr0. simpl. lia. }
  destruct (waitOrDone E (Context req) wait w3) as [done w4].
  destruct (notNil done).
  { exists (dr ++ [EvWait wait done]). simpl. rewrite Hdr.
    split; [now rewrite app_assoc|].
    rewrite attemptsMade_app. unfold attemptsMade. rewrite Hdr0. simpl. lia. }
  destruct (IH (attempt + 1) req (resp, err) w4
              (snd (drained E resp w tr) ++ [EvWait wait done])) as (ev3 & H3 & Hn3).
  exists (dr ++ [EvWait wait done] ++ ev3). rewrite H3, Hdr.
  split; [now rewrite !app_assoc|].
  rewrite !attemptsMade_app. unfold attemptsMade at 1 2. rewrite Hdr0. simpl. lia.
Qed.

Lemma attempts_bounded t fuel : forall attempt req last w tr,
  exists ev, trace (attempts E t fuel attempt req last w tr) = tr ++ ev
             /\ (attemptsMade ev <= fuel)%nat.
Proof.
  induction fuel as [|fuel IH]; intros attempt req last w tr.
  - exists []. simpl. rewrite app_nil_r. split; [reflexivity | apply Nat.le_0_l].
  - simpl. destruct (attempt <=? maxRetries t).
    2:{ exists []. simpl. rewrite app_nil_r. split; [reflexivity | apply Nat.le_0_l]. }
    destruct (resetBody_returns attempt req w tr)
      as (req' & bodyErr & w1 & ev & Hr & Hev & _).
    unfold bind at 1. rewrite Hr.
    destruct bodyErr as [e|]; simpl.
    { exists ev. split; [reflexivity|]. unfold attemptsMade. rewrite Hev. simpl. lia. }
    unfold bind at 1. unfold callRoundTrip.
    destruct (base t req' w1) as [r w2].
    destruct (afterRoundTrip_bounded t fuel attempt req' r w2
                ((tr ++ ev) ++ [EvRoundTrip (Method req') (Body req') r]) IH)
      as (ev2 & H2 & Hn2).
    exists (ev ++ [EvRoundTrip (Method req') (Body req') r] ++ ev2).
    rewrite H2. split; [now rewrite !app_assoc|].
    rewrite !attemptsMade_app. unfold attemptsMade at 1 2. rewrite Hev. simpl. lia.
Qed.

(** The first pass of the loop calls the base transport. *)
Lemma attempts_first t fuel req last w tr :
  0 <= maxRetries t ->
  exists ev,
    trace (attempts E t (S fuel) 0 req last w tr)
    = tr ++ EvRoundTrip (Method req) (Body req) (fst (base t req w)) :: ev
    /\ (attemptsMade ev <= fuel)%nat.
Proof.
  intros Hm. destruct (base t req w) as [r w2] eqn:Hb.
  rewrite (attempts_send E t fuel 0 req last w tr req w tr r w2);
    [| lia | apply resetBody_first | exact Hb].
  destruct (afterRoundTrip_bounded t fuel 0 req r w2
              (tr ++ [EvRoundTrip (Method req) (Body req) r])
              (attempts_bounded t fuel)) as (ev & Hev & Hn).
  exists ev. rewrite Hev. simpl. split; [now rewrite <- app_assoc | exact Hn].
Qed.

End Count.

(** X8.  Whatever the base transport answers, whatever the random source
    and the context do, and whether the call returns or panics, one
    [RoundTrip] of a transport made by [newRetryTransport] calls the base
    transport at least once and at most once more than the number of
    retries, which the constructor has brought into the range from 0 to
    5: at most six times. *)
Theorem attempts_between_one_and_retries_plus_one {W : Type} (E : Env W)
    (b : option (RoundTripper W)) (k wmin wmax : Z) (req : Request W) (w : W) :
  let t := newRetryTransport E b k wmin wmax in
  maxRetries t = Z.min (Z.max k 0) 5
  /\ (1 <= attemptsMade (trace (RoundTrip E t req w []))
      <= Z.to_nat (maxRetries t) + 1)%nat.
Proof.
  intros t.
  destruct (newRetryTransport_maxRetries E b k wmin wmax) as [Hrange Hkeep].
  fold t in Hrange, Hkeep.
  split.
  { unfold t. simpl. destruct (k <? 0) eqn:H0.
    - apply Z.ltb_lt in H0. simpl. lia.
    - apply Z.ltb_ge in H0. destruct (5 <? k) eqn:H5.
      + apply Z.ltb_lt in H5. lia.
      + apply Z.ltb_ge in H5. lia. }
  assert (Hone : forall tt' : retryTransport W,
             attemptsMade (trace (callRoundTrip (base tt') req w [])) = 1%nat).
  { intros tt'. unfold callRoundTrip. now destruct (base tt' req w). }
  unfold RoundTrip.
  destruct (maxRetries t =? 0) eqn:Hz.
  { rewrite Hone. lia. }
  destruct (isIdempotent t req).
  2:{ cbn [negb]. rewrite Hone. lia. }
  cbn [negb].
  replace (Z.to_nat (maxRetries t + 1)) with (S (Z.to_nat (maxRetries t)))
    by lia.
  destruct (attempts_first E t (Z.to_nat (maxRetries t)) req (None, None) w []
              ltac:(lia)) as (ev & Hev & Hn).
  rewrite Hev. unfold attemptsMade, roundTrips in *.
  cbn [app filter isRoundTrip List.length]. lia.
Qed.

(** X9.  A result that is not to be retried (a response with a status
    below 500 other than 429, without an error) is returned after the
    one call of the base transport that produced it: nothing is drained,
    no wait is made and no second call, whatever the number of retries
    and the method. *)
Theorem final_result_is_returned_at_once {W : Type} (E : Env W)
    (t : retryTransport W) (req : Request W) (w w1 : W) (r : result) :
  0 <= maxRetries t ->
  base t req w = (r, w1) ->
  retryable r = false ->
  RoundTrip E t req w [] = Returned r w1 [EvRoundTrip (Method req) (Body req) r].
Proof.
  intros Hm Hb Hr.
  destruct (Z.eq_dec (maxRetries t) 0) as [H0|H0].
  { rewrite RoundTrip_disabled by assumption. unfold callRoundTrip. now rewrite Hb. }
  destruct (isIdempotent t req) eqn:Hi.
  2:{ unfold RoundTrip. rewrite Hi.
      replace (maxRetries t =? 0) with false by (symmetry; now apply Z.eqb_neq).
      cbn [negb]. unfold callRoundTrip. now rewrite Hb. }
  rewrite RoundTrip_eligible by assumption.
  replace (Z.to_nat (maxRetries t + 1)) with (S (Z.to_nat (maxRetries t))) by lia.
  rewrite (attempts_send E t _ 0 req (None, None) w [] req w [] r w1);
    [| lia | apply resetBody_first | exact Hb].
  destruct r as [resp err].
  rewrite afterRoundTrip_final by assumption.
  destruct err as [e|]; [destruct resp; discriminate Hr | reflexivity].
Qed.

Lemma final_result_is_returned_at_once_witness :
  RoundTrip Scripted.env (Scripted.transport 3) Scripted.post
    (Scripted.world [Scripted.failure 404 []] []) []
  = Returned (Scripted.failure 404 [])
      (snd (Scripted.server Scripted.post (Scripted.world [Scripted.failure 404 []] [])))
      [EvRoundTrip MethodPost (Some 0%nat) (Scripted.failure 404 [])].
Proof.
  apply (final_result_is_returned_at_once Scripted.env (Scripted.transport 3)
           Scripted.post (Scripted.world [Scripted.failure 404 []] [])).
  - vm_compute. discriminate.
  - reflexivity.
  - reflexivity.
Defined.

(** X10.  With a context that is done whenever the transport waits (it
    was cancelled before or during the call), a retry-eligible request
    whose first attempt fails retryably is not sent again: the transport
    drains the failed response, starts the wait, and returns a nil
    response with the error of the context, the failed response being
    dropped. *)
Theorem cancelled_context_stops_retrying {W : Type} (E : Env W)
    (t : retryTransport W) (req : Request W) (w : W) (e : error) :
  1 <= maxRetries t ->
  4 <= waitMin t <= Int64.MaxInt64 -> ~ (1 <= waitMax t <= 3) ->
  isIdempotent t req = true ->
  retryable (fst (base t req w)) = true ->
  (forall wait w', fst (waitOrDone E (Context req) wait w') = Some e) ->
  exists w' tr wait,
    RoundTrip E t req w [] = Returned (None, Some e) w' tr
    /\ attemptsMade tr = 1%nat
    /\ lastResult tr = Some (fst (base t req w))
    /\ waits tr = [wait].
Proof.
  intros Hm Hmin Hmax Hi Hretry Hdone.
  rewrite RoundTrip_eligible by (assumption || lia).
  replace (Z.to_nat (maxRetries t + 1)) with (S (Z.to_nat (maxRetries t))) by lia.
  destruct (base t req w) as [[resp err] w1] eqn:Hb. simpl in Hretry.
  rewrite (attempts_send E t _ 0 req (None, None) w [] req w [] (resp, err) w1);
    [| lia | apply resetBody_first | exact Hb].
  rewrite afterRoundTrip_backoff by (assumption || lia).
  set (tr1 := [] ++ [EvRoundTrip (Method req) (Body req) (resp, err)]).
  destruct (backoff_returns E t 0 resp (fst (drained E resp w1 tr1))
              (snd (drained E resp w1 tr1)) Hmin Hmax ltac:(lia))
    as (wait & w3 & Hbk).
  rewrite Hbk.
  pose proof (Hdone wait w3) as Hd.
  destruct (waitOrDone E (Context req) wait w3) as [done w4].
  simpl in Hd. subst done. cbn [notNil isNil negb].
  exists w4, (snd (drained E resp w1 tr1) ++ [EvWait wait (Some e)]), wait.
  split; [reflexivity|].
  unfold drained, tr1.
  destruct resp as [r|]; [destruct (RespBody r) as [b|]|];
    (split; [reflexivity | split; reflexivity]).
Qed.

Lemma cancelled_context_stops_retrying_witness :
  exists w' tr wait,
    RoundTrip Cancelled.env (newRetryTransport Cancelled.env None 3 0 0) Scripted.get
      (Scripted.world [Scripted.failure 503 []] [7]) []
    = Returned (None, Some "context canceled") w' tr
    /\ attemptsMade tr = 1%nat
    /\ lastResult tr
       = Some (fst (Scripted.server Scripted.get
                      (Scripted.world [Scripted.failure 503 []] [7])))
    /\ waits tr = [wait].
Proof.
  apply (cancelled_context_stops_retrying Cancelled.env
           (newRetryTransport Cancelled.env None 3 0 0) Scripted.get
           (Scripted.world [Scripted.failure 503 []] [7]) "context canceled").
  - simpl. lia.
  - vm_compute. split; discriminate.
  - vm_compute. intros [_ H]. now apply H.
  - reflexivity.
  - reflexivity.
  - intros wait w'. reflexivity.
Defined.

(** ** What the call returns *)

Lemma lastOf_snoc prev (tr : list Event) e : lastOf prev (tr ++ [e]) = Some e.
Proof. unfold lastOf. now rewrite fold_left_app. Qed.

Section Last.
Context {W : Type} (E : Env W).
Implicit Types (t : retryTransport W) (w : W) (tr : list Event)
  (req : Request W).

Lemma afterRoundTrip_explained t fuel attempt req m b resp err w tr0 r w' tr' :
  (forall req' last' w1 tr1,
      attempts E t fuel (attempt + 1) req' last' w1 tr1 = Returned r w' tr' ->
      attempt < maxRetries t ->
      explains (lastOf None tr') r) ->
  afterRoundTrip E t (attempts E t fuel) attempt req (resp, err) w
    (tr0 ++ [EvRoundTrip m b (resp, err)]) = Returned r w' tr' ->
  explains (lastOf None tr') r.
Proof.
  intros IH H.
  destruct (retryable (resp, err)) eqn:Hretry.
  2:{ rewrite afterRoundTrip_final in H by assumption.
      inversion H; subst. rewrite lastOf_snoc. simpl.
      destruct err; [destruct resp; discriminate Hretry | reflexivity]. }
  destruct (Z_lt_ge_dec attempt (maxRetries t)) as [Hlt|Hge].
  2:{ rewrite afterRoundTrip_last in H by (assumption || lia).
      inversion H; subst. rewrite lastOf_snoc. reflexivity. }
  rewrite afterRoundTrip_backoff in H by assumption.
  destruct (backoff E t attempt resp _ _) as [wait w3 tr3|msg w3 tr3];
    [|discriminate H].
  destruct (waitOrDone E (Context req) wait w3) as [[e|] w4].
  - cbn [notNil isNil negb] in H. inversion H; subst.
    rewrite lastOf_snoc. reflexivity.
  - cbn [notNil isNil negb] in H. exact (IH _ _ _ _ H Hlt).
Qed.

Lemma attempts_explained t fuel : forall attempt req last w tr r w' tr',
  Z.of_nat fuel = maxRetries t + 1 - attempt ->
  attempt <= maxRetries t ->
  attempts E t fuel attempt req last w tr = Returned r w' tr' ->
  explains (lastOf None tr') r.
Proof.
  induction fuel as [|fuel IH]; intros attempt req last w tr r w' tr' Hf Ha H.
  { lia. }
  assert (Hnext : forall req' last' w1 tr1,
             attempts E t fuel (attempt + 1) req' last' w1 tr1 = Returned r w' tr' ->
             attempt < maxRetries t ->
             explains (lastOf None tr') r).
  { intros req' last' w1 tr1 H1 Hlt.
    apply (IH (attempt + 1) req' last' w1 tr1 r w' tr'); [lia | lia | exact H1]. }
  destruct (resetBody_cases attempt req w tr)
    as [Hr | (Hpos & g & body & bodyErr & w1 & Hg & Hgw & Hr)].
  - destruct (base t req w) as [[resp err] w2] eqn:Hb.
    rewrite (attempts_send E t fuel attempt req last w tr req w tr (resp, err) w2)
      in H; [| exact Ha | exact Hr | exact Hb].
    exact (afterRoundTrip_explained t fuel attempt req _ _ resp err w2 tr r w' tr' Hnext H).
  - destruct bodyErr as [e|].
    + rewrite (attempts_bodyErr E t fuel attempt req last w tr req e w1 _ Ha Hr) in H.
      inversion H; subst. rewrite lastOf_snoc. reflexivity.
    + destruct (base t (setBody req body) w1) as [[resp err] w2] eqn:Hb.
      rewrite (attempts_send E t fuel attempt req last w tr (setBody req body) w1
                 (tr ++ [EvGetBody (body, None)]) (resp, err) w2) in H;
        [| exact Ha | exact Hr | exact Hb].
      exact (afterRoundTrip_explained t fuel attempt (setBody req body) _ _
               resp err w2 _ r w' tr' Hnext H).
Qed.

End Last.

(** X11.  When [RoundTrip] returns, what it returns is read off the last
    thing it did: after a call of the base transport it returns the
    result of that call as it is (so a response it returns has not been
    drained or closed by it, and every response before has been
    dropped); after a wait that the context cut short, a nil response
    with the error of the context; after a [GetBody] that failed, a nil
    response with that error.  It returns in no other situation. *)
Theorem result_follows_last_event {W : Type} (E : Env W)
    (t : retryTransport W) (req : Request W) (w w' : W) (r : result)
    (tr : list Event) :
  0 <= maxRetries t ->
  RoundTrip E t req w [] = Returned r w' tr ->
  explains (lastOf None tr) r.
Proof.
  intros Hm H.
  assert (Hcall : callRoundTrip (base t) req w [] = Returned r w' tr ->
                  explains (lastOf None tr) r).
  { unfold callRoundTrip. destruct (base t req w) as [r0 w0].
    intros H0. inversion H0; subst. reflexivity. }
  destruct (Z.eq_dec (maxRetries t) 0) as [H0|H0].
  { rewrite RoundTrip_disabled in H by assumption. now apply Hcall. }
  destruct (isIdempotent t req) eqn:Hi.
  2:{ unfold RoundTrip in H. rewrite Hi in H.
      replace (maxRetries t =? 0) with false in H by (symmetry; now apply Z.eqb_neq).
      now apply Hcall. }
  rewrite RoundTrip_eligible in H by assumption.
  apply (attempts_explained E t (Z.to_nat (maxRetries t + 1)) 0 req (None, None)
           w [] r w' tr); [lia | lia | exact H].
Qed.

Lemma result_follows_last_event_witness :
  explains
    (lastOf None [EvRoundTrip MethodGet None (Scripted.failure 500 []);
                  EvWait 500000000 None;
                  EvRoundTrip MethodGet None Scripted.ok200])
    Scripted.ok200.
Proof.
  eapply (result_follows_last_event Scripted.env (Scripted.transport 1) Scripted.get
            (Scripted.world [Scripted.failure 500 []] [0]) _ Scripted.ok200).
  - simpl. lia.
  - vm_compute. reflexivity.
Defined.

(** ** The length of a wait *)

Lemma wrap_le z : Int64.MinInt64 <= z -> Int64.wrap z <= z.
Proof.
  unfold Int64.MinInt64, Int64.wrap. intros H.
  pose proof (Z.mod_le (z + 2 ^ 63) (2 ^ 64) ltac:(lia) ltac:(lia)). lia.
Qed.

Lemma retryAfter_le {W : Type} (t : retryTransport W) resp d :
  retryAfter t resp = Some d -> d <= waitMax t.
Proof.
  unfold retryAfter. destruct resp as [r|]; [|discriminate].
  destruct (String.eqb _ _); [discriminate|].
  destruct (Strconv.Atoi _) as [secs|]; [|discriminate].
  destruct (0 <? secs); [|discriminate].
  intros H. inversion H as [Hd]. clear H.
  destruct (waitMax t <? Int64.mul secs Time.Second) eqn:Hc.
  - lia.
  - apply Z.ltb_ge in Hc. lia.
Qed.

Lemma exponential_le {W : Type} (t : retryTransport W) attempt d :
  exponential t attempt = Some d -> d <= waitMax t.
Proof.
  unfold exponential. destruct (Int64.shl1 attempt) as [p|]; [|discriminate].
  intros H. inversion H as [Hd]. clear H.
  destruct (waitMax t <? Int64.mul (waitMin t) p) eqn:Hc.
  - lia.
  - apply Z.ltb_ge in Hc. lia.
Qed.

(** The bound on one wait. *)
Lemma backoff_bound {W : Type} (E : Env W) (t : retryTransport W)
    (attempt : Z) (resp : option Response) (w w' : W) (tr tr' : list Event)
    (d : Z) :
  randomInRange E ->
  0 <= waitMax t ->
  backoff E t attempt resp w tr = Returned d w' tr' ->
  d <= waitMax t + waitMax t / 4
  /\ (retryAfter t resp <> None -> d <= waitMax t).
Proof.
  intros Hrand Hmax H.
  assert (Hq : 0 <= waitMax t / 4) by (apply Z.div_pos; lia).
  unfold backoff in H.
  destruct (retryAfter t resp) as [d0|] eqn:Hra.
  { inversion H; subst. apply retryAfter_le in Hra. split; [lia | intros _; lia]. }
  split; [|congruence].
  destruct (exponential t attempt) as [wait|] eqn:Hex; [|discriminate H].
  apply exponential_le in Hex.
  destruct (0 <? wait) eqn:Hpos.
  2:{ inversion H; subst. lia. }
  apply Z.ltb_lt in Hpos.
  unfold bind, Int63n in H.
  destruct (Z.quot wait 4 <=? 0) eqn:Hz; [discriminate H|].
  apply Z.leb_gt in Hz.
  pose proof (Hrand (Z.quot wait 4) w Hz) as Hj.
  destruct (randomBelow E (Z.quot wait 4) w) as [j w1]. simpl in Hj.
  inversion H; subst.
  rewrite Z.quot_div_nonneg in Hj by lia.
  pose proof (Z.div_le_mono wait (waitMax t) 4 ltac:(lia) Hex).
  pose proof (wrap_le (wait + j) ltac:(unfold Int64.MinInt64; lia)).
  unfold Int64.add. lia.
Qed.

(** X12.  With a random source that keeps its contract, no wait is
    longer than a quarter more than the largest wait, whatever the
    attempt number, the smallest wait and the [Retry-After] header say,
    and also when the arithmetic overflows; a wait read from
    [Retry-After] is not longer than the largest wait. *)
Theorem wait_is_bounded {W : Type} (E : Env W) (t : retryTransport W)
    (attempt : Z) (resp : option Response) (w w' : W) (tr tr' : list Event)
    (d : Z) :
  randomInRange E ->
  0 <= waitMax t ->
  backoff E t attempt resp w tr = Returned d w' tr' ->
  d <= waitMax t + waitMax t / 4
  /\ (retryAfter t resp <> None -> d <= waitMax t).
Proof.
  intros Hrand Hmax H.
  exact (backoff_bound E t attempt resp w w' tr tr' d Hrand Hmax H).
Qed.

Lemma wait_is_bounded_witness :
  let t := Scripted.transport 3 in
  2123456789 <= waitMax t + waitMax t / 4
  /\ (retryAfter t None <> None -> 2123456789 <= waitMax t).
Proof.
  intros t.
  eapply (wait_is_bounded Scripted.env t 2 None (Scripted.world [] [123456789]) _ [] []).
  - exact scripted_randomInRange.
  - vm_compute. discriminate.
  - vm_compute. reflexivity.
Defined.

(** ** The waits of a call *)

Lemma waits_app (a b : list Event) : waits (a ++ b) = waits a ++ waits b.
Proof.
  induction a as [|e a IH]; [reflexivity|].
  destruct e; simpl; now rewrite IH.
Qed.

Section Waits.
Context {W : Type} (E : Env W).
Variable t : retryTransport W.
Hypothesis random_ok : randomInRange E.
Hypothesis waitMax_ok : 0 <= waitMax t.

Lemma afterRoundTrip_waits fuel attempt (req : Request W) r w tr :
  (forall req' last' w' tr',
      exists ev, trace (attempts E t fuel (attempt + 1) req' last' w' tr') = tr' ++ ev
                 /\ (List.length (waits ev) <= Z.to_nat (maxRetries t - (attempt + 1)))%nat
                 /\ Forall (fun d => d <= waitMax t + waitMax t / 4) (waits ev)) ->
  exists ev,
    trace (afterRoundTrip E t (attempts E t fuel) attempt req r w tr) = tr ++ ev
    /\ (List.length (waits ev) <= Z.to_nat (maxRetries t - attempt))%nat
    /\ Forall (fun d => d <= waitMax t + waitMax t / 4) (waits ev).
Proof.
  intros IH. destruct r as [resp err].
  destruct (retryable (resp, err)) eqn:Hretry.
  2:{ rewrite afterRoundTrip_final by assumption.
      exists []. simpl. rewrite app_nil_r.
      split; [reflexivity|]. split; [apply Nat.le_0_l | constructor]. }
  destruct (Z_lt_ge_dec attempt (maxRetries t)) as [Hlt|Hge].
  2:{ rewrite afterRoundTrip_last by (assumption || lia).
      exists []. simpl. rewrite app_nil_r.
      split; [reflexivity|]. split; [apply Nat.le_0_l | constructor]. }
  rewrite afterRoundTrip_backoff by assumption.
  assert (Hd : exists dr, snd (drained E resp w tr) = tr ++ dr /\ waits dr = []).
  { unfold drained. destruct resp as [r|]; [destruct (RespBody r) as [b|]|].
    - now exists [EvDrain b].
    - exists []. now rewrite app_nil_r.
    - exists []. now rewrite app_nil_r. }
  destruct Hd as (dr & Hdr & Hdw).
  pose proof (backoff_trace E t attempt resp (fst (drained E resp w tr))
                (snd (drained E resp w tr))) as Hbt.
  destruct (backoff E t attempt resp _ _) as [wait w3 tr3|msg w3 tr3] eqn:Hbk;
    simpl in Hbt; subst tr3.
  2:{ exists dr. simpl. split; [exact Hdr|]. rewrite Hdw.
      split; [apply Nat.le_0_l | constructor]. }
  destruct (backoff_bound E t attempt resp _ _ _ _ wait random_ok waitMax_ok Hbk)
    as [Hshort _].
  destruct (waitOrDone E (Context req) wait w3) as [done w4].
  destruct (notNil done).
  { exists (dr ++ [EvWait wait done]). simpl. rewrite Hdr.
    split; [now rewrite app_assoc|].
    rewrite waits_app, Hdw. cbn [app waits List.length].
    split; [lia | now repeat constructor]. }
  destruct (IH req (resp, err) w4
              (snd (drained E resp w tr) ++ [EvWait wait done]))
    as (ev3 & H3 & Hn3 & Hs3).
  exists (dr ++ [EvWait wait done] ++ ev3). rewrite H3, Hdr.
  split; [now rewrite !app_assoc|].
  rewrite !waits_app, Hdw. cbn [app waits List.length].
  split; [lia | now constructor].
Qed.

Lemma attempts_waits fuel : forall attempt (req : Request W) last w tr,
  exists ev,
    trace (attempts E t fuel attempt req last w tr) = tr ++ ev
    /\ (List.length (waits ev) <= Z.to_nat (maxRetries t - attempt))%nat
    /\ Forall (fun d => d <= waitMax t + waitMax t / 4) (waits ev).
Proof.
  induction fuel as [|fuel IH]; intros attempt req last w tr.
  - exists []. simpl. rewrite app_nil_r.
    split; [reflexivity|]. split; [apply Nat.le_0_l | constructor].
  - destruct (Z_le_gt_dec attempt (maxRetries t)) as [Ha|Ha].
    2:{ exists []. simpl.
        replace (attempt <=? maxRetries t) with false
          by (symmetry; apply Z.leb_gt; lia).
        simpl. rewrite app_nil_r.
        split; [reflexivity|]. split; [apply Nat.le_0_l | constructor]. }
    assert (Hnext : forall req' last' w' tr',
               exists ev,
                 trace (attempts E t fuel (attempt + 1) req' last' w' tr') = tr' ++ ev
                 /\ (List.length (waits ev)
                     <= Z.to_nat (maxRetries t - (attempt + 1)))%nat
                 /\ Forall (fun d => d <= waitMax t + waitMax t / 4) (waits ev)).
    { intros req' last' w' tr'. apply IH. }
    destruct (resetBody_cases attempt req w tr)
      as [Hr | (Hpos & g & body & bodyErr & w1 & Hg & Hgw & Hr)].
    + destruct (base t req w) as [r w2] eqn:Hb.
      rewrite (attempts_send E t fuel attempt req last w tr req w tr r w2);
        [| exact Ha | exact Hr | exact Hb].
      destruct (afterRoundTrip_waits fuel attempt req r w2
                  (tr ++ [EvRoundTrip (Method req) (Body req) r]) Hnext)
        as (ev & Hev & Hn & Hs).
      exists ([EvRoundTrip (Method req) (Body req) r] ++ ev).
      rewrite Hev, app_assoc. split; [reflexivity|].
      rewrite waits_app. cbn [waits app]. now split.
    + destruct bodyErr as [e|].
      * rewrite (attempts_bodyErr E t fuel attempt req last w tr req e w1 _ Ha Hr).
        exists [EvGetBody (body, Some e)]. simpl.
        split; [reflexivity|]. split; [apply Nat.le_0_l | constructor].
      * destruct (base t (setBody req body) w1) as [r w2] eqn:Hb.
        rewrite (attempts_send E t fuel attempt req last w tr (setBody req body) w1
                   (tr ++ [EvGetBody (body, None)]) r w2);
          [| exact Ha | exact Hr | exact Hb].
        destruct (afterRoundTrip_waits fuel attempt (setBody req body) r w2
                    ((tr ++ [EvGetBody (body, None)])
                       ++ [EvRoundTrip (Method (setBody req body))
                             (Body (setBody req body)) r]) Hnext)
          as (ev & Hev & Hn & Hs).
        exists ([EvGetBody (body, None)]
                  ++ [EvRoundTrip (Method (setBody req body))
                        (Body (setBody req body)) r] ++ ev).
        rewrite Hev, !app_assoc. split; [reflexivity|].
        rewrite !waits_app. cbn [waits app]. now split.
Qed.

End Waits.

(** X13.  With a random source that keeps its contract, one
    [RoundTrip] waits at most as many times as there are retries, and
    each time at most a quarter more than the largest wait: the time it
    spends waiting is at most [maxRetries * 1.25 * waitMax], whatever
    the server answers and whatever its [Retry-After] headers say. *)
Theorem waits_are_few_and_short {W : Type} (E : Env W) (t : retryTransport W)
    (req : Request W) (w : W) :
  randomInRange E ->
  0 <= waitMax t ->
  (List.length (waits (trace (RoundTrip E t req w []))) <= Z.to_nat (maxRetries t))%nat
  /\ Forall (fun d => d <= waitMax t + waitMax t / 4)
       (waits (trace (RoundTrip E t req w []))).
Proof.
  intros Hrand Hmax.
  assert (Hcall : waits (trace (callRoundTrip (base t) req w [])) = []).
  { unfold callRoundTrip. now destruct (base t req w). }
  destruct (Z.eq_dec (maxRetries t) 0) as [H0|H0].
  { rewrite RoundTrip_disabled by assumption. rewrite Hcall.
    split; [apply Nat.le_0_l | constructor]. }
  destruct (isIdempotent t req) eqn:Hi.
  2:{ unfold RoundTrip. rewrite Hi.
      replace (maxRetries t =? 0) with false by (symmetry; now apply Z.eqb_neq).
      cbn [negb]. rewrite Hcall. split; [apply Nat.le_0_l | constructor]. }
  rewrite RoundTrip_eligible by assumption.
  destruct (attempts_waits E t Hrand Hmax (Z.to_nat (maxRetries t + 1)) 0 req
              (None, None) w []) as (ev & Hev & Hn & Hs).
  rewrite Hev. cbn [app]. rewrite Z.sub_0_r in Hn. now split.
Qed.

Lemma waits_are_few_and_short_witness :
  let t := Scripted.transport 2 in
  let tr := trace (RoundTrip Scripted.env t Scripted.get
                     (Scripted.world [Scripted.failure 503 []; Scripted.failure 503 []]
                        [7; 9]) []) in
  (List.length (waits tr) <= 2)%nat
  /\ Forall (fun d => d <= waitMax t + waitMax t / 4) (waits tr).
Proof.
  intros t tr.
  apply (waits_are_few_and_short Scripted.env t Scripted.get
           (Scripted.world [Scripted.failure 503 []; Scripted.failure 503 []] [7; 9])).
  - exact scripted_randomInRange.
  - vm_compute. discriminate.
Defined.

(** ** The order of the events *)

Lemma lastOf_app prev (a b : list Event) :
  lastOf prev (a ++ b) = lastOf (lastOf prev a) b.
Proof. unfold lastOf. now rewrite fold_left_app. Qed.

Lemma ordered_app (a b : list Event) : forall prev,
  ordered prev (a ++ b) = ordered prev a && ordered (lastOf prev a) b.
Proof.
  induction a as [|e a IH]; intros prev.
  - reflexivity.
  - cbn [app ordered]. rewrite IH, andb_assoc. reflexivity.
Qed.

Lemma ordered_snoc (tr : list Event) e :
  ordered None tr = true -> follows (lastOf None tr) e = true ->
  ordered None (tr ++ [e]) = true.
Proof.
  intros Ho Hf. rewrite ordered_app, Ho. cbn [ordered andb]. now rewrite Hf.
Qed.

Lemma sameBody_refl b : sameBody b b = true.
Proof. destruct b as [n|]; [apply Nat.eqb_refl | reflexivity]. Qed.

Section Order.
Context {W : Type} (E : Env W).
Implicit Types (t : retryTransport W) (w : W) (tr : list Event)
  (req : Request W).

Lemma afterRoundTrip_ordered t fuel attempt req m b r w tr :
  (forall req' last' w1 tr1,
      ordered None tr1 = true ->
      (exists d, lastOf None tr1 = Some (EvWait d None)) ->
      ordered None (trace (attempts E t fuel (attempt + 1) req' last' w1 tr1)) = true) ->
  ordered None tr = true ->
  lastOf None tr = Some (EvRoundTrip m b r) ->
  ordered None (trace (afterRoundTrip E t (attempts E t fuel) attempt req r w tr)) = true.
Proof.
  intros IH Ho Hl. destruct r as [resp err].
  destruct (retryable (resp, err)) eqn:Hretry.
  2:{ now rewrite afterRoundTrip_final by assumption. }
  destruct (Z_lt_ge_dec attempt (maxRetries t)) as [Hlt|Hge].
  2:{ now rewrite afterRoundTrip_last by (assumption || lia). }
  rewrite afterRoundTrip_backoff by assumption.
  assert (Hd : ordered None (snd (drained E resp w tr)) = true
               /\ forall d x, follows (lastOf None (snd (drained E resp w tr)))
                                (EvWait d x) = true).
  { unfold drained. destruct resp as [r'|]; [destruct (RespBody r') as [b0|] eqn:Hrb|].
    - cbn [snd]. split.
      + apply ordered_snoc; [exact Ho|]. rewrite Hl. cbn [follows].
        rewrite Hretry. unfold bodyOf. cbn [fst]. rewrite Hrb.
        cbn [andb sameBody]. apply Nat.eqb_refl.
      + intros d x. now rewrite lastOf_snoc.
    - cbn [snd]. split; [exact Ho|]. intros d x. rewrite Hl. cbn [follows].
      rewrite Hretry. unfold bodyOf. cbn [fst]. now rewrite Hrb.
    - cbn [snd]. split; [exact Ho|]. intros d x. rewrite Hl. cbn [follows].
      now rewrite Hretry. }
  destruct Hd as [Ho2 Hw2].
  pose proof (backoff_trace E t attempt resp (fst (drained E resp w tr))
                (snd (drained E resp w tr))) as Hbt.
  destruct (backoff E t attempt resp _ _) as [wait w3 tr3|msg w3 tr3];
    simpl in Hbt; subst tr3.
  2:{ exact Ho2. }
  destruct (waitOrDone E (Context req) wait w3) as [[e|] w4]; cbn [notNil isNil negb].
  - cbn [trace]. now apply ordered_snoc.
  - apply IH.
    + now apply ordered_snoc.
    + exists wait. now rewrite lastOf_snoc.
Qed.

Lemma attempts_ordered t fuel : forall attempt req last w tr,
  ordered None tr = true ->
  ready (lastOf None tr) attempt ->
  ordered None (trace (attempts E t fuel attempt req last w tr)) = true.
Proof.
  induction fuel as [|fuel IH]; intros attempt req last w tr Ho Hready.
  { exact Ho. }
  destruct (Z_le_gt_dec attempt (maxRetries t)) as [Ha|Ha].
  2:{ simpl. now replace (attempt <=? maxRetries t) with false
        by (symmetry; apply Z.leb_gt; lia). }
  assert (Hnext : forall req' last' w1 tr1,
             ordered None tr1 = true ->
             (exists d, lastOf None tr1 = Some (EvWait d None)) ->
             ordered None (trace (attempts E t fuel (attempt + 1) req' last' w1 tr1))
             = true).
  { intros req' last' w1 tr1 Ho1 Hl1. apply IH; [exact Ho1 | now right]. }
  destruct (resetBody_cases attempt req w tr)
    as [Hr | (Hpos & g & body & bodyErr & w1 & Hg & Hgw & Hr)].
  - destruct (base t req w) as [r w2] eqn:Hb.
    rewrite (attempts_send E t fuel attempt req last w tr req w tr r w2);
      [| exact Ha | exact Hr | exact Hb].
    apply (afterRoundTrip_ordered t fuel attempt req (Method req) (Body req) r w2 _ Hnext).
    + apply ordered_snoc; [exact Ho|].
      destruct Hready as [[-> _]|[d ->]]; reflexivity.
    + apply lastOf_snoc.
  - destruct Hready as [[_ Hle]|[d Hd]]; [lia|].
    assert (Ho1 : ordered None (tr ++ [EvGetBody (body, bodyErr)]) = true).
    { apply ordered_snoc; [exact Ho|]. now rewrite Hd. }
    destruct bodyErr as [e|].
    + now rewrite (attempts_bodyErr E t fuel attempt req last w tr req e w1 _ Ha Hr).
    + destruct (base t (setBody req body) w1) as [r w2] eqn:Hb.
      rewrite (attempts_send E t fuel attempt req last w tr (setBody req body) w1
                 (tr ++ [EvGetBody (body, None)]) r w2);
        [| exact Ha | exact Hr | exact Hb].
      apply (afterRoundTrip_ordered t fuel attempt (setBody req body)
               (Method (setBody req body)) (Body (setBody req body)) r w2 _ Hnext).
      * apply ordered_snoc; [exact Ho1|]. rewrite lastOf_snoc.
        cbn [follows setBody Body]. apply sameBody_refl.
      * apply lastOf_snoc.
Qed.

End Order.

(** X14.  The events of one [RoundTrip] come in a fixed order, whatever
    the transport, the request and the world, and whether the call
    returns or panics.  The base transport is called at the start, after
    a wait that the context did not cut short, or after a [GetBody]
    without an error and then with the body that [GetBody] returned.
    [GetBody] is called only after such a wait.  A body is drained only
    right after the call that returned it, and only when the result of
    that call is to be retried.  A wait is made only right after such a
    draining, or after a call whose result is to be retried and has no
    body.  So nothing is done after a result that is not to be retried,
    after a wait that the context cut short or after a [GetBody] that
    failed, and no wait is made while the body of a failed response is
    still open. *)
Theorem events_are_ordered {W : Type} (E : Env W) (t : retryTransport W)
    (req : Request W) (w : W) :
  ordered None (trace (RoundTrip E t req w [])) = true.
Proof.
  assert (Hcall : ordered None (trace (callRoundTrip (base t) req w [])) = true).
  { unfold callRoundTrip. now destruct (base t req w). }
  destruct (Z.eq_dec (maxRetries t) 0) as [H0|H0].
  { now rewrite RoundTrip_disabled by assumption. }
  destruct (isIdempotent t req) eqn:Hi.
  2:{ unfold RoundTrip. rewrite Hi.
      now replace (maxRetries t =? 0) with false by (symmetry; now apply Z.eqb_neq). }
  rewrite RoundTrip_eligible by assumption.
  apply attempts_ordered; [reflexivity|].
  left. split; [reflexivity | lia].
Qed.

(** ** Retrying until the server answers *)

Section Recovery.
Context {W : Type} (E : Env W).
Variable t : retryTransport W.
(** The number of attempts that will still fail. *)
Variable left : W -> nat.

Hypothesis failing : forall req w,
  retryable (fst (base t req w)) = negb (Nat.eqb (left w) 0)
  /\ left (snd (base t req w)) = pred (left w).
Hypothesis random_keeps : forall n w, left (snd (randomBelow E n w)) = left w.
Hypothesis wait_keeps : forall ctx wait w,
  fst (waitOrDone E ctx wait w) = None
  /\ left (snd (waitOrDone E ctx wait w)) = left w.
Hypothesis drain_keeps : forall b w, left (drainAndClose E b w) = left w.
Hypothesis waitMin_ok : 4 <= waitMin t <= Int64.MaxInt64.
Hypothesis waitMax_ok : ~ (1 <= waitMax t <= 3).
Hypothesis maxRetries_ok : maxRetries t <= 5.

Lemma attempts_recover (n : nat) :
  forall fuel attempt (req : Request W) last w tr,
    left w = n ->
    0 <= attempt ->
    attempt + Z.of_nat n <= maxRetries t ->
    (forall g w0, GetBody req = Some g ->
       snd (fst (g w0)) = None /\ left (snd (g w0)) = left w0) ->
    exists resp w' ev,
      attempts E t (S (n + fuel)) attempt req last w tr
      = Returned (Some resp, None) w' (tr ++ ev)
      /\ retryable (Some resp, None) = false
      /\ attemptsMade ev = S n
      /\ lastResult ev = Some (Some resp, None)
      /\ left w' = 0%nat.
Proof.
  induction n as [|n IH]; intros fuel attempt req last w tr Hn Ha Hle Hbody.
  - destruct (resetBody_returns attempt req w tr)
      as (req' & bodyErr & w1 & ev & Hr & Hev & HG & _ & _ & Herr).
    assert (Hw1 : left w1 = 0%nat).
    { destruct (resetBody_cases attempt req w tr)
        as [Hr' | (_ & g & body & be & w1' & Hg & Hgw & Hr')];
        rewrite Hr' in Hr; inversion Hr; subst; [exact Hn|].
      destruct (Hbody g w Hg) as [_ Hk]. rewrite Hgw in Hk. simpl in Hk.
      now rewrite Hk. }
    destruct bodyErr as [e|].
    { destruct (Herr e eq_refl) as (g & w0 & Hg & He).
      destruct (Hbody g w0 Hg) as [Hnone _]. rewrite Hnone in He. discriminate. }
    destruct (base t req' w1) as [[resp err] w2] eqn:Hb.
    destruct (failing req' w1) as [Hretry Hleft]. rewrite Hb in Hretry, Hleft.
    simpl in Hretry, Hleft. rewrite Hw1 in Hretry, Hleft. simpl in Hretry, Hleft.
    rewrite (attempts_send E t (0 + fuel) attempt req last w tr req' w1 (tr ++ ev)
               (resp, err) w2); [| lia | exact Hr | exact Hb].
    rewrite afterRoundTrip_final by assumption.
    destruct err as [e|]; [destruct resp; discriminate Hretry|].
    destruct resp as [resp|]; [|discriminate Hretry].
    exists resp, w2, (ev ++ [EvRoundTrip (Method req') (Body req') (Some resp, None)]).
    split; [now rewrite app_assoc|]. split; [exact Hretry|]. split; [|split].
    + rewrite attemptsMade_app. unfold attemptsMade at 1. now rewrite Hev.
    + now apply lastResult_app.
    + exact Hleft.
  - destruct (resetBody_returns attempt req w tr)
      as (req' & bodyErr & w1 & ev & Hr & Hev & HG & _ & _ & Herr).
    assert (Hw1 : left w1 = S n).
    { destruct (resetBody_cases attempt req w tr)
        as [Hr' | (_ & g & body & be & w1' & Hg & Hgw & Hr')];
        rewrite Hr' in Hr; inversion Hr; subst; [exact Hn|].
      destruct (Hbody g w Hg) as [_ Hk]. rewrite Hgw in Hk. simpl in Hk.
      now rewrite Hk. }
    destruct bodyErr as [e|].
    { destruct (Herr e eq_refl) as (g & w0 & Hg & He).
      destruct (Hbody g w0 Hg) as [Hnone _]. rewrite Hnone in He. discriminate. }
    destruct (base t req' w1) as [[resp err] w2] eqn:Hb.
    destruct (failing req' w1) as [Hretry Hleft]. rewrite Hb in Hretry, Hleft.
    simpl in Hretry, Hleft. rewrite Hw1 in Hretry, Hleft. simpl in Hretry, Hleft.
    rewrite (attempts_send E t (S n + fuel) attempt req last w tr req' w1 (tr ++ ev)
               (resp, err) w2); [| lia | exact Hr | exact Hb].
    rewrite afterRoundTrip_backoff by (assumption || lia).
    set (tr2 := (tr ++ ev) ++ [EvRoundTrip (Method req') (Body req') (resp, err)]).
    destruct (drained_events E resp w2 tr2) as (dr & Hdr & Hdr0).
    assert (Hw2 : left (fst (drained E resp w2 tr2)) = n).
    { destruct (drained_world E resp w2 tr2) as [-> | [b ->]];
        [exact Hleft | now rewrite drain_keeps]. }
    destruct (backoff_returns E t attempt resp (fst (drained E resp w2 tr2))
                (snd (drained E resp w2 tr2)) waitMin_ok waitMax_ok ltac:(lia))
      as (wait & w3 & Hbk).
    pose proof (backoff_world E t attempt resp (fst (drained E resp w2 tr2))
                  (snd (drained E resp w2 tr2))) as Hbw.
    rewrite Hbk in Hbw. rewrite Hbk.
    assert (Hw3 : left w3 = n).
    { destruct Hbw as [-> | [k ->]]; [exact Hw2 | now rewrite random_keeps]. }
    destruct (wait_keeps (Context req') wait w3) as [Hnd Hkeep].
    destruct (waitOrDone E (Context req') wait w3) as [done w4].
    simpl in Hnd, Hkeep. subst done. simpl notNil. cbv iota.
    destruct (IH fuel (attempt + 1) req' (resp, err) w4
                (snd (drained E resp w2 tr2) ++ [EvWait wait None]))
      as (resp' & w' & ev' & Hrun & Hfin & Hcount & Hl & Hzero).
    { now rewrite Hkeep. }
    { lia. }
    { lia. }
    { intros g w0 Hg. apply Hbody. now rewrite <- HG. }
    replace (S n + fuel)%nat with (S (n + fuel)) by lia.
    rewrite Hrun, Hdr. unfold tr2.
    exists resp', w',
      (ev ++ [EvRoundTrip (Method req') (Body req') (resp, err)] ++ dr
          ++ [EvWait wait None] ++ ev').
    split; [now rewrite <- !app_assoc|]. split; [exact Hfin|]. split; [|split].
    + rewrite !attemptsMade_app. unfold attemptsMade at 1 3. rewrite Hev, Hdr0, Hcount.
      reflexivity.
    + rewrite !app_assoc. now apply lastResult_app.
    + exact Hzero.
Qed.

End Recovery.

(** X15.  A client configured with [k] retries, [1 <= k <= 5], sends a
    retry-eligible request to a server whose next [n] answers fail
    retryably and whose answer after that does not, with [n <= k].
    When no wait is cut short by the context, the body (if any) can be
    replayed and the configured waits are not between 1ns and 3ns,
    [RoundTrip] calls the base transport exactly [n + 1] times and
    returns the answer of the last call: a response that is not to be
    retried, without an error. *)
Theorem retries_until_success {W : Type} (E : Env W) (b : RoundTripper W)
    (k wmin wmax : Z) (req : Request W) (w : W) (left : W -> nat) :
  1 <= k <= 5 ->
  wmin <= Int64.MaxInt64 -> ~ (1 <= wmin <= 3) -> ~ (1 <= wmax <= 3) ->
  isIdempotent (newRetryTransport E (Some b) k wmin wmax) req = true ->
  (forall req' w',
      retryable (fst (b req' w')) = negb (Nat.eqb (left w') 0)
      /\ left (snd (b req' w')) = pred (left w')) ->
  (forall n w', left (snd (randomBelow E n w')) = left w') ->
  (forall ctx wait w',
      fst (waitOrDone E ctx wait w') = None
      /\ left (snd (waitOrDone E ctx wait w')) = left w') ->
  (forall body w', left (drainAndClose E body w') = left w') ->
  (forall g w', GetBody req = Some g ->
      snd (fst (g w')) = None /\ left (snd (g w')) = left w') ->
  Z.of_nat (left w) <= k ->
  exists resp w' tr,
    RoundTrip E (newRetryTransport E (Some b) k wmin wmax) req w []
    = Returned (Some resp, None) w' tr
    /\ retryable (Some resp, None) = false
    /\ attemptsMade tr = S (left w)
    /\ lastResult tr = Some (Some resp, None).
Proof.
  intros Hk Hmin_range Hmin Hmax Hid Hfail Hrand Hwait Hdrain Hbody Hleft.
  set (t := newRetryTransport E (Some b) k wmin wmax) in *.
  destruct (newRetryTransport_maxRetries E (Some b) k wmin wmax) as [_ Hrk].
  fold t in Hrk. specialize (Hrk ltac:(lia)).
  destruct (newRetryTransport_waits E (Some b) k wmin wmax)
    as (Hwmin & Hwmin0 & Hwmax & Hwmax0).
  fold t in Hwmin, Hwmin0, Hwmax, Hwmax0.
  assert (Hmin_ok : 4 <= waitMin t <= Int64.MaxInt64).
  { destruct (Z_le_gt_dec wmin 0) as [H0|H0].
    - rewrite (Hwmin0 H0). unfold Int64.MaxInt64. lia.
    - rewrite (Hwmin ltac:(lia)). lia. }
  assert (Hmax_ok : ~ (1 <= waitMax t <= 3)).
  { destruct (Z_le_gt_dec wmax 0) as [H0|H0].
    - rewrite (Hwmax0 H0). lia.
    - now rewrite (Hwmax ltac:(lia)). }
  rewrite (RoundTrip_eligible E t req) by (lia || assumption).
  rewrite Hrk.
  replace (Z.to_nat (k + 1)) with (S (left w + (Z.to_nat k - left w)))%nat by lia.
  destruct (attempts_recover E t left Hfail Hrand Hwait Hdrain Hmin_ok Hmax_ok
              ltac:(lia) (left w) (Z.to_nat k - left w)%nat 0 req (None, None) w []
              eq_refl ltac:(lia) ltac:(lia) Hbody)
    as (resp & w' & ev & Hrun & Hfin & Hcount & Hl & _).
  exists resp, w', ev. tauto.
Qed.

(** Three retries against a server that fails twice: three calls, the
    third answer is returned. *)
Lemma retries_until_success_witness :
  exists resp w' tr,
    RoundTrip Flaky.env (newRetryTransport Flaky.env (Some Flaky.server) 3 0 0)
      Flaky.get 2%nat []
    = Returned (Some resp, None) w' tr
    /\ retryable (Some resp, None) = false
    /\ attemptsMade tr = 3%nat
    /\ lastResult tr = Some (Some resp, None).
Proof.
  apply (retries_until_success Flaky.env Flaky.server 3 0 0 Flaky.get 2%nat
           (fun n => n)).
  - lia.
  - unfold Int64.MaxInt64. lia.
  - lia.
  - lia.
  - reflexivity.
  - intros req' [|n]; split; reflexivity.
  - intros n w'. reflexivity.
  - intros ctx wait w'. split; reflexivity.
  - intros body w'. reflexivity.
  - intros g w' H. discriminate H.
  - simpl. lia.
Defined.

End TransportProps.

(* ===================================================================== *)
(** * Properties of the concurrency limiter *)
(* ===================================================================== *)

Module LimiterFacts.
Import Limiter.

Lemma count_cons f p l : count f (p :: l) = b2z (f p) + count f l.
Proof.
  unfold count. cbn [filter].
  destruct (f p); cbn [List.length b2z]; lia.
Qed.

Lemma count_app f l l' : count f (l ++ l') = count f l + count f l'.
Proof. unfold count. rewrite filter_app, length_app. lia. Qed.

Lemma count_nonneg f l : 0 <= count f l.
Proof. unfold count. lia. Qed.

Lemma count_update f l : forall i old p,
  nth_error l i = Some old ->
  count f (update l i p) = count f l - b2z (f old) + b2z (f p).
Proof.
  induction l as [|x l IH]; intros [|i] old p H; simpl in H; try discriminate.
  - inversion H; subst x. simpl. rewrite !count_cons. lia.
  - simpl. rewrite !count_cons. rewrite (IH i old p H). lia.
Qed.

Lemma nth_error_update l : forall i old p,
  nth_error l i = Some old -> nth_error (update l i p) i = Some p.
Proof.
  induction l as [|x l IH]; intros [|i] old p H; simpl in H; try discriminate.
  - reflexivity.
  - simpl. now apply (IH i old).
Qed.

Lemma inFlight_le_held s : inFlight s <= permitsHeld s.
Proof.
  unfold inFlight, permitsHeld.
  induction (callers s) as [|p l IH]; [reflexivity|].
  rewrite !count_cons. destruct p; cbn [b2z isInFlight holdsPermit]; lia.
Qed.

Lemma clampMaxConcurrent_range n : 1 <= clampMaxConcurrent n <= 10.
Proof.
  unfold clampMaxConcurrent, MaxConcurrentRequests.
  destruct (n <? 1) eqn:H1.
  - simpl. lia.
  - apply Z.ltb_ge in H1. destruct (10 <? n) eqn:H10.
    + lia.
    + apply Z.ltb_ge in H10. lia.
Qed.

Lemma balanced_init N : 0 <= N -> balanced N (newRateLimitedTransport N).
Proof. intros H. repeat split. exact H. Qed.

Lemma balanced_exec N s a s' :
  balanced N s -> exec s a = Some s' -> balanced N s'.
Proof.
  intros (Hsize & Hcur & Hle) Hex. unfold balanced, permitsHeld in *.
  pose proof (count_nonneg holdsPermit (callers s)) as Hnn.
  destruct a as [|i|i|i|i|i p|i]; simpl in Hex.
  - inversion Hex; subst s'. simpl. rewrite count_app.
    change (count holdsPermit [Acquiring]) with 0. repeat split; lia.
  - destruct (nth_error (callers s) i) as [[| | |q|e]|] eqn:Hn; try discriminate.
    destruct (cur (semaphore s) + 1 <=? size (semaphore s)) eqn:Hroom; [|discriminate].
    apply Z.leb_le in Hroom.
    inversion Hex; subst s'. simpl.
    rewrite (count_update holdsPermit _ i Acquiring Granted Hn). cbn [b2z holdsPermit].
    repeat split; lia.
  - destruct (nth_error (callers s) i) as [[| | |q|e]|] eqn:Hn; try discriminate.
    inversion Hex; subst s'. simpl.
    rewrite (count_update holdsPermit _ i Granted InFlight Hn). cbn [b2z holdsPermit].
    repeat split; lia.
  - destruct (nth_error (callers s) i) as [[| | |q|e]|] eqn:Hn; try discriminate.
    inversion Hex; subst s'. simpl.
    rewrite (count_update holdsPermit _ i Acquiring (Finished Cancelled) Hn).
    cbn [b2z holdsPermit]. repeat split; lia.
  - destruct (nth_error (callers s) i) as [[| | |q|e]|] eqn:Hn; try discriminate.
    inversion Hex; subst s'. simpl.
    rewrite (count_update holdsPermit _ i Granted (Finished Cancelled) Hn).
    cbn [b2z holdsPermit]. repeat split; lia.
  - destruct (nth_error (callers s) i) as [[| | |q|e]|] eqn:Hn; try discriminate.
    inversion Hex; subst s'. simpl.
    rewrite (count_update holdsPermit _ i InFlight (Releasing p) Hn).
    cbn [b2z holdsPermit]. repeat split; lia.
  - destruct (nth_error (callers s) i) as [[| | |q|e]|] eqn:Hn; try discriminate.
    inversion Hex; subst s'. simpl.
    rewrite (count_update holdsPermit _ i (Releasing q) _ Hn).
    cbn [b2z holdsPermit]. repeat split; lia.
Qed.

Lemma balanced_run N sched : forall s s',
  balanced N s -> run s sched = Some s' -> balanced N s'.
Proof.
  induction sched as [|a rest IH]; intros s s' Hb Hr; simpl in Hr.
  - now inversion Hr; subst s'.
  - destruct (exec s a) as [s1|] eqn:Hex; [|discriminate].
    apply (IH s1 s'); [|exact Hr]. now apply (balanced_exec N s a).
Qed.

(** C9.  With a limit [N] between 1 and 10, in every state that any
    schedule of any number of callers can reach, at most [N] calls are in
    the base transport; the permits held are exactly those of the callers
    between grant and release, so a caller that has finished, in
    whatever way, holds none; a caller whose base call is over, normally
    or by a panic, can always run its release, which gives one permit
    back; and a caller whose context is done while it is in [Acquire]
    ends with the cancellation error, leaving the semaphore as it was
    before its call: untouched when it was still waiting, with the
    permit put back when it had just been granted one. *)
Theorem at_most_N_in_flight (N : Z) (sched : list step) (s : System) :
  1 <= N <= 10 ->
  run (newRateLimitedTransport N) sched = Some s ->
  inFlight s <= N
  /\ cur (semaphore s) = permitsHeld s
  /\ (forall i panicked,
        nth_error (callers s) i = Some (Releasing panicked) ->
        exists s',
          exec s (Release i) = Some s'
          /\ cur (semaphore s') = cur (semaphore s) - 1
          /\ nth_error (callers s') i
             = Some (Finished (if panicked then BasePanicked else Answered)))
  /\ (forall i,
        nth_error (callers s) i = Some Acquiring ->
        exists s',
          exec s (Cancel i) = Some s'
          /\ semaphore s' = semaphore s
          /\ nth_error (callers s') i = Some (Finished Cancelled))
  /\ (forall i,
        nth_error (callers s) i = Some Granted ->
        exists s',
          exec s (GiveBack i) = Some s'
          /\ cur (semaphore s') = cur (semaphore s) - 1
          /\ nth_error (callers s') i = Some (Finished Cancelled)).
Proof.
  intros HN Hrun.
  destruct (balanced_run N sched _ s (balanced_init N ltac:(lia)) Hrun)
    as (Hsize & Hcur & Hle).
  pose proof (inFlight_le_held s) as Hin.
  split; [lia|]. split; [exact Hcur|]. split; [|split].
  - intros i p Hn. simpl. rewrite Hn. eexists. split; [reflexivity|].
    simpl. split; [reflexivity|]. now apply (nth_error_update _ i (Releasing p)).
  - intros i Hn. simpl. rewrite Hn. eexists. split; [reflexivity|].
    simpl. split; [reflexivity|]. now apply (nth_error_update _ i Acquiring).
  - intros i Hn. simpl. rewrite Hn. eexists. split; [reflexivity|].
    simpl. split; [reflexivity|]. now apply (nth_error_update _ i Granted).
Qed.

(** Three callers and two permits: the third caller cannot be granted
    one while the first two are in flight. *)
Lemma at_most_N_in_flight_witness :
  exists s,
    run (newRateLimitedTransport 2)
      [Call; Call; Call; Grant 0; Enter 0; Grant 2; Enter 2] = Some s
    /\ exec s (Grant 1) = None
    /\ inFlight s <= 2.
Proof.
  eexists. split; [reflexivity|]. split; [reflexivity|].
  apply (at_most_N_in_flight 2
           [Call; Call; Call; Grant 0; Enter 0; Grant 2; Enter 2] _
           ltac:(lia) eq_refl).
Defined.

(** The limit a client is built with is always between 1 and 10. *)
Lemma client_limit_in_flight (maxConcurrent : Z) (sched : list step) (s : System) :
  run (newRateLimitedTransport (clampMaxConcurrent maxConcurrent)) sched = Some s ->
  inFlight s <= clampMaxConcurrent maxConcurrent <= 10.
Proof.
  intros Hrun. pose proof (clampMaxConcurrent_range maxConcurrent) as Hc.
  destruct (balanced_run _ sched _ s
              (balanced_init (clampMaxConcurrent maxConcurrent) ltac:(lia)) Hrun)
    as (_ & Hcur & Hle).
  pose proof (inFlight_le_held s). lia.
Qed.

End LimiterFacts.
(* ===================================================================== *)
(** * More on the concurrency limiter *)
(* ===================================================================== *)

Module LimiterProps.
Import Limiter LimiterFacts.

Lemma length_update l : forall i p, List.length (update l i p) = List.length l.
Proof.
  induction l as [|x l IH]; intros [|i] p; simpl; try reflexivity.
  now rewrite IH.
Qed.

Lemma workLeft_update l : forall i old p,
  nth_error l i = Some old ->
  (workLeft (update l i p) + stepsLeft old = workLeft l + stepsLeft p)%nat.
Proof.
  unfold workLeft.
  induction l as [|x l IH]; intros [|i] old p H; simpl in H; try discriminate.
  - inversion H; subst x. simpl. lia.
  - simpl. specialize (IH i old p H). lia.
Qed.

(** Among callers of which one has not finished, one holds a permit, or
    no permit is held and one waits in [Acquire]. *)
Lemma someone_can_move l :
  (0 < workLeft l)%nat ->
  (exists i p, nth_error l i = Some p /\ holdsPermit p = true)
  \/ (count holdsPermit l = 0 /\ exists i, nth_error l i = Some Acquiring).
Proof.
  unfold workLeft. induction l as [|x l IH]; intros H; simpl in H; [lia|].
  destruct (holdsPermit x) eqn:Hx.
  { left. now exists 0%nat, x. }
  destruct (Nat.eq_dec (list_sum (map stepsLeft l)) 0) as [H0|H0].
  - right. assert (Hx' : x = Acquiring).
    { destruct x; simpl in *; try discriminate; try reflexivity. lia. }
    subst x. split; [|now exists 0%nat].
    rewrite count_cons. cbn [holdsPermit b2z].
    clear -H0. induction l as [|y l IH]; [reflexivity|].
    simpl in H0. rewrite count_cons.
    destruct y; simpl in H0; try lia. cbn [holdsPermit b2z]. apply IH. lia.
  - destruct (IH ltac:(lia)) as [(i & p & Hn & Hp)|(Hc & i & Hn)].
    + left. now exists (S i), p.
    + destruct x; simpl in Hx; try discriminate.
      * right. split; [|now exists 0%nat].
        rewrite count_cons. cbn [holdsPermit b2z]. lia.
      * right. split; [|now exists (S i)].
        rewrite count_cons. cbn [holdsPermit b2z]. lia.
Qed.

(** In a balanced system with a permit to give and a caller that has not
    finished, some caller can take its next step. *)
Lemma progress N s :
  1 <= N -> balanced N s -> (0 < workLeft (callers s))%nat ->
  exists a s',
    exec s a = Some s' /\ isCancellation a = false
    /\ workLeft (callers s') = pred (workLeft (callers s))
    /\ List.length (callers s') = List.length (callers s).
Proof.
  intros HN (Hsize & Hcur & Hle) Hwork.
  destruct (someone_can_move _ Hwork) as [(i & p & Hn & Hp)|(Hc & i & Hn)].
  - destruct p as [| | |q|e]; simpl in Hp; try discriminate.
    + exists (Enter i). eexists. simpl. rewrite Hn.
      split; [reflexivity|]. split; [reflexivity|]. simpl.
      pose proof (workLeft_update _ i Granted InFlight Hn) as Hw. simpl in Hw.
      split; [lia | apply length_update].
    + exists (Return i false). eexists. simpl. rewrite Hn.
      split; [reflexivity|]. split; [reflexivity|]. simpl.
      pose proof (workLeft_update _ i InFlight (Releasing false) Hn) as Hw. simpl in Hw.
      split; [lia | apply length_update].
    + exists (Release i). eexists. simpl. rewrite Hn.
      split; [reflexivity|]. split; [reflexivity|]. simpl.
      pose proof (workLeft_update _ i (Releasing q) (Finished (if q then BasePanicked else Answered)) Hn) as Hw.
      simpl in Hw.
      split; [lia | apply length_update].
  - exists (Grant i). eexists. simpl. rewrite Hn.
    unfold permitsHeld in Hcur. rewrite Hc in Hcur.
    replace (cur (semaphore s) + 1 <=? size (semaphore s)) with true
      by (symmetry; apply Z.leb_le; lia).
    split; [reflexivity|]. split; [reflexivity|]. simpl.
    pose proof (workLeft_update _ i Acquiring Granted Hn) as Hw. simpl in Hw.
    split; [lia | apply length_update].
Qed.

Lemma run_app sched : forall s sched' s1,
  run s sched = Some s1 -> run s (sched ++ sched') = run s1 sched'.
Proof.
  induction sched as [|a rest IH]; intros s sched' s1 H; simpl in H.
  - now inversion H.
  - simpl. destruct (exec s a) as [s2|]; [|discriminate]. now apply IH.
Qed.

Lemma finish_all N : forall n s,
  1 <= N -> balanced N s -> workLeft (callers s) = n ->
  exists sched s',
    run s sched = Some s'
    /\ forallb (fun a => negb (isCancellation a)) sched = true
    /\ workLeft (callers s') = 0%nat
    /\ List.length (callers s') = List.length (callers s)
    /\ balanced N s'.
Proof.
  induction n as [|n IH]; intros s HN Hb Hw.
  - exists [], s. repeat split; try assumption; apply Hb.
  - destruct (progress N s HN Hb ltac:(lia)) as (a & s1 & Hex & Hc & Hw1 & Hl1).
    destruct (IH s1 HN (balanced_exec N s a s1 Hb Hex) ltac:(lia))
      as (sched & s' & Hrun & Hall & Hw' & Hl' & Hb').
    exists (a :: sched), s'. simpl. rewrite Hex, Hc. simpl.
    repeat split; try assumption; try apply Hb'. congruence.
Qed.

Lemma workLeft_zero l :
  workLeft l = 0%nat -> forallb isFinished l = true /\ count holdsPermit l = 0.
Proof.
  unfold workLeft. induction l as [|x l IH]; intros H; [now split|].
  simpl in H. destruct x; simpl in H; try lia.
  destruct (IH ltac:(lia)) as [Hf Hc]. split.
  - simpl. exact Hf.
  - rewrite count_cons. cbn [holdsPermit b2z]. lia.
Qed.

(** X16.  The limiter cannot deadlock: with a limit of at least 1, from
    every state that any schedule of any number of callers can reach,
    the calls can all be brought to their end without any context being
    done, as long as the base transport ends its calls; then every
    caller has finished and every permit is back. *)
Theorem no_deadlock (N : Z) (sched : list step) (s : System) :
  1 <= N ->
  run (newRateLimitedTransport N) sched = Some s ->
  exists sched' s',
    run (newRateLimitedTransport N) (sched ++ sched') = Some s'
    /\ forallb (fun a => negb (isCancellation a)) sched' = true
    /\ List.length (callers s') = List.length (callers s)
    /\ forallb isFinished (callers s') = true
    /\ cur (semaphore s') = 0.
Proof.
  intros HN Hrun.
  pose proof (balanced_run N sched _ s (balanced_init N ltac:(lia)) Hrun) as Hb.
  destruct (finish_all N _ s HN Hb eq_refl) as (sched' & s' & Hrun' & Hall & Hw & Hl & Hb').
  exists sched', s'.
  rewrite (run_app sched _ sched' s Hrun).
  destruct (workLeft_zero _ Hw) as [Hf Hc].
  destruct Hb' as (_ & Hcur & _). unfold permitsHeld in Hcur.
  repeat split; try assumption. lia.
Qed.

Lemma no_deadlock_witness :
  exists sched' s',
    run (newRateLimitedTransport 1) ([Call; Call; Grant 1; Enter 1] ++ sched') = Some s'
    /\ forallb (fun a => negb (isCancellation a)) sched' = true
    /\ List.length (callers s') = 2%nat
    /\ forallb isFinished (callers s') = true
    /\ cur (semaphore s') = 0.
Proof.
  apply (no_deadlock 1 [Call; Call; Grant 1; Enter 1]
           (mkSystem (mkWeighted 1 1) [Acquiring; InFlight]) ltac:(lia) eq_refl).
Defined.

(** ** A limit below 1 *)

Lemma forallb_update f l : forall i p,
  forallb f l = true -> f p = true -> forallb f (update l i p) = true.
Proof.
  induction l as [|x l IH]; intros [|i] p Hl Hp; simpl in *; try reflexivity.
  - apply andb_true_iff in Hl. destruct Hl as [_ Hl]. now rewrite Hp.
  - apply andb_true_iff in Hl. destruct Hl as [Hx Hl]. rewrite Hx. now apply IH.
Qed.

Lemma forallb_nth f (l : list place) : forall i p,
  forallb f l = true -> nth_error l i = Some p -> f p = true.
Proof.
  induction l as [|x l IH]; intros [|i] p Hl Hn; simpl in *; try discriminate.
  - apply andb_true_iff in Hl. destruct Hl as [Hx _]. now inversion Hn; subst.
  - apply andb_true_iff in Hl. destruct Hl as [_ Hl]. now apply (IH i).
Qed.

Lemma shut_exec N s a s' :
  N <= 0 ->
  size (semaphore s) = N -> cur (semaphore s) = 0 ->
  forallb keptOut (callers s) = true ->
  exec s a = Some s' ->
  size (semaphore s') = N /\ cur (semaphore s') = 0
  /\ forallb keptOut (callers s') = true.
Proof.
  intros HN Hsize Hcur Hout Hex.
  destruct a as [|i|i|i|i|i p|i]; simpl in Hex.
  - inversion Hex; subst s'. simpl. rewrite forallb_app, Hout. now repeat split.
  - destruct (nth_error (callers s) i) as [[| | |q|e]|] eqn:Hn; try discriminate.
    replace (cur (semaphore s) + 1 <=? size (semaphore s)) with false in Hex
      by (symmetry; apply Z.leb_gt; lia).
    discriminate.
  - destruct (nth_error (callers s) i) as [[| | |q|e]|] eqn:Hn; try discriminate.
    now pose proof (forallb_nth _ _ _ _ Hout Hn).
  - destruct (nth_error (callers s) i) as [[| | |q|e]|] eqn:Hn; try discriminate.
    inversion Hex; subst s'. simpl. repeat split; try assumption.
    now apply forallb_update.
  - destruct (nth_error (callers s) i) as [[| | |q|e]|] eqn:Hn; try discriminate.
    now pose proof (forallb_nth _ _ _ _ Hout Hn).
  - destruct (nth_error (callers s) i) as [[| | |q|e]|] eqn:Hn; try discriminate.
    now pose proof (forallb_nth _ _ _ _ Hout Hn).
  - destruct (nth_error (callers s) i) as [[| | |q|e]|] eqn:Hn; try discriminate.
    now pose proof (forallb_nth _ _ _ _ Hout Hn).
Qed.

Lemma shut_run N sched : forall s s',
  N <= 0 ->
  size (semaphore s) = N -> cur (semaphore s) = 0 ->
  forallb keptOut (callers s) = true ->
  run s sched = Some s' ->
  size (semaphore s') = N /\ cur (semaphore s') = 0
  /\ forallb keptOut (callers s') = true.
Proof.
  induction sched as [|a rest IH]; intros s s' HN Hsize Hcur Hout Hr; simpl in Hr.
  - inversion Hr; subst s'. now repeat split.
  - destruct (exec s a) as [s1|] eqn:Hex; [|discriminate].
    destruct (shut_exec N s a s1 HN Hsize Hcur Hout Hex) as (H1 & H2 & H3).
    now apply (IH s1 s').
Qed.

(** X17.  [newRateLimitedTransport] does not check its limit (only
    [NewClient] brings it into the range from 1).  With a limit of 0 or
    less no call ever reaches the base transport: in every state that
    any schedule can reach, no call is in flight, no waiting caller can
    be granted a permit, and every caller waits in [Acquire] or has
    ended with the cancellation error of its context. *)
Theorem limit_below_one_lets_nothing_through (N : Z) (sched : list step)
    (s : System) :
  N <= 0 ->
  run (newRateLimitedTransport N) sched = Some s ->
  inFlight s = 0
  /\ (forall i, exec s (Grant i) = None)
  /\ forallb keptOut (callers s) = true.
Proof.
  intros HN Hrun.
  destruct (shut_run N sched (newRateLimitedTransport N) s HN eq_refl eq_refl eq_refl Hrun)
    as (Hsize & Hcur & Hout).
  split; [|split; [|exact Hout]].
  - unfold inFlight. clear -Hout.
    induction (callers s) as [|p l IH]; [reflexivity|].
    simpl in Hout. apply andb_true_iff in Hout. destruct Hout as [Hp Hl].
    rewrite count_cons, (IH Hl).
    destruct p as [| | |q|e]; simpl in Hp; try discriminate; reflexivity.
  - intros i. simpl.
    destruct (nth_error (callers s) i) as [[| | |q|e]|]; try reflexivity.
    now replace (cur (semaphore s) + 1 <=? size (semaphore s)) with false
      by (symmetry; apply Z.leb_gt; lia).
Qed.

Lemma limit_below_one_lets_nothing_through_witness :
  inFlight (mkSystem (mkWeighted 0 0) [Acquiring; Finished Cancelled]) = 0
  /\ (forall i, exec (mkSystem (mkWeighted 0 0) [Acquiring; Finished Cancelled])
                  (Grant i) = None)
  /\ forallb keptOut [Acquiring; Finished Cancelled] = true.
Proof.
  apply (limit_below_one_lets_nothing_through 0 [Call; Call; Cancel 1]
           (mkSystem (mkWeighted 0 0) [Acquiring; Finished Cancelled])
           ltac:(lia) eq_refl).
Defined.

End LimiterProps.

(* ===================================================================== *)
(** * Properties of the error values *)
(* ===================================================================== *)

Module ErrorsFacts.
Import Http Errors.

Lemma length_zero_empty (s : string) :
  (0 <? Z.of_nat (String.length s)) = false -> s = "".
Proof.
  destruct s; [reflexivity|]. simpl String.length. intros H.
  apply Z.ltb_ge in H. lia.
Qed.

(** A predicate applied to an error that is not an [*APIError] is
    false. *)
Lemma predicates_false_on_other_errors msg :
  IsNotFound (OtherError msg) = false /\ IsUnauthorized (OtherError msg) = false
  /\ IsForbidden (OtherError msg) = false /\ IsRateLimited (OtherError msg) = false
  /\ IsBadRequest (OtherError msg) = false /\ IsConflict (OtherError msg) = false
  /\ IsServerError (OtherError msg) = false.
Proof. repeat split. Qed.

Lemma IsServerError_iff e :
  IsServerError (AnAPIError e) = true <-> 500 <= StatusCode e <= 599.
Proof.
  simpl. rewrite andb_true_iff, Z.leb_le, Z.ltb_lt. lia.
Qed.

(** C8.  Given a decoder that rejects the empty input, as
    [json.Unmarshal] does: the message of the constructed error is the
    [message] field of the decoded body when the body decodes and the
    field is not empty, else the [error] field when that is not empty,
    else empty; a body that does not decode gives an empty message (and
    the error value is built all the same); the trace id is the value of
    the [x-trace-id] header, empty when the header is absent; status and
    body are copied. *)
Theorem newAPIErrorWithBody_fields (unmarshal : Unmarshal)
    (resp : Response) (body : string) :
  snd (unmarshal "") <> None ->
  let e := newAPIErrorWithBody unmarshal resp body in
  Message e = extractedMessage unmarshal body
  /\ (snd (unmarshal body) <> None -> Message e = "")
  /\ TraceID e = Get (RespHeader resp) "x-trace-id"
  /\ (lookup (RespHeader resp) "X-Trace-Id" = None -> TraceID e = "")
  /\ StatusCode e = Http.StatusCode resp
  /\ Status e = Http.Status resp
  /\ Body e = body.
Proof.
  intros Hempty e. subst e. unfold newAPIErrorWithBody, extractedMessage.
  destruct (0 <? Z.of_nat (String.length body)) eqn:Hlen.
  - destruct (unmarshal body) as [decoded [err|]]; simpl.
    + repeat split. intros H. unfold Get.
      change (CanonicalMIMEHeaderKey "x-trace-id") with "X-Trace-Id". now rewrite H.
    + destruct (nonEmpty (jsonMessage decoded)) eqn:Hm;
        [|destruct (nonEmpty (jsonError decoded)) eqn:He]; simpl;
        (split; [reflexivity|]); (split; [intros H; now elim H|]);
        repeat split; intros H; unfold Get;
        change (CanonicalMIMEHeaderKey "x-trace-id") with "X-Trace-Id"; now rewrite H.
  - apply length_zero_empty in Hlen. subst body.
    destruct (unmarshal "") as [decoded [err|]]; simpl in *.
    + repeat split. intros H. unfold Get.
      change (CanonicalMIMEHeaderKey "x-trace-id") with "X-Trace-Id". now rewrite H.
    + now elim Hempty.
Qed.

(** A 404 with the body [{"message": "x"}] and a trace id. *)
Lemma newAPIErrorWithBody_fields_witness :
  let resp := mkResponse 404 "404 Not Found" [("X-Trace-Id", ["trace-123"])] None in
  let e := newAPIErrorWithBody Flat.unmarshal resp (Flat.object1 "message" "x") in
  Message e = "x" /\ TraceID e = "trace-123" /\ IsNotFound (AnAPIError e) = true.
Proof.
  intros resp e.
  destruct (newAPIErrorWithBody_fields Flat.unmarshal resp (Flat.object1 "message" "x"))
    as (Hm & _ & Ht & _); [discriminate|].
  fold e in Hm, Ht. rewrite Hm, Ht. repeat split.
Defined.

End ErrorsFacts.
(* ===================================================================== *)
(** * More on the idempotency marker and on the error values *)
(* ===================================================================== *)

Module ContextProps.
Import Http Transport.

(** X18.  A context marked by [withIdempotent] makes a request
    retry-eligible whatever its method (this is how [GetSpans] and
    [GetLogRecords] get their POST requests retried), also when the
    context was marked before or carries a marker set to another value
    further down, and values stored later under keys of other types,
    even with the same text, neither remove the marker nor set it. *)
Theorem marked_context_makes_any_method_eligible {W : Type}
    (t : retryTransport W) (ctx : Ctx.GoContext) (method : string)
    (body : option BodyRef)
    (getBody : option (W -> (option BodyRef * option error) * W)) :
  Ctx.isIdempotent (Ctx.withIdempotent ctx) = true
  /\ isIdempotent t (mkRequest method (Ctx.withIdempotent ctx) body getBody) = true
  /\ (forall typ s v,
        Ctx.isIdempotent (Ctx.WithValue ctx (Ctx.otherKey typ s) v)
        = Ctx.isIdempotent ctx
        /\ isIdempotent t
             (mkRequest method
                (Ctx.WithValue (Ctx.withIdempotent ctx) (Ctx.otherKey typ s) v)
                body getBody) = true).
Proof.
  split; [reflexivity|]. split.
  - unfold isIdempotent. cbn [Method Context].
    now destruct (_ || _).
  - intros typ s v. split; [reflexivity|].
    unfold isIdempotent. cbn [Method Context].
    now destruct (_ || _).
Qed.

End ContextProps.

Module ErrorsProps.
Import Http Errors.

Lemma newAPIErrorWithBody_status (unmarshal : Unmarshal) resp body :
  StatusCode (newAPIErrorWithBody unmarshal resp body) = Http.StatusCode resp.
Proof.
  unfold newAPIErrorWithBody.
  destruct (0 <? Z.of_nat (String.length body)); [|reflexivity].
  destruct (unmarshal body) as [decoded err].
  destruct (isNil err); [|reflexivity].
  destruct (nonEmpty (jsonMessage decoded)); [reflexivity|].
  destruct (nonEmpty (jsonError decoded)); reflexivity.
Qed.

(** X19.  The seven predicates exclude each other: of an error at most
    one of them is true.  Which one depends on nothing but the status
    code of the [*APIError]; an error with a status that is none of 400,
    401, 403, 404, 409, 429 and 500 to 599 satisfies none of them. *)
Theorem predicates_exclude_each_other (err : goError) :
  (List.length
     (filter (fun p : goError -> bool => p err)
        [IsNotFound; IsUnauthorized; IsForbidden; IsRateLimited;
         IsServerError; IsBadRequest; IsConflict]) <= 1)%nat
  /\ (forall e, err = AnAPIError e ->
        ~ In (StatusCode e) [400; 401; 403; 404; 409; 429] ->
        ~ (500 <= StatusCode e <= 599) ->
        filter (fun p : goError -> bool => p err)
          [IsNotFound; IsUnauthorized; IsForbidden; IsRateLimited;
           IsServerError; IsBadRequest; IsConflict] = []).
Proof.
  destruct err as [e|msg].
  2:{ split; [simpl; lia | intros e H; discriminate H]. }
  unfold IsNotFound, IsUnauthorized, IsForbidden, IsRateLimited, IsBadRequest,
    IsConflict, IsServerError, statusIs, StatusNotFound, StatusUnauthorized,
    StatusForbidden, StatusTooManyRequests, StatusBadRequest, StatusConflict.
  cbn [filter].
  split.
  - destruct (Z.eqb_spec (StatusCode e) 404); destruct (Z.eqb_spec (StatusCode e) 401);
      destruct (Z.eqb_spec (StatusCode e) 403); destruct (Z.eqb_spec (StatusCode e) 429);
      destruct (Z.eqb_spec (StatusCode e) 400); destruct (Z.eqb_spec (StatusCode e) 409);
      destruct (Z.leb_spec 500 (StatusCode e)); destruct (Z.ltb_spec (StatusCode e) 600);
      cbn [andb List.length]; lia.
  - intros e' He Hnot Hrange. inversion He; subst e'. simpl in Hnot.
    destruct (Z.eqb_spec (StatusCode e) 404); [intuition lia|].
    destruct (Z.eqb_spec (StatusCode e) 401); [intuition lia|].
    destruct (Z.eqb_spec (StatusCode e) 403); [intuition lia|].
    destruct (Z.eqb_spec (StatusCode e) 429); [intuition lia|].
    destruct (Z.eqb_spec (StatusCode e) 400); [intuition lia|].
    destruct (Z.eqb_spec (StatusCode e) 409); [intuition lia|].
    destruct (Z.leb_spec 500 (StatusCode e)); destruct (Z.ltb_spec (StatusCode e) 600);
      cbn [andb]; try reflexivity. lia.
Qed.

Lemma predicates_exclude_each_other_witness :
  filter (fun p : goError -> bool => p (AnAPIError (mkAPIError 201 "201 Created" "" "" "")))
    [IsNotFound; IsUnauthorized; IsForbidden; IsRateLimited;
     IsServerError; IsBadRequest; IsConflict] = [].
Proof.
  destruct (predicates_exclude_each_other
              (AnAPIError (mkAPIError 201 "201 Created" "" "" ""))) as [_ H].
  apply (H (mkAPIError 201 "201 Created" "" "" "") eq_refl).
  - simpl. intuition lia.
  - simpl. lia.
Defined.

(** X20.  The retrying transport and the predicates agree: a response
    is one the transport retries exactly when the error made of it is
    rate limited or a server error, or its status is 600 or more (which
    the transport retries and no predicate knows); a response whose
    error is a bad request, unauthorized, forbidden, not found or a
    conflict is never retried. *)
Theorem retried_responses_are_classified {W : Type}
    (t : Transport.retryTransport W) (unmarshal : Unmarshal)
    (resp : Response) (body : string) :
  let err := AnAPIError (newAPIErrorWithBody unmarshal resp body) in
  (Transport.shouldRetry t (Some resp) = true
   <-> IsRateLimited err = true \/ IsServerError err = true
       \/ 600 <= Http.StatusCode resp)
  /\ (IsBadRequest err || IsUnauthorized err || IsForbidden err
      || IsNotFound err || IsConflict err = true ->
      Transport.shouldRetry t (Some resp) = false).
Proof.
  intros err. subst err.
  unfold IsNotFound, IsUnauthorized, IsForbidden, IsRateLimited, IsBadRequest,
    IsConflict, IsServerError, statusIs, StatusNotFound, StatusUnauthorized,
    StatusForbidden, StatusTooManyRequests, StatusBadRequest, StatusConflict,
    Transport.shouldRetry.
  unfold StatusTooManyRequests.
  rewrite newAPIErrorWithBody_status.
  split.
  - rewrite orb_true_iff, andb_true_iff, !Z.eqb_eq, Z.leb_le, Z.ltb_lt. lia.
  - rewrite !orb_true_iff, !Z.eqb_eq. intros H.
    apply orb_false_iff. rewrite Z.eqb_neq, Z.leb_gt. lia.
Qed.

Lemma append_empty_r (s : string) : (s ++ "")%string = s.
Proof. induction s as [|c s IH]; [reflexivity|]. simpl. now rewrite IH. Qed.

Lemma newAPIErrorWithBody_parts (unmarshal : Unmarshal) resp body :
  snd (unmarshal "") <> None ->
  Message (newAPIErrorWithBody unmarshal resp body) = extractedMessage unmarshal body
  /\ TraceID (newAPIErrorWithBody unmarshal resp body) = Get (RespHeader resp) "x-trace-id"
  /\ Status (newAPIErrorWithBody unmarshal resp body) = Http.Status resp.
Proof.
  intros Hempty. unfold newAPIErrorWithBody, extractedMessage.
  destruct (0 <? Z.of_nat (String.length body)) eqn:Hlen.
  - destruct (unmarshal body) as [decoded [err|]]; simpl; [now repeat split|].
    destruct (nonEmpty (jsonMessage decoded)); [now repeat split|].
    destruct (nonEmpty (jsonError decoded)); now repeat split.
  - apply ErrorsFacts.length_zero_empty in Hlen. subst body.
    destruct (unmarshal "") as [decoded [err|]]; simpl in *; [now repeat split|].
    now elim Hempty.
Qed.

(** X21.  The text of the error made of a response, given a decoder
    that rejects the empty input: with a message in the body, the
    message and the status code as a number; without one (no body, a
    body that does not decode, or empty fields), the status text of the
    response and not the number; in both cases followed by the trace id
    when the response has the header. *)
Theorem error_text_of_a_response (unmarshal : Unmarshal) (resp : Response)
    (body : string) :
  snd (unmarshal "") <> None ->
  let msg := extractedMessage unmarshal body in
  let traceID := Get (RespHeader resp) "x-trace-id" in
  ErrorText.Error (newAPIErrorWithBody unmarshal resp body)
  = (if nonEmpty msg then
       "dash0 api error: " ++ msg ++ " (status: "
         ++ ErrorText.formatInt (Http.StatusCode resp)
         ++ (if nonEmpty traceID then ", trace_id: " ++ traceID else "") ++ ")"
     else
       "dash0 api error: " ++ Http.Status resp
         ++ (if nonEmpty traceID then " (trace_id: " ++ traceID ++ ")" else ""))%string.
Proof.
  intros Hempty msg traceID.
  destruct (newAPIErrorWithBody_parts unmarshal resp body Hempty) as (Hm & Ht & Hs).
  unfold ErrorText.Error.
  rewrite Hm, Ht, Hs, newAPIErrorWithBody_status.
  fold msg traceID.
  destruct (nonEmpty msg), (nonEmpty traceID); cbn [String.append];
    rewrite ?append_empty_r; reflexivity.
Qed.

Lemma error_text_of_a_response_witness :
  ErrorText.Error
    (newAPIErrorWithBody Flat.unmarshal
       (mkResponse 400 "400 Bad Request" [("X-Trace-Id", ["abc123"])] None)
       (Flat.object1 "message" "invalid request"))
  = "dash0 api error: invalid request (status: 400, trace_id: abc123)".
Proof.
  apply (error_text_of_a_response Flat.unmarshal
           (mkResponse 400 "400 Bad Request" [("X-Trace-Id", ["abc123"])] None)
           (Flat.object1 "message" "invalid request")).
  discriminate.
Defined.

End ErrorsProps.
(* ===================================================================== *)
(** * Properties of the wrappers *)
(* ===================================================================== *)

Module ClientFacts.
Import Http Iterator Paging Helpers Client.

(** ** The pointer helpers *)

Lemma assign_app {A : Type} (a : list A) : forall y r x,
  assign (a ++ y :: r) (List.length a) x = a ++ x :: r.
Proof.
  induction a as [|z a IH]; intros y r x; simpl; [reflexivity|].
  now rewrite IH.
Qed.

Lemma firstn_snoc {A : Type} (l : list A) : forall k x,
  nth_error l k = Some x -> firstn (S k) l = firstn k l ++ [x].
Proof.
  induction l as [|y l IH]; intros [|k] x H; simpl in H; try discriminate.
  - now inversion H.
  - rewrite !firstn_cons, (IH k x H). reflexivity.
Qed.

Lemma toPointerSlice_loop {T : Type} (slice : list T) : forall k,
  (k <= List.length slice)%nat ->
  fold_left (fun result i => assign result i (nth_error slice i))
            (seq 0 k) (repeat None (List.length slice))
  = map Some (firstn k slice) ++ repeat None (List.length slice - k).
Proof.
  induction k as [|k IH]; intros Hk.
  - simpl. now rewrite Nat.sub_0_r.
  - rewrite seq_S, fold_left_app, IH by lia. cbn [fold_left Nat.add].
    destruct (nth_error slice k) as [x|] eqn:Hn.
    2:{ apply nth_error_None in Hn. lia. }
    replace (List.length slice - k)%nat with (S (List.length slice - S k)) by lia.
    cbn [repeat].
    pose proof (assign_app (map Some (firstn k slice)) None
                  (repeat None (List.length slice - S k)) (Some x)) as Ha.
    rewrite length_map, length_firstn, Nat.min_l in Ha by lia.
    rewrite Ha, (firstn_snoc slice k x Hn), map_app, <- app_assoc.
    reflexivity.
Qed.

Lemma toPointerSlice_map {T : Type} (slice : list T) :
  toPointerSlice slice = map Some slice.
Proof.
  unfold toPointerSlice. rewrite toPointerSlice_loop by lia.
  rewrite firstn_all, Nat.sub_diag. simpl. apply app_nil_r.
Qed.

(** X22.  [toPointerSlice] returns a slice of the length of its
    argument in which the element at every position points to the
    element of the argument at that position; no element is nil, and
    the empty slice gives the empty slice. *)
Theorem toPointerSlice_points_to_every_element {T : Type} (slice : list T) :
  List.length (toPointerSlice slice) = List.length slice
  /\ (forall i, nth_error (toPointerSlice slice) i = option_map Some (nth_error slice i))
  /\ ~ In None (toPointerSlice slice).
Proof.
  rewrite toPointerSlice_map. split; [apply length_map|]. split.
  - intros i. apply nth_error_map.
  - intros H. apply in_map_iff in H. destruct H as (x & Hx & _). discriminate.
Qed.

(** ** The wrappers of check rules *)

Section CheckRules.
Context {W Item Rule Span P R : Type}.
Variable unmarshal : Errors.Unmarshal.
Implicit Types (c : @ClientWithResponses W Item Rule Span P R) (w : W).

Lemma checked_ok {J : Type} text (resp : apiResponse J) :
  StatusCode (HTTPResponse resp) = StatusOK ->
  checked unmarshal text (Some resp, None) = Some (JSON200 resp, None).
Proof.
  intros H. unfold checked. rewrite H. reflexivity.
Qed.

Lemma checked_not_ok {J : Type} text (resp : apiResponse J) :
  StatusCode (HTTPResponse resp) <> StatusOK ->
  checked unmarshal text (Some resp, None)
  = Some (None, Some (Api (Errors.newAPIErrorWithBody unmarshal (HTTPResponse resp)
                             (Body resp)))).
Proof.
  intros H. unfold checked.
  now replace (StatusCode (HTTPResponse resp) =? StatusOK) with false
    by (symmetry; now apply Z.eqb_neq).
Qed.

Lemma ListCheckRules_ok c ctx dataset w resp l w1 :
  GetApiAlertingCheckRulesWithResponse c ctx dataset w = ((Some resp, None), w1) ->
  StatusCode (HTTPResponse resp) = StatusOK ->
  JSON200 resp = Some l ->
  ListCheckRules unmarshal c ctx dataset w = (Some (toPointerSlice l, None), w1).
Proof.
  intros Hcall Hs Hj. unfold ListCheckRules. rewrite Hcall, Hs, Hj. reflexivity.
Qed.

Lemma ListCheckRules_error c ctx dataset w items e w1 :
  ListCheckRules unmarshal c ctx dataset w = (Some (items, Some e), w1) ->
  items = [].
Proof.
  unfold ListCheckRules.
  destruct (GetApiAlertingCheckRulesWithResponse c ctx dataset w) as [[resp err] w'].
  destruct resp as [resp|], err as [err|]; try discriminate;
    try (intros H; now inversion H).
  destruct (negb _).
  { intros H. now inversion H. }
  destruct (JSON200 resp); intros H; now inversion H.
Qed.

End CheckRules.

(** X23.  When the binding answers 200 with a list of check rules,
    [ListCheckRules] returns a pointer to each of them, in order, and
    the iterator of [ListCheckRulesIter] yields just these, in this
    order, and then ends without an error; looping over it calls
    nothing (the world stays as it is), as all rules were fetched when
    the iterator was made. *)
Theorem ListCheckRulesIter_yields_the_rules {W Item Rule Span P R : Type}
    (unmarshal : Errors.Unmarshal)
    (c : @ClientWithResponses W Item Rule Span P R) (ctx : Ctx.GoContext)
    (dataset : option string) (w w1 : W) (resp : apiResponse (list Item))
    (l : list Item) :
  GetApiAlertingCheckRulesWithResponse c ctx dataset w = ((Some resp, None), w1) ->
  StatusCode (HTTPResponse resp) = StatusOK ->
  JSON200 resp = Some l ->
  len l <= Int64.MaxInt64 ->
  ListCheckRules unmarshal c ctx dataset w = (Some (map Some l, None), w1)
  /\ exists it,
       ListCheckRulesIter unmarshal c ctx dataset w = (Some it, w1)
       /\ forall w2, exists it',
            collect (S (List.length l)) it w2 [] = Some (map Some l, it', w2)
            /\ Err it' = None.
Proof.
  intros Hcall Hs Hj Hlen.
  pose proof (ListCheckRules_ok unmarshal c ctx dataset w resp l w1 Hcall Hs Hj) as Hl.
  rewrite toPointerSlice_map in Hl.
  split; [exact Hl|].
  exists (newIter (map Some l) false None None).
  split.
  - unfold ListCheckRulesIter. now rewrite Hl.
  - intros w2.
    destruct (IteratorFacts.collect_single_page (map Some l) None None w2)
      as (it' & Hc & He).
    { unfold len in *. now rewrite length_map. }
    exists it'. rewrite length_map in Hc. now split.
Qed.

Lemma ListCheckRulesIter_yields_the_rules_witness :
  let c := Stub.inner (Stub.ok 200 (Some ["rule-1"; "rule-2"])) Stub.unused Stub.unused in
  let w := Stub.mkWorld [] [] in
  ListCheckRules Errors.Flat.unmarshal c Ctx.Background None w
  = (Some (map Some ["rule-1"; "rule-2"], None), w)
  /\ exists it,
       ListCheckRulesIter Errors.Flat.unmarshal c Ctx.Background None w = (Some it, w)
       /\ forall w2, exists it',
            collect 3 it w2 [] = Some (map Some ["rule-1"; "rule-2"], it', w2)
            /\ Err it' = None.
Proof.
  intros c w.
  apply (ListCheckRulesIter_yields_the_rules Errors.Flat.unmarshal c Ctx.Background None
           w w (mkApiResponse "" (mkResponse 200 "" [] None) (Some ["rule-1"; "rule-2"]))
           ["rule-1"; "rule-2"]).
  - reflexivity.
  - reflexivity.
  - reflexivity.
  - vm_compute. discriminate.
Defined.

(** X24.  When [ListCheckRules] returns an error it returns no rule
    with it, and the iterator of [ListCheckRulesIter] carries the error:
    every [Next] returns false and calls nothing, [Current] is nil and
    [Err] is the error (held by its text). *)
Theorem ListCheckRulesIter_carries_the_error {W Item Rule Span P R : Type}
    (unmarshal : Errors.Unmarshal)
    (c : @ClientWithResponses W Item Rule Span P R) (ctx : Ctx.GoContext)
    (dataset : option string) (w w1 : W) (items : list (option Item))
    (e : clientError) :
  ListCheckRules unmarshal c ctx dataset w = (Some (items, Some e), w1) ->
  items = []
  /\ exists it,
       ListCheckRulesIter unmarshal c ctx dataset w = (Some it, w1)
       /\ Err it = Some (errorText e) /\ Current it = None
       /\ forall n w2, calls (S n) it w2 = Some (Some false, it, w2).
Proof.
  intros Hl. split; [exact (ListCheckRules_error unmarshal c ctx dataset w items e w1 Hl)|].
  exists (newIterWithError (Some (errorText e))).
  split; [unfold ListCheckRulesIter; now rewrite Hl|].
  split; [reflexivity|]. split; [reflexivity|].
  intros n w2. now apply (PagingFacts.calls_after_error _ w2 (errorText e) n).
Qed.

Lemma ListCheckRulesIter_carries_the_error_witness :
  let c := Stub.inner
             (Some (mkApiResponse (Errors.Flat.object1 "message" "no such dataset")
                      (mkResponse 404 "404 Not Found" [] None) None), None)
             Stub.unused Stub.unused in
  let w := Stub.mkWorld [] [] in
  exists it,
    ListCheckRulesIter Errors.Flat.unmarshal c Ctx.Background None w = (Some it, w)
    /\ Err it = Some "dash0 api error: no such dataset (status: 404)"
    /\ Current it = None
    /\ forall n w2, calls (S n) it w2 = Some (Some false, it, w2).
Proof.
  intros c w.
  apply (ListCheckRulesIter_carries_the_error Errors.Flat.unmarshal c Ctx.Background None
           w w []
           (Api (Errors.newAPIErrorWithBody Errors.Flat.unmarshal
                   (mkResponse 404 "404 Not Found" [] None)
                   (Errors.Flat.object1 "message" "no such dataset")))).
  reflexivity.
Defined.

(** X25.  Only the status 200 counts as success for [CreateCheckRule]
    (as for [GetCheckRule], [UpdateCheckRule], the imports, [GetSpans]
    and [GetLogRecords], which share its statements).  A response with
    another status of the 2xx range, 201 Created for one, is returned as
    an [*APIError] with that status, which none of the seven predicates
    recognises; a response with status 200 is returned as its
    [JSON200], which gives a nil result without an error when the body
    was not decoded.  A nil rule makes the function panic before it
    calls anything. *)
Theorem CreateCheckRule_succeeds_on_200_only {W Item Rule Span P R : Type}
    (unmarshal : Errors.Unmarshal)
    (c : @ClientWithResponses W Item Rule Span P R) (ctx : Ctx.GoContext)
    (rule : Rule) (dataset : option string) (w w1 : W) (resp : apiResponse Rule) :
  PostApiAlertingCheckRulesWithResponse c ctx dataset rule w = ((Some resp, None), w1) ->
  (StatusCode (HTTPResponse resp) = 200 ->
     CreateCheckRule unmarshal c ctx (Some rule) dataset w = (Some (JSON200 resp, None), w1))
  /\ (StatusCode (HTTPResponse resp) <> 200 ->
      exists a,
        CreateCheckRule unmarshal c ctx (Some rule) dataset w
        = (Some (None, Some (Api a)), w1)
        /\ Errors.StatusCode a = StatusCode (HTTPResponse resp)
        /\ Errors.Body a = Body resp
        /\ (200 < StatusCode (HTTPResponse resp) < 300 ->
            filter (fun p => p (asGoError (Api a))) predicates = []))
  /\ CreateCheckRule unmarshal c ctx None dataset w = (None, w).
Proof.
  intros Hcall. split; [|split].
  - intros Hs. unfold CreateCheckRule. rewrite Hcall.
    now rewrite checked_ok.
  - intros Hs. eexists. split.
    + unfold CreateCheckRule. rewrite Hcall. now rewrite checked_not_ok.
    + split; [apply ErrorsProps.newAPIErrorWithBody_status|]. split.
      * unfold Errors.newAPIErrorWithBody.
        destruct (0 <? Z.of_nat (String.length (Body resp))); [|reflexivity].
        destruct (unmarshal (Body resp)) as [decoded err].
        destruct (isNil err); [|reflexivity].
        destruct (Errors.nonEmpty (Errors.jsonMessage decoded)); [reflexivity|].
        destruct (Errors.nonEmpty (Errors.jsonError decoded)); reflexivity.
      * intros Hr. unfold predicates, asGoError, Errors.IsNotFound,
          Errors.IsUnauthorized, Errors.IsForbidden, Errors.IsRateLimited,
          Errors.IsBadRequest, Errors.IsConflict, Errors.IsServerError, Errors.statusIs,
          StatusNotFound, StatusUnauthorized, StatusForbidden, StatusTooManyRequests,
          StatusBadRequest, StatusConflict.
        cbn [filter]. rewrite ErrorsProps.newAPIErrorWithBody_status.
        repeat match goal with
               | |- context [?a =? ?b] =>
                 replace (a =? b) with false by (symmetry; apply Z.eqb_neq; lia)
               end.
        replace (500 <=? StatusCode (HTTPResponse resp)) with false
          by (symmetry; apply Z.leb_gt; lia).
        reflexivity.
  - reflexivity.
Qed.

Lemma CreateCheckRule_succeeds_on_200_only_witness :
  let created := mkApiResponse "" (mkResponse 201 "201 Created" [] None) (Some "rule") in
  let c := Stub.inner Stub.unused (Some created, None) Stub.unused in
  let w := Stub.mkWorld [] [] in
  exists a,
    CreateCheckRule Errors.Flat.unmarshal c Ctx.Background (Some "rule") None w
    = (Some (None, Some (Api a)), w)
    /\ Errors.StatusCode a = 201
    /\ filter (fun p => p (asGoError (Api a))) predicates = [].
Proof.
  intros created c w.
  destruct (CreateCheckRule_succeeds_on_200_only Errors.Flat.unmarshal c Ctx.Background
              "rule" None w w created eq_refl) as (_ & H & _).
  destruct (H ltac:(discriminate)) as (a & Hc & Hs & _ & Hp).
  exists a. split; [exact Hc|]. split; [exact Hs|]. apply Hp. simpl. lia.
Defined.

(** X26.  [DeleteCheckRule] returns no error exactly when the binding
    returned a response without an error and its status is 200 or 204;
    a response with another status is returned as an [*APIError] with
    that status. *)
Theorem DeleteCheckRule_accepts_200_and_204 {W Item Rule Span P R : Type}
    (unmarshal : Errors.Unmarshal)
    (c : @ClientWithResponses W Item Rule Span P R) (ctx : Ctx.GoContext)
    (originOrID : string) (dataset : option string) (w : W) :
  let r := fst (DeleteApiAlertingCheckRulesOriginOrIdWithResponse c ctx originOrID dataset w) in
  let w1 := snd (DeleteApiAlertingCheckRulesOriginOrIdWithResponse c ctx originOrID dataset w) in
  (DeleteCheckRule unmarshal c ctx originOrID dataset w = (Some None, w1)
   <-> exists resp,
         r = (Some resp, None)
         /\ (StatusCode (HTTPResponse resp) = 200 \/ StatusCode (HTTPResponse resp) = 204))
  /\ (forall resp,
        r = (Some resp, None) ->
        StatusCode (HTTPResponse resp) <> 200 -> StatusCode (HTTPResponse resp) <> 204 ->
        exists a,
          DeleteCheckRule unmarshal c ctx originOrID dataset w = (Some (Some (Api a)), w1)
          /\ Errors.StatusCode a = StatusCode (HTTPResponse resp)).
Proof.
  intros r w1. subst r w1. unfold DeleteCheckRule.
  destruct (DeleteApiAlertingCheckRulesOriginOrIdWithResponse c ctx originOrID dataset w)
    as [[resp err] w1]. cbn [fst snd].
  unfold StatusOK, StatusNoContent.
  split.
  - split.
    + destruct resp as [resp|], err as [err|]; try discriminate.
      destruct (Z.eqb_spec (StatusCode (HTTPResponse resp)) 200) as [H2|H2];
        destruct (Z.eqb_spec (StatusCode (HTTPResponse resp)) 204) as [H4|H4];
        cbn [negb andb]; intros H; try discriminate; exists resp; auto.
    + intros (resp' & Hr & Hs). inversion Hr; subst.
      destruct (Z.eqb_spec (StatusCode (HTTPResponse resp')) 200) as [H2|H2];
        destruct (Z.eqb_spec (StatusCode (HTTPResponse resp')) 204) as [H4|H4];
        cbn [negb andb]; try reflexivity. lia.
  - intros resp' Hr H2 H4. inversion Hr; subst.
    replace (StatusCode (HTTPResponse resp') =? 200) with false
      by (symmetry; now apply Z.eqb_neq).
    replace (StatusCode (HTTPResponse resp') =? 204) with false
      by (symmetry; now apply Z.eqb_neq).
    cbn [negb andb]. eexists. split; [reflexivity|].
    apply ErrorsProps.newAPIErrorWithBody_status.
Qed.

(** ** The iterator over spans *)

Section Spans.
Context {W Item Rule Span P R : Type}.
Variable unmarshal : Errors.Unmarshal.
Variable zeroPagination : P.
Implicit Types (c : @ClientWithResponses W Item Rule Span P R) (w : W)
  (request : pagedRequest P R).

Lemma GetSpans_ok c ctx request w resp body w1 :
  PostApiSpansWithResponse c (Ctx.withIdempotent ctx) request w
  = ((Some resp, None), w1) ->
  StatusCode (HTTPResponse resp) = StatusOK ->
  JSON200 resp = body ->
  GetSpans unmarshal c ctx (Some request) w = (Some (body, None), w1).
Proof.
  intros Hcall Hs Hj. unfold GetSpans. rewrite Hcall.
  rewrite checked_ok by assumption. now rewrite Hj.
Qed.

Lemma served_walk c ctx request pages : forall cur w w',
  served zeroPagination c ctx request cur w pages w' ->
  walk (spansFetch unmarshal zeroPagination c ctx request) cur (Some w)
    (pointerPages pages) (Some w').
Proof.
  induction pages as [|[spans next] pages IH]; intros cur w w' H.
  - simpl in *. now subst.
  - simpl in H.
    destruct H as (resp & body & w1 & Hcall & Hs & Hj & Hres & Haft & Hrest).
    cbn [pointerPages map walk fst snd]. exists (Some w1). split.
    + unfold spansFetch.
      rewrite (GetSpans_ok c ctx _ w resp (Some body) w1 Hcall Hs Hj).
      now rewrite Hres, Haft.
    + now apply IH.
Qed.

Lemma itemsOf_pointerPages (pages : list (list Span * option string)) :
  itemsOf (pointerPages pages) = map Some (List.concat (map fst pages)).
Proof.
  unfold itemsOf, pointerPages.
  induction pages as [|[spans next] pages IH]; [reflexivity|].
  simpl. rewrite IH, toPointerSlice_map, map_app. reflexivity.
Qed.

End Spans.

(** X27.  [GetSpansIter] walks through all the pages.  The binding
    answers the request of the caller with a first page and a cursor;
    asked again with the request of the caller in which only the cursor
    of the pagination is replaced by the cursor of the page before
    (every call with the context marked as idempotent), it answers with
    further pages, of which each but the last has items and a cursor.
    Then the loop of a caller yields a pointer to every span of every
    page, in order, ends without an error, and has called the binding
    once per page.  (The request is the one the caller gave when the
    iterator was made.) *)
Theorem GetSpansIter_yields_every_page {W Item Rule Span P R : Type}
    (unmarshal : Errors.Unmarshal) (zeroPagination : P)
    (c : @ClientWithResponses W Item Rule Span P R) (ctx : Ctx.GoContext)
    (request : pagedRequest P R) (w w0 w1 w2 : W)
    (resp0 resp1 : apiResponse (pagedResponse Span))
    (body0 body1 : pagedResponse Span) (c0 : string)
    (pages : list (list Span * option string)) (fuel : nat) :
  PostApiSpansWithResponse c (Ctx.withIdempotent ctx) request w
    = ((Some resp0, None), w0) ->
  StatusCode (HTTPResponse resp0) = StatusOK ->
  JSON200 resp0 = Some body0 ->
  afterCursor body0 = Some c0 ->
  served zeroPagination c ctx request (Some c0) w0 pages w1 ->
  PostApiSpansWithResponse c (Ctx.withIdempotent ctx)
    (nextRequest zeroPagination request (lastCursor (Some c0) (pointerPages pages))) w1
    = ((Some resp1, None), w2) ->
  StatusCode (HTTPResponse resp1) = StatusOK ->
  JSON200 resp1 = Some body1 ->
  afterCursor body1 = None ->
  continuing (pointerPages pages) ->
  len (Resources body0) <= Int64.MaxInt64 ->
  len (Resources body1) <= Int64.MaxInt64 ->
  (List.length (Resources body0 ++ List.concat (map fst pages) ++ Resources body1)
   < fuel)%nat ->
  exists it it',
    GetSpansIter unmarshal zeroPagination c ctx (Some request) w = (Some it, w0)
    /\ collect fuel it (Some w0) []
       = Some (map Some (Resources body0 ++ List.concat (map fst pages)
                           ++ Resources body1),
               it', Some w2)
    /\ Err it' = None.
Proof.
  intros Hcall0 Hs0 Hj0 Ha0 Hserved Hcall1 Hs1 Hj1 Ha1 Hcont Hl0 Hl1 Hfuel.
  pose proof (GetSpans_ok unmarshal c ctx request w resp0 (Some body0) w0 Hcall0 Hs0 Hj0)
    as Hg0.
  exists (newIter (toPointerSlice (Resources body0)) true (Some c0)
            (Some (spansFetch unmarshal zeroPagination c ctx request))).
  destruct (PagingFacts.collect_pages
              (spansFetch unmarshal zeroPagination c ctx request)
              (toPointerSlice (Resources body0)) (Some c0) (pointerPages pages)
              (toPointerSlice (Resources body1)) (Some w0) (Some w1) (Some w2) fuel)
    as (it' & Hc & He).
  - rewrite toPointerSlice_map. unfold len in *. now rewrite length_map.
  - exact Hcont.
  - rewrite toPointerSlice_map. unfold len in *. now rewrite length_map.
  - now apply served_walk.
  - unfold spansFetch.
    rewrite (GetSpans_ok unmarshal c ctx _ w1 resp1 (Some body1) w2 Hcall1 Hs1 Hj1).
    now rewrite Ha1.
  - rewrite itemsOf_pointerPages, !toPointerSlice_map, <- !map_app, length_map.
    exact Hfuel.
  - exists it'. split; [|split; [|exact He]].
    + unfold GetSpansIter. rewrite Hg0, Ha0. reflexivity.
    + rewrite Hc, itemsOf_pointerPages, !toPointerSlice_map, <- !map_app.
      reflexivity.
Qed.

Lemma GetSpansIter_yields_every_page_witness :
  let c := Stub.inner Stub.unused Stub.unused Stub.unused in
  let request := mkPagedRequest (Some (mkCursorPagination None 100)) tt in
  let w := Stub.mkWorld
             [Stub.page ["a"] (Some "c1"); Stub.page ["b"; "c"] (Some "c2");
              Stub.page ["d"] None] [] in
  exists it it',
    GetSpansIter Errors.Flat.unmarshal 0 c Ctx.Background (Some request) w
    = (Some it,
       Stub.mkWorld [Stub.page ["b"; "c"] (Some "c2"); Stub.page ["d"] None]
         [(Ctx.withIdempotent Ctx.Background, request)])
    /\ collect 10 it
         (Some (Stub.mkWorld [Stub.page ["b"; "c"] (Some "c2"); Stub.page ["d"] None]
                  [(Ctx.withIdempotent Ctx.Background, request)])) []
       = Some (map Some (["a"] ++ List.concat (map fst [(["b"; "c"], Some "c2")]) ++ ["d"]),
               it',
               Some (Stub.mkWorld []
                       [(Ctx.withIdempotent Ctx.Background, request);
                        (Ctx.withIdempotent Ctx.Background,
                         mkPagedRequest (Some (mkCursorPagination (Some "c1") 100)) tt);
                        (Ctx.withIdempotent Ctx.Background,
                         mkPagedRequest (Some (mkCursorPagination (Some "c2") 100)) tt)]))
    /\ Err it' = None.
Proof.
  intros c request w.
  eapply (GetSpansIter_yields_every_page Errors.Flat.unmarshal 0 c Ctx.Background
            request w _ _ _
            (mkApiResponse "" (mkResponse 200 "" [] None)
               (Some (mkPagedResponse ["a"] (Some (mkPageCursors (Some "c1"))))))
            (mkApiResponse "" (mkResponse 200 "" [] None)
               (Some (mkPagedResponse ["d"] (Some (mkPageCursors None)))))
            (mkPagedResponse ["a"] (Some (mkPageCursors (Some "c1"))))
            (mkPagedResponse ["d"] (Some (mkPageCursors None)))
            "c1" [(["b"; "c"], Some "c2")] 10).
  - reflexivity.
  - reflexivity.
  - reflexivity.
  - reflexivity.
  - simpl. eexists _, _, _. repeat split; reflexivity.
  - reflexivity.
  - reflexivity.
  - reflexivity.
  - reflexivity.
  - repeat constructor; simpl; try discriminate; vm_compute; discriminate.
  - vm_compute. discriminate.
  - vm_compute. discriminate.
  - simpl. lia.
Defined.

(** X28.  A 200 answer whose body was not decoded ([JSON200] is nil)
    makes [GetSpans] return a nil response without an error, and
    [GetSpansIter], which does not check for it, panic on the nil
    response; the fetch function of the iterator panics in the same way
    when a further page is answered so. *)
Theorem GetSpansIter_panics_on_undecoded_200 {W Item Rule Span P R : Type}
    (unmarshal : Errors.Unmarshal) (zeroPagination : P)
    (c : @ClientWithResponses W Item Rule Span P R) (ctx : Ctx.GoContext)
    (request : pagedRequest P R) (cur : option string) (w w0 : W)
    (resp : apiResponse (pagedResponse Span)) :
  StatusCode (HTTPResponse resp) = StatusOK ->
  JSON200 resp = None ->
  (PostApiSpansWithResponse c (Ctx.withIdempotent ctx) request w
     = ((Some resp, None), w0) ->
   GetSpans unmarshal c ctx (Some request) w = (Some (None, None), w0)
   /\ GetSpansIter unmarshal zeroPagination c ctx (Some request) w = (None, w0))
  /\ (PostApiSpansWithResponse c (Ctx.withIdempotent ctx)
        (nextRequest zeroPagination request cur) w = ((Some resp, None), w0) ->
      snd (spansFetch unmarshal zeroPagination c ctx request cur (Some w)) = None).
Proof.
  intros Hs Hj. split; intros Hcall.
  - pose proof (GetSpans_ok unmarshal c ctx request w resp None w0 Hcall Hs Hj) as Hg.
    split; [exact Hg|]. unfold GetSpansIter. now rewrite Hg.
  - unfold spansFetch.
    now rewrite (GetSpans_ok unmarshal c ctx _ w resp None w0 Hcall Hs Hj).
Qed.

Lemma GetSpansIter_panics_on_undecoded_200_witness :
  let c := Stub.inner Stub.unused Stub.unused Stub.unused in
  let request := mkPagedRequest None tt in
  let w := Stub.mkWorld [Stub.ok 200 None] [] in
  GetSpans Errors.Flat.unmarshal c Ctx.Background (Some request) w
  = (Some (None, None), Stub.mkWorld [] [(Ctx.withIdempotent Ctx.Background, request)])
  /\ GetSpansIter Errors.Flat.unmarshal 0 c Ctx.Background (Some request) w
     = (None, Stub.mkWorld [] [(Ctx.withIdempotent Ctx.Background, request)]).
Proof.
  intros c request w.
  apply (GetSpansIter_panics_on_undecoded_200 Errors.Flat.unmarshal 0 c Ctx.Background
           request None w _ (mkApiResponse "" (mkResponse 200 "" [] None) None)
           eq_refl eq_refl).
  reflexivity.
Defined.

End ClientFacts.
(* ===================================================================== *)
(** * Properties of [NewClient] *)
(* ===================================================================== *)

Module ConfigFacts.
Import Http Config.

(** ** The headers the request editor sets *)

Lemma lookup_filter_other (h : Header) k k' :
  k' <> k ->
  lookup (filter (fun kv => negb (String.eqb (fst kv) k)) h) k' = lookup h k'.
Proof.
  intros Hne. induction h as [|[k0 v] h IH]; [reflexivity|].
  cbn [filter fst]. destruct (String.eqb_spec k0 k) as [->|Hk0]; cbn [negb].
  - rewrite IH. cbn [lookup].
    destruct (String.eqb_spec k k') as [->|_]; [now elim Hne | reflexivity].
  - cbn [lookup]. now rewrite IH.
Qed.

Lemma lookup_SetHeader (h : Header) key value k' :
  lookup (SetHeader h key value) k'
  = if String.eqb (CanonicalMIMEHeaderKey key) k' then Some [value] else lookup h k'.
Proof.
  unfold SetHeader. cbn [lookup].
  destruct (String.eqb_spec (CanonicalMIMEHeaderKey key) k') as [He|Hne];
    [reflexivity|].
  apply lookup_filter_other. congruence.
Qed.

Lemma Get_SetHeader (h : Header) key value key' :
  Get (SetHeader h key value) key'
  = if String.eqb (CanonicalMIMEHeaderKey key) (CanonicalMIMEHeaderKey key')
    then value else Get h key'.
Proof.
  unfold Get. rewrite lookup_SetHeader.
  now destruct (String.eqb _ _).
Qed.

(** X29.  The request editor of the client leaves, on every request
    it is applied to, exactly the bearer token under the canonical key
    [Authorization] and exactly the configured user agent under the
    canonical key [User-Agent], whatever was stored under these two
    keys before (it is replaced, not added to), so that [Get] with any
    spelling of the two names returns the new values.  What is stored
    under any other key stays as it is, and that includes another
    spelling of the two names put into the map as it is (under
    [authorization], say), which [Get] never sees.  The editor returns
    no error. *)
Theorem authEditor_sets_both_headers {W CheckRedirectFn CookieJar : Type}
    (cfg : @clientConfig W CheckRedirectFn CookieJar) (h : Header) (key : string) :
  let h' := fst (authEditor cfg h) in
  snd (authEditor cfg h) = None
  /\ lookup h' "Authorization" = Some [("Bearer " ++ authToken cfg)%string]
  /\ lookup h' "User-Agent" = Some [userAgent cfg]
  /\ (key <> "Authorization" -> key <> "User-Agent" -> lookup h' key = lookup h key)
  /\ (CanonicalMIMEHeaderKey key = "Authorization" ->
      Get h' key = ("Bearer " ++ authToken cfg)%string)
  /\ (CanonicalMIMEHeaderKey key = "User-Agent" -> Get h' key = userAgent cfg)
  /\ (CanonicalMIMEHeaderKey key <> "Authorization" ->
      CanonicalMIMEHeaderKey key <> "User-Agent" ->
      Get h' key = Get h key).
Proof.
  intros h'. subst h'. unfold authEditor. cbn [fst snd].
  change (CanonicalMIMEHeaderKey "User-Agent") with "User-Agent".
  split; [reflexivity|]. split; [|split; [|split; [|split; [|split]]]].
  - rewrite !lookup_SetHeader. reflexivity.
  - rewrite !lookup_SetHeader. reflexivity.
  - intros Ha Hu. rewrite !lookup_SetHeader.
    change (CanonicalMIMEHeaderKey "User-Agent") with "User-Agent".
    change (CanonicalMIMEHeaderKey "Authorization") with "Authorization".
    destruct (String.eqb_spec "User-Agent" key) as [He|_];
      [now elim Hu|].
    destruct (String.eqb_spec "Authorization" key) as [He|_];
      [now elim Ha | reflexivity].
  - intros Hk. rewrite !Get_SetHeader, Hk. reflexivity.
  - intros Hk. rewrite !Get_SetHeader, Hk. reflexivity.
  - intros Ha Hu. rewrite !Get_SetHeader.
    change (CanonicalMIMEHeaderKey "User-Agent") with "User-Agent".
    change (CanonicalMIMEHeaderKey "Authorization") with "Authorization".
    destruct (String.eqb_spec "User-Agent" (CanonicalMIMEHeaderKey key)) as [He|_];
      [now elim Hu|].
    destruct (String.eqb_spec "Authorization" (CanonicalMIMEHeaderKey key)) as [He|_];
      [now elim Ha | reflexivity].
Qed.

(** A request that carries credentials under both spellings: the ones
    under the canonical key are replaced, the ones stored under
    [authorization] stay. *)
Lemma authEditor_sets_both_headers_witness :
  let cfg : Config.Stub.Cfg :=
    WithAuthToken "auth_token" (WithApiUrl "https://api.example.com" defaultConfig) in
  let h := [("authorization", ["Basic abc"]); ("Authorization", ["Basic xyz"; "Basic uvw"])] in
  lookup (fst (authEditor cfg h)) "Authorization" = Some ["Bearer auth_token"]
  /\ lookup (fst (authEditor cfg h)) "authorization" = Some ["Basic abc"]
  /\ Get (fst (authEditor cfg h)) "authorization" = "Bearer auth_token".
Proof.
  intros cfg h.
  destruct (authEditor_sets_both_headers cfg h "authorization")
    as (_ & Hauth & _ & Hother & Hget & _).
  split; [exact Hauth|]. split.
  - rewrite Hother; [reflexivity | discriminate | discriminate].
  - apply Hget. reflexivity.
Defined.

(** ** Validation and clamping *)

Lemma clampMaxRetries_value n : clampMaxRetries n = Z.min (Z.max n 0) 5.
Proof.
  unfold clampMaxRetries, MaxRetries.
  destruct (n <? 0) eqn:H0.
  - apply Z.ltb_lt in H0. simpl. lia.
  - apply Z.ltb_ge in H0. destruct (5 <? n) eqn:H5.
    + apply Z.ltb_lt in H5. lia.
    + apply Z.ltb_ge in H5. lia.
Qed.

Lemma clampMaxConcurrent_value n : Limiter.clampMaxConcurrent n = Z.min (Z.max n 1) 10.
Proof.
  unfold Limiter.clampMaxConcurrent, Limiter.MaxConcurrentRequests.
  destruct (n <? 1) eqn:H1.
  - apply Z.ltb_lt in H1. simpl. lia.
  - apply Z.ltb_ge in H1. destruct (10 <? n) eqn:H10.
    + apply Z.ltb_lt in H10. lia.
    + apply Z.ltb_ge in H10. lia.
Qed.

(** X30.  [NewClient] checks the configuration in a fixed order: a
    missing API URL is reported first, then a missing token, then a
    token that does not start with [auth_]; in these cases the generated
    constructor is not called.  Otherwise it brings the limit of
    concurrent requests into the range from 1 to 10 and the number of
    retries into the range from 0 to 5, leaves every other setting as it
    is, and hands to the generated constructor an HTTP client whose
    transport is the retrying transport, with just this number of
    retries and with waits above zero, around the limiting transport,
    with just this limit, around the transport of the custom client (the
    default transport if there is none); its timeout is the configured
    one, not the one of the custom client, of which the redirect policy
    and the cookie jar are kept.  The client is returned when the
    generated constructor returns no error, with the clamped
    configuration. *)
Theorem NewClient_validates_and_clamps {W Inner CheckRedirectFn CookieJar : Type}
    (E : Transport.Env W)
    (newRateLimitedTransport : Transport.RoundTripper W -> Z -> Transport.RoundTripper W)
    (NewClientWithResponses :
       string -> HttpClient (Transport.retryTransport W) CheckRedirectFn CookieJar ->
       (Header -> Header * option error) -> option Inner * option error)
    (opts : list (@ClientOption W CheckRedirectFn CookieJar)) :
  let cfg := configured opts in
  let result := NewClient E newRateLimitedTransport NewClientWithResponses opts in
  (apiUrl cfg = "" ->
     result = (None, Some (Client.Plain "dash0: API URL is required (use WithApiUrl)")))
  /\ (apiUrl cfg <> "" -> authToken cfg = "" ->
      result
      = (None, Some (Client.Plain "dash0: auth token is required (use WithAuthToken)")))
  /\ (apiUrl cfg <> "" -> authToken cfg <> "" ->
      String.prefix "auth_" (authToken cfg) = false ->
      result = (None, Some (Client.Plain "dash0: auth token must start with 'auth_'")))
  /\ (apiUrl cfg <> "" -> String.prefix "auth_" (authToken cfg) = true ->
      exists cfg' hc,
        result
        = match NewClientWithResponses (apiUrl cfg) hc (authEditor cfg') with
          | (_, Some err) =>
            (None, Some (Client.Wrapped "dash0: failed to create client" err))
          | (inner, None) => (Some (mkClient inner cfg'), None)
          end
        /\ cfg' = set_maxRetries
                    (set_maxConcurrent cfg (Z.min (Z.max (maxConcurrent cfg) 1) 10))
                    (Z.min (Z.max (maxRetries cfg) 0) 5)
        /\ 1 <= maxConcurrent cfg' <= 10
        /\ 0 <= maxRetries cfg' <= 5
        /\ Transport.base (Transport' hc)
           = newRateLimitedTransport (baseTransport E cfg) (maxConcurrent cfg')
        /\ Transport.maxRetries (Transport' hc) = maxRetries cfg'
        /\ 0 < Transport.waitMin (Transport' hc)
        /\ 0 < Transport.waitMax (Transport' hc)
        /\ Timeout hc = timeout cfg
        /\ CheckRedirect hc
           = match httpClient cfg with Some c => CheckRedirect c | None => None end
        /\ Jar hc = match httpClient cfg with Some c => Jar c | None => None end).
Proof.
  intros cfg result. subst result. unfold NewClient. fold cfg.
  split; [|split; [|split]].
  - intros Hu. now rewrite Hu.
  - intros Hu Ht.
    destruct (String.eqb_spec (apiUrl cfg) "") as [He|_]; [now elim Hu|].
    now rewrite Ht.
  - intros Hu Ht Hp.
    destruct (String.eqb_spec (apiUrl cfg) "") as [He|_]; [now elim Hu|].
    destruct (String.eqb_spec (authToken cfg) "") as [He|_]; [now elim Ht|].
    now rewrite Hp.
  - intros Hu Hp.
    destruct (String.eqb_spec (apiUrl cfg) "") as [He|_]; [now elim Hu|].
    destruct (String.eqb_spec (authToken cfg) "") as [He|_].
    { rewrite He in Hp. discriminate Hp. }
    rewrite Hp. cbn [negb].
    rewrite clampMaxConcurrent_value.
    cbn [set_maxConcurrent set_maxRetries WithMaxConcurrentRequests WithMaxRetries
         maxRetries maxConcurrent apiUrl httpClient timeout retryWaitMin retryWaitMax].
    rewrite clampMaxRetries_value.
    eexists _, _. split; [reflexivity|].
    split; [reflexivity|].
    cbn [set_maxConcurrent set_maxRetries WithMaxConcurrentRequests WithMaxRetries
         maxRetries maxConcurrent Transport' Timeout CheckRedirect Jar].
    split; [lia|]. split; [lia|].
    destruct (TransportFacts.newRetryTransport_maxRetries E
                (Some (newRateLimitedTransport
                         (baseTransport E
                            (set_maxRetries
                               (set_maxConcurrent cfg (Z.min (Z.max (maxConcurrent cfg) 1) 10))
                               (Z.min (Z.max (maxRetries cfg) 0) 5)))
                         (Z.min (Z.max (maxConcurrent cfg) 1) 10)))
                (Z.min (Z.max (maxRetries cfg) 0) 5) (retryWaitMin cfg) (retryWaitMax cfg))
      as [_ Hkeep].
    destruct (TransportFacts.newRetryTransport_waits E
                (Some (newRateLimitedTransport
                         (baseTransport E
                            (set_maxRetries
                               (set_maxConcurrent cfg (Z.min (Z.max (maxConcurrent cfg) 1) 10))
                               (Z.min (Z.max (maxRetries cfg) 0) 5)))
                         (Z.min (Z.max (maxConcurrent cfg) 1) 10)))
                (Z.min (Z.max (maxRetries cfg) 0) 5) (retryWaitMin cfg) (retryWaitMax cfg))
      as (Hmin & Hmin0 & Hmax & Hmax0).
    split; [reflexivity|].
    split; [apply Hkeep; lia|].
    split.
    { destruct (Z_le_gt_dec (retryWaitMin cfg) 0) as [H0|H0].
      - rewrite (Hmin0 H0). lia.
      - rewrite (Hmin ltac:(lia)). lia. }
    split.
    { destruct (Z_le_gt_dec (retryWaitMax cfg) 0) as [H0|H0].
      - rewrite (Hmax0 H0). lia.
      - rewrite (Hmax ltac:(lia)). lia. }
    repeat split.
Qed.

End ConfigFacts.

(* ===================================================================== *)
(** * The tests of the repository, run on the model *)
(* ===================================================================== *)

Module RepositoryTests.
Import Http Transport.

(** ** iterator_test.go *)

(** "iterates over initial items" *)
Example iter_initial_items :
  exists it,
    Iterator.collect 10 (Iterator.newIter [Some "a"; Some "b"; Some "c"] false None None)
      0%nat []
    = Some ([Some "a"; Some "b"; Some "c"], it, 0%nat)
    /\ Iterator.Err it = None.
Proof. eexists. split; reflexivity. Qed.

(** "handles empty iterator" *)
Example iter_empty :
  exists it,
    Iterator.Next (Iterator.newIter (T:=string) [] false None None) 0%nat
    = Some (false, it, 0%nat)
    /\ Iterator.Err it = None /\ Iterator.Current it = None.
Proof. eexists. repeat split. Qed.

(** "fetches next page when hasMore is true": four items, one fetch. *)
Example iter_next_page :
  exists it,
    Iterator.collect 10
      (Iterator.newIter [Some "a"; Some "b"] true (Some "cursor1")
         (Some Iterator.fetch_last_page)) 0%nat []
    = Some ([Some "a"; Some "b"; Some "c"; Some "d"], it, 1%nat)
    /\ Iterator.Err it = None.
Proof. eexists. split; reflexivity. Qed.

(** "fetches multiple pages": three items, two fetches. *)
Example iter_multiple_pages :
  exists it,
    Iterator.collect 10
      (Iterator.newIter [Some "a"] true (Some "cursor1")
         (Some Iterator.fetch_two_pages)) 0%nat []
    = Some ([Some "a"; Some "b"; Some "c"], it, 2%nat)
    /\ Iterator.Err it = None.
Proof. eexists. split; reflexivity. Qed.

(** "stops iteration on fetch error", and every later [Next] is false. *)
Example iter_fetch_error :
  exists it,
    Iterator.collect 10
      (Iterator.newIter [Some "a"] true (Some "cursor1")
         (Some Iterator.fetch_failing)) 0%nat []
    = Some ([Some "a"], it, 1%nat)
    /\ Iterator.Err it = Some "fetch failed"
    /\ Iterator.Next it 1%nat = Some (false, it, 1%nat).
Proof. eexists. repeat split. Qed.

(** "does not fetch when fetch function is nil" *)
Example iter_nil_fetch :
  exists it,
    Iterator.collect 10
      (Iterator.newIter [Some "a"] true (Some "cursor1") None) 0%nat []
    = Some ([Some "a"], it, 0%nat).
Proof. eexists. reflexivity. Qed.

(** "returns error immediately" *)
Example iter_with_error :
  let it := Iterator.newIterWithError (T:=string) (Some "initial error") in
  Iterator.Next it 0%nat = Some (false, it, 0%nat)
  /\ Iterator.Err it = Some "initial error"
  /\ Iterator.Current it = None.
Proof. repeat split. Qed.

(** ** The retry tests of the client *)

(** "retries on 500 and succeeds": two failures, then 200, three
    attempts. *)
Example retry_500_then_success :
  Scripted.outcome_of
    (RoundTrip Scripted.env
       (newRetryTransport Scripted.env None 3 Time.Millisecond (10 * Time.Millisecond))
       Scripted.get
       (Scripted.world [Scripted.failure 500 []; Scripted.failure 500 []] [0; 0]) [])
  = Some (Some 200, None, 3%nat).
Proof. vm_compute. reflexivity. Qed.

(** "retries on 429 and succeeds" *)
Example retry_429_then_success :
  Scripted.outcome_of
    (RoundTrip Scripted.env
       (newRetryTransport Scripted.env None 3 Time.Millisecond (10 * Time.Millisecond))
       Scripted.get
       (Scripted.world [Scripted.failure 429 [("Retry-After", ["0"])]] [0]) [])
  = Some (Some 200, None, 2%nat).
Proof. vm_compute. reflexivity. Qed.

(** "fails after max retries exceeded": three attempts with two retries,
    and the 500 comes back. *)
Example retry_exhausted :
  Scripted.outcome_of
    (RoundTrip Scripted.env
       (newRetryTransport Scripted.env None 2 Time.Millisecond (10 * Time.Millisecond))
       Scripted.get
       (Scripted.world
          [Scripted.failure 500 []; Scripted.failure 500 []; Scripted.failure 500 []]
          [0; 0; 0]) [])
  = Some (Some 500, None, 3%nat).
Proof. vm_compute. reflexivity. Qed.

(** "does not retry non-idempotent POST requests" *)
Example no_retry_for_post :
  Scripted.outcome_of
    (RoundTrip Scripted.env
       (newRetryTransport Scripted.env None 3 Time.Millisecond (10 * Time.Millisecond))
       Scripted.post
       (Scripted.world [Scripted.failure 500 []] [0]) [])
  = Some (Some 500, None, 1%nat).
Proof. vm_compute. reflexivity. Qed.

(** "retries POST requests marked as idempotent" *)
Example retry_for_marked_post :
  Scripted.outcome_of
    (RoundTrip Scripted.env
       (newRetryTransport Scripted.env None 3 Time.Millisecond (10 * Time.Millisecond))
       (mkRequest MethodPost (Ctx.withIdempotent Ctx.Background) (Some 0%nat)
          (Some (Scripted.freshBody "payload")))
       (Scripted.world [Scripted.failure 500 []] [0]) [])
  = Some (Some 200, None, 2%nat).
Proof. vm_compute. reflexivity. Qed.

(** "does not retry on 4xx errors" *)
Example no_retry_on_400 :
  Scripted.outcome_of
    (RoundTrip Scripted.env
       (newRetryTransport Scripted.env None 3 Time.Millisecond (10 * Time.Millisecond))
       Scripted.get
       (Scripted.world [Scripted.failure 400 []] [0]) [])
  = Some (Some 400, None, 1%nat).
Proof. vm_compute. reflexivity. Qed.

(** A context that is done during the first wait ends the call with the
    error of the context, after one attempt. *)
Example cancelled_during_wait :
  Scripted.outcome_of
    (RoundTrip Scripted.env (Scripted.transport 3) Scripted.get
       (Scripted.mkWorld [Scripted.failure 500 []] [] 0%nat [] [0] (Some 0%nat) 0%nat) [])
  = Some (None, Some "context canceled", 1%nat).
Proof. vm_compute. reflexivity. Qed.

(** ** errors_test.go *)

(** "extracts message from JSON body", "extracts error from JSON body",
    "prefers message over error in JSON", "handles non-JSON body" *)
Example message_extraction :
  let mk := Errors.newAPIErrorWithBody Errors.Flat.unmarshal
              (Scripted.response 400 []) in
  Errors.Message (mk (Errors.Flat.object1 "message" "validation failed"))
    = "validation failed"
  /\ Errors.Message (mk (Errors.Flat.object1 "error" "something went wrong"))
    = "something went wrong"
  /\ Errors.Message (mk (Errors.Flat.object2 "message" "the message" "error" "the error"))
    = "the message"
  /\ Errors.Message (mk "plain text error") = ""
  /\ Errors.Body (mk "plain text error") = "plain text error"
  /\ Errors.TraceID (mk "") = "".
Proof. repeat split. Qed.

(** "with message and trace ID", "with message only", "with status and
    trace ID", "with status only" *)
Example error_texts :
  ErrorText.Error (Errors.mkAPIError 400 "400 Bad Request" "" "invalid request" "abc123")
  = "dash0 api error: invalid request (status: 400, trace_id: abc123)"
  /\ ErrorText.Error (Errors.mkAPIError 400 "400 Bad Request" "" "invalid request" "")
     = "dash0 api error: invalid request (status: 400)"
  /\ ErrorText.Error (Errors.mkAPIError 500 "500 Internal Server Error" "" "" "def456")
     = "dash0 api error: 500 Internal Server Error (trace_id: def456)"
  /\ ErrorText.Error (Errors.mkAPIError 500 "500 Internal Server Error" "" "" "")
     = "dash0 api error: 500 Internal Server Error".
Proof. repeat split. Qed.

(** ** client_test.go *)

(** "requires API URL", "requires auth token", "auth token must start
    with auth_" *)
Example newclient_requires :
  Config.Stub.NewClient [Config.WithAuthToken "auth_test123"]
  = (None, Some (Client.Plain "dash0: API URL is required (use WithApiUrl)"))
  /\ Config.Stub.NewClient [Config.WithApiUrl "https://api.example.com"]
     = (None, Some (Client.Plain "dash0: auth token is required (use WithAuthToken)"))
  /\ Config.Stub.NewClient [Config.WithApiUrl "https://api.example.com";
                            Config.WithAuthToken "invalid_token"]
     = (None, Some (Client.Plain "dash0: auth token must start with 'auth_'")).
Proof. repeat split. Qed.

(** "accepts valid auth token", "clamps max concurrent requests to
    minimum", "clamps max concurrent requests to maximum" *)
Example newclient_clamps :
  (exists c,
     Config.Stub.NewClient [Config.WithApiUrl "https://api.example.com";
                            Config.WithAuthToken "auth_validtoken123"]
     = (Some c, None))
  /\ (exists c,
        Config.Stub.NewClient [Config.WithApiUrl "https://api.example.com";
                               Config.WithAuthToken "auth_test";
                               Config.WithMaxConcurrentRequests 0]
        = (Some c, None)
        /\ Config.maxConcurrent (Config.config c) = 1)
  /\ (exists c,
        Config.Stub.NewClient [Config.WithApiUrl "https://api.example.com";
                               Config.WithAuthToken "auth_test";
                               Config.WithMaxConcurrentRequests 100]
        = (Some c, None)
        /\ Config.maxConcurrent (Config.config c) = Limiter.MaxConcurrentRequests).
Proof.
  split; [|split]; eexists; (try split); reflexivity.
Qed.

(** The defaults of a client made with the two required options only,
    and the default user agent on its requests. *)
Example newclient_defaults :
  exists c,
    Config.Stub.NewClient [Config.WithApiUrl "https://api.example.com";
                           Config.WithAuthToken "auth_test"]
    = (Some c, None)
    /\ Config.maxConcurrent (Config.config c) = 3
    /\ Config.maxRetries (Config.config c) = 1
    /\ Config.timeout (Config.config c) = 30000000000
    /\ Config.retryWaitMin (Config.config c) = 500000000
    /\ Config.retryWaitMax (Config.config c) = 30000000000
    /\ Get (fst (Config.authEditor (Config.config c) [])) "user-agent"
       = "dash0-api-client-go/1.0.0"
    /\ Get (fst (Config.authEditor (Config.config c) [])) "authorization"
       = "Bearer auth_test".
Proof. eexists. repeat split. Qed.

End RepositoryTests.
